(** * Peer matching and signaling relay: a shallow embedding

    The development follows the three source files of the networking core:

    - [Session]     shared-networking/LocalGameConnection.js
    - [Relay]       shared-networking/local-server.js
    - [Matchmaker]  shared-networking/LocalNetworkManager.js and
                    shared-networking/WebSocketNetworkManager.js

    Every handler is embedded as a function on an explicit state.  The
    function of an async handler is the handler run to completion, each
    [await] resuming at once: it is what the handler does when nothing
    else runs before it has settled.  The signaling handlers of the
    session, which the managers call without awaiting them, are also
    embedded as the event loop runs them, split at their [await]s
    ([Session.arrive] and [Session.settle]).  [Date.now()] is an
    argument of the step that reads it.  Console output is not part of
    the state. *)

From Stdlib Require Import List String ZArith Bool Lia Sorted.
Import ListNotations.
Local Open Scope string_scope.
Local Open Scope list_scope.

(** ** JavaScript completions *)

Module Js.

Inductive Error : Type :=
| TypeError                       (* property access on null/undefined *)
| DOMException (name : string).   (* a rejected browser promise *)

Inductive Completion (A : Type) : Type :=
| Returned (a : A)
| Thrown (e : Error).
Arguments Returned {A} a.
Arguments Thrown {A} e.

(** A computation over a mutable object of type [S]; what was written
    before a throw stays written. *)
Definition M (S A : Type) : Type := S -> Completion A * S.

Definition ret {S A} (a : A) : M S A := fun s => (Returned a, s).
Definition throw {S A} (e : Error) : M S A := fun s => (Thrown e, s).
Definition bind {S A B} (m : M S A) (k : A -> M S B) : M S B :=
  fun s => match m s with
           | (Returned a, s') => k a s'
           | (Thrown e, s') => (Thrown e, s')
           end.
Definition get {S} : M S S := fun s => (Returned s, s).
Definition modify {S} (f : S -> S) : M S unit := fun s => (Returned tt, f s).

(** [try { body } catch (err) { handler }] *)
Definition try_catch {S A} (body : M S A) (handler : Error -> M S A) : M S A :=
  fun s => match body s with
           | (Returned a, s') => (Returned a, s')
           | (Thrown e, s') => handler e s'
           end.

Definition state_of {S A} (r : Completion A * S) : S := snd r.
Definition returns {S A} (r : Completion A * S) : Prop :=
  exists a, fst r = Returned a.

End Js.

Declare Scope js_scope.
Delimit Scope js_scope with js.
Notation "x <- m ;; k" := (Js.bind m (fun x => k))
  (at level 61, m at next level, right associativity) : js_scope.
Notation "m ;;; k" := (Js.bind m (fun _ => k))
  (at level 61, right associativity) : js_scope.

(** ** LocalGameConnection.js *)

Module Session.
Import Js.

Definition Candidate := string.       (* an ICE candidate descriptor *)
Definition Payload := string.         (* an ArrayBuffer of game data *)

Inductive SdpType := SdpOffer | SdpAnswer | SdpPranswer | SdpRollback.
Record Description := { sdp_type : SdpType; sdp : string }.

(** [RTCDataChannel.readyState] *)
Inductive ReadyState := Connecting | Open | Closing | Closed.

Record Channel := {
  label : string;
  readyState : ReadyState;
  ordered : bool;
  maxRetransmits : option nat
}.

Inductive ConnectionState :=
  CsNew | CsConnecting | CsConnected | CsDisconnected | CsFailed | CsClosed.

(** The negotiation calls made on the RTCPeerConnection, with their outcome
    ([true]: the promise resolved). *)
Inductive PcCall :=
| CreateOffer (ok : bool)
| CreateAnswer (ok : bool)
| SetLocal (d : Description) (ok : bool)
| SetRemote (d : Description) (ok : bool)
| AddIce (c : Candidate) (ok : bool).

Record PeerConn := {
  signalingClosed : bool;                  (* signalingState === 'closed' *)
  connectionState : ConnectionState;
  remoteDescription : option Description;
  localDescription : option Description;
  receivesChannels : bool;                 (* ondatachannel is installed *)
  calls : list PcCall                      (* oldest first *)
}.

Inductive SignalBody :=
| BOffer (d : Description)
| BAnswer (d : Description)
| BCandidate (c : Candidate).

Inductive GameEvent :=
| game_connection_established
| game_connection_lost
| game_datachannel_open
| game_data_received (data : Payload) (channel : string).

(** What the session does to its collaborators, oldest first. *)
Inductive Effect :=
| SocketEmit (body : SignalBody) (to targetUid : option string)
| EventEmit (ev : GameEvent)
| ChannelSend (channel : string) (data : Payload).

Record Conn := {
  peerConnection : option PeerConn;
  reliable : option Channel;               (* dataChannels.reliable *)
  unreliable : option Channel;             (* dataChannels.unreliable *)
  isConnected : bool;
  isInitiator : bool;
  opponentId : option string;
  opponentUid : option string;
  roomId : option string;
  iceServers : list string;
  pendingRemoteCandidates : list Candidate;
  effects : list Effect
}.

Record Config := {
  cfg_isInitiator : bool;
  cfg_opponentId : option string;
  cfg_opponentUid : option string;
  cfg_roomId : option string;
  cfg_iceServers : list string
}.

(** Incoming signaling data; [None] is an [undefined] argument. *)
Record OfferData := { offer : Description }.
Record AnswerData := { answer : Description }.
Record IceData := { candidate : Candidate }.

(** *** Field updates *)

Definition set_peerConnection (p : option PeerConn) (c : Conn) : Conn :=
  {| peerConnection := p; reliable := reliable c; unreliable := unreliable c;
     isConnected := isConnected c; isInitiator := isInitiator c;
     opponentId := opponentId c; opponentUid := opponentUid c;
     roomId := roomId c; iceServers := iceServers c;
     pendingRemoteCandidates := pendingRemoteCandidates c;
     effects := effects c |}.

Definition set_reliable (ch : option Channel) (c : Conn) : Conn :=
  {| peerConnection := peerConnection c; reliable := ch;
     unreliable := unreliable c;
     isConnected := isConnected c; isInitiator := isInitiator c;
     opponentId := opponentId c; opponentUid := opponentUid c;
     roomId := roomId c; iceServers := iceServers c;
     pendingRemoteCandidates := pendingRemoteCandidates c;
     effects := effects c |}.

Definition set_unreliable (ch : option Channel) (c : Conn) : Conn :=
  {| peerConnection := peerConnection c; reliable := reliable c;
     unreliable := ch;
     isConnected := isConnected c; isInitiator := isInitiator c;
     opponentId := opponentId c; opponentUid := opponentUid c;
     roomId := roomId c; iceServers := iceServers c;
     pendingRemoteCandidates := pendingRemoteCandidates c;
     effects := effects c |}.

Definition set_isConnected (b : bool) (c : Conn) : Conn :=
  {| peerConnection := peerConnection c; reliable := reliable c;
     unreliable := unreliable c;
     isConnected := b; isInitiator := isInitiator c;
     opponentId := opponentId c; opponentUid := opponentUid c;
     roomId := roomId c; iceServers := iceServers c;
     pendingRemoteCandidates := pendingRemoteCandidates c;
     effects := effects c |}.

Definition set_pending (q : list Candidate) (c : Conn) : Conn :=
  {| peerConnection := peerConnection c; reliable := reliable c;
     unreliable := unreliable c;
     isConnected := isConnected c; isInitiator := isInitiator c;
     opponentId := opponentId c; opponentUid := opponentUid c;
     roomId := roomId c; iceServers := iceServers c;
     pendingRemoteCandidates := q;
     effects := effects c |}.

Definition emit_effect (e : Effect) (c : Conn) : Conn :=
  {| peerConnection := peerConnection c; reliable := reliable c;
     unreliable := unreliable c;
     isConnected := isConnected c; isInitiator := isInitiator c;
     opponentId := opponentId c; opponentUid := opponentUid c;
     roomId := roomId c; iceServers := iceServers c;
     pendingRemoteCandidates := pendingRemoteCandidates c;
     effects := effects c ++ [e] |}.

Definition set_channel_state (s : ReadyState) (ch : Channel) : Channel :=
  {| label := label ch; readyState := s; ordered := ordered ch;
     maxRetransmits := maxRetransmits ch |}.

Definition log_call (k : PcCall) (pc : PeerConn) : PeerConn :=
  {| signalingClosed := signalingClosed pc;
     connectionState := connectionState pc;
     remoteDescription := remoteDescription pc;
     localDescription := localDescription pc;
     receivesChannels := receivesChannels pc;
     calls := calls pc ++ [k] |}.

Definition set_remote (d : Description) (pc : PeerConn) : PeerConn :=
  {| signalingClosed := signalingClosed pc;
     connectionState := connectionState pc;
     remoteDescription := Some d;
     localDescription := localDescription pc;
     receivesChannels := receivesChannels pc;
     calls := calls pc |}.

Definition set_local (d : Description) (pc : PeerConn) : PeerConn :=
  {| signalingClosed := signalingClosed pc;
     connectionState := connectionState pc;
     remoteDescription := remoteDescription pc;
     localDescription := Some d;
     receivesChannels := receivesChannels pc;
     calls := calls pc |}.

Definition set_connectionState (s : ConnectionState) (pc : PeerConn)
  : PeerConn :=
  {| signalingClosed := signalingClosed pc;
     connectionState := s;
     remoteDescription := remoteDescription pc;
     localDescription := localDescription pc;
     receivesChannels := receivesChannels pc;
     calls := calls pc |}.

Definition set_receivesChannels (b : bool) (pc : PeerConn) : PeerConn :=
  {| signalingClosed := signalingClosed pc;
     connectionState := connectionState pc;
     remoteDescription := remoteDescription pc;
     localDescription := localDescription pc;
     receivesChannels := b;
     calls := calls pc |}.

(** *** The browser

    The native WebRTC implementation is outside the repository.  Whether
    a negotiation promise resolves or rejects is left open: every theorem
    below holds for every [Browser]. *)

Class Browser := {
  createOffer_result : PeerConn -> option Description;
  createAnswer_result : PeerConn -> option Description;
  setLocalDescription_ok : PeerConn -> Description -> bool;
  setRemoteDescription_ok : PeerConn -> Description -> bool;
  addIceCandidate_ok : PeerConn -> Candidate -> bool
}.

(** [new RTCPeerConnection(rtcConfig)] *)
Definition new_RTCPeerConnection : PeerConn :=
  {| signalingClosed := false; connectionState := CsNew;
     remoteDescription := None; localDescription := None;
     receivesChannels := false; calls := [] |}.

(** [RTCDataChannel.close()]: nothing happens on a channel that is
    closing or closed, and it never throws. *)
Definition channel_close (ch : Channel) : Channel :=
  match readyState ch with
  | Closing | Closed => ch
  | Connecting | Open => set_channel_state Closing ch
  end.

(** [RTCPeerConnection.close()]: nothing happens when it is closed
    already; otherwise the signaling and connection states become closed
    and the channels of the connection are closed abruptly.  No
    connectionstatechange event is fired. *)
Definition pc_close (c : Conn) : Conn :=
  match peerConnection c with
  | None => c
  | Some pc =>
      if signalingClosed pc then c
      else
        let pc' :=
          {| signalingClosed := true; connectionState := CsClosed;
             remoteDescription := remoteDescription pc;
             localDescription := localDescription pc;
             receivesChannels := receivesChannels pc;
             calls := calls pc |} in
        set_peerConnection (Some pc')
          (set_reliable (option_map (set_channel_state Closed) (reliable c))
             (set_unreliable
                (option_map (set_channel_state Closed) (unreliable c)) c))
  end.

Definition rejected : Error := DOMException "OperationError".

Section WithBrowser.
Context {browser : Browser}.
Local Open Scope js_scope.

(** A method call on [this.peerConnection]: a TypeError when it is
    null. *)
Definition on_pc {A} (f : PeerConn -> Completion A * PeerConn)
  : M Conn A :=
  fun c => match peerConnection c with
           | None => (Thrown TypeError, c)
           | Some pc =>
               let '(r, pc') := f pc in
               (r, set_peerConnection (Some pc') c)
           end.

Definition pc_createOffer : M Conn Description :=
  on_pc (fun pc => match createOffer_result pc with
                   | Some d => (Returned d, log_call (CreateOffer true) pc)
                   | None => (Thrown rejected,
                              log_call (CreateOffer false) pc)
                   end).

Definition pc_createAnswer : M Conn Description :=
  on_pc (fun pc => match createAnswer_result pc with
                   | Some d => (Returned d, log_call (CreateAnswer true) pc)
                   | None => (Thrown rejected,
                              log_call (CreateAnswer false) pc)
                   end).

Definition pc_setLocalDescription (d : Description) : M Conn unit :=
  on_pc (fun pc => if setLocalDescription_ok pc d
                   then (Returned tt,
                         log_call (SetLocal d true) (set_local d pc))
                   else (Thrown rejected, log_call (SetLocal d false) pc)).

Definition pc_setRemoteDescription (d : Description) : M Conn unit :=
  on_pc (fun pc => if setRemoteDescription_ok pc d
                   then (Returned tt,
                         log_call (SetRemote d true) (set_remote d pc))
                   else (Thrown rejected, log_call (SetRemote d false) pc)).

Definition pc_addIceCandidate (x : Candidate) : M Conn unit :=
  on_pc (fun pc => if addIceCandidate_ok pc x
                   then (Returned tt, log_call (AddIce x true) pc)
                   else (Thrown rejected, log_call (AddIce x false) pc)).

(** [data.field] on a possibly undefined [data]. *)
Definition field {D A} (data : option D) (f : D -> A) : M Conn A :=
  match data with
  | Some d => ret (f d)
  | None => throw TypeError
  end.

(** A string is truthy when it is present and not empty. *)
Definition truthy (s : option string) : bool :=
  match s with
  | Some EmptyString | None => false
  | Some _ => true
  end.

(** [{ ..., to: this.opponentId }] with
    [if (this.opponentUid) payload.targetUid = this.opponentUid] *)
Definition socket_emit (body : SignalBody) : M Conn unit :=
  modify (fun c =>
    emit_effect
      (SocketEmit body (opponentId c)
         (if truthy (opponentUid c) then opponentUid c else None)) c).

Definition event_emit (ev : GameEvent) : M Conn unit :=
  modify (emit_effect (EventEmit ev)).

(** [createDataChannels()] *)
Definition createDataChannels (c : Conn) : Conn :=
  set_unreliable
    (Some {| label := "game_unreliable"; readyState := Connecting;
             ordered := false; maxRetransmits := Some 0%nat |})
    (set_reliable
       (Some {| label := "game_reliable"; readyState := Connecting;
                ordered := true; maxRetransmits := None |}) c).

(** [setupDataChannelReceiver()] *)
Definition setupDataChannelReceiver (c : Conn) : Conn :=
  set_peerConnection
    (option_map (set_receivesChannels true) (peerConnection c)) c.

(** [createAndSendOffer()] *)
Definition createAndSendOffer : M Conn unit :=
  try_catch
    (offer <- pc_createOffer ;;
     pc_setLocalDescription offer ;;;
     socket_emit (BOffer offer))
    (fun _ => ret tt).

(** One turn of the [while] loop of [flushPendingRemoteCandidates]. *)
Definition flush_turn (x : Candidate) (rest : list Candidate)
  : M Conn unit :=
  modify (set_pending rest) ;;;
  try_catch (pc_addIceCandidate x) (fun _ => ret tt).

(** [while (this.pendingRemoteCandidates.length > 0) { shift; apply }];
    the queue is read again at every turn. *)
Fixpoint flush_loop (fuel : nat) : M Conn unit :=
  fun c =>
    match fuel with
    | O => (Returned tt, c)
    | S fuel' =>
        match pendingRemoteCandidates c with
        | [] => (Returned tt, c)
        | x :: rest => (flush_turn x rest ;;; flush_loop fuel') c
        end
    end.

(** [flushPendingRemoteCandidates()] *)
Definition flushPendingRemoteCandidates : M Conn unit :=
  fun c =>
    match peerConnection c with
    | None => (Returned tt, c)
    | Some pc =>
        match remoteDescription pc with
        | None => (Returned tt, c)
        | Some _ => flush_loop (List.length (pendingRemoteCandidates c)) c
        end
    end.

(** [handleOffer(data)] *)
Definition handleOffer (data : option OfferData) : M Conn unit :=
  fun c =>
    match peerConnection c with
    | None => (Returned tt, c)
    | Some _ =>
        try_catch
          (d <- field data offer ;;
           pc_setRemoteDescription d ;;;
           answer <- pc_createAnswer ;;
           pc_setLocalDescription answer ;;;
           socket_emit (BAnswer answer) ;;;
           flushPendingRemoteCandidates)
          (fun _ => ret tt) c
    end.

(** [handleAnswer(data)] *)
Definition handleAnswer (data : option AnswerData) : M Conn unit :=
  try_catch
    (pc <- on_pc (fun pc => (Returned pc, pc)) ;;
     d <- field data answer ;;
     pc_setRemoteDescription d ;;;
     flushPendingRemoteCandidates)
    (fun _ => ret tt).

Definition sdp_type_name (t : SdpType) : string :=
  match t with
  | SdpOffer => "offer"
  | SdpAnswer => "answer"
  | SdpPranswer => "pranswer"
  | SdpRollback => "rollback"
  end.

(** [!pc.remoteDescription || !pc.remoteDescription.type] *)
Definition lacks_remote_description (pc : PeerConn) : bool :=
  match remoteDescription pc with
  | None => true
  | Some d => negb (truthy (Some (sdp_type_name (sdp_type d))))
  end.

(** [handleCandidate(data)] *)
Definition handleCandidate (data : option IceData) : M Conn unit :=
  try_catch
    (fun c =>
       match peerConnection c with
       | None => (Returned tt, c)
       | Some pc =>
           if signalingClosed pc then (Returned tt, c)
           else if lacks_remote_description pc then
             (x <- field data candidate ;;
              modify (fun c' =>
                set_pending (pendingRemoteCandidates c' ++ [x]) c')) c
           else
             (x <- field data candidate ;;
              pc_addIceCandidate x) c
       end)
    (fun _ => ret tt).

(** [send(data, reliable = true)]; [None] is an omitted argument.
    [channel.send] on an open channel hands the data to the browser. *)
Definition send (data : Payload) (reliable_arg : option bool)
  : M Conn bool :=
  fun c =>
    let flag := match reliable_arg with Some b => b | None => true end in
    let channel := if flag then reliable c else unreliable c in
    match channel with
    | Some ch =>
        match readyState ch with
        | Open => (Returned true,
                   emit_effect (ChannelSend (label ch) data) c)
        | _ => (Returned false, c)
        end
    | None => (Returned false, c)
    end.

(** [close()] *)
Definition close : M Conn unit :=
  modify (fun c => set_reliable (option_map channel_close (reliable c)) c)
  ;;; modify (fun c =>
        set_unreliable (option_map channel_close (unreliable c)) c)
  ;;; modify pc_close
  ;;; modify (set_isConnected false).

(** A call of an async function whose promise is dropped: a rejection
    does not reach the caller. *)
Definition detached (m : M Conn unit) : M Conn unit :=
  fun c => (Returned tt, snd (m c)).

(** [createPeerConnection(rtcConfig)] *)
Definition createPeerConnection : M Conn unit :=
  modify (fun c => match peerConnection c with
                   | Some _ => set_peerConnection None (pc_close c)
                   | None => c
                   end) ;;;
  modify (set_peerConnection (Some new_RTCPeerConnection)) ;;;
  c <- get ;;
  if isInitiator c
  then modify createDataChannels ;;; detached createAndSendOffer
  else modify setupDataChannelReceiver.

(** [initialize(config)] *)
Definition initialize (config : Config) : M Conn unit :=
  modify (fun c =>
    {| peerConnection := peerConnection c; reliable := reliable c;
       unreliable := unreliable c; isConnected := isConnected c;
       isInitiator := cfg_isInitiator config;
       opponentId := cfg_opponentId config;
       opponentUid := cfg_opponentUid config;
       roomId := cfg_roomId config;
       iceServers := cfg_iceServers config;
       pendingRemoteCandidates := [];
       effects := effects c |}) ;;;
  createPeerConnection.

(** [new LocalGameConnection(socket, eventEmitter)] *)
Definition new_LocalGameConnection : Conn :=
  {| peerConnection := None; reliable := None; unreliable := None;
     isConnected := false; isInitiator := false;
     opponentId := None; opponentUid := None; roomId := None;
     iceServers := []; pendingRemoteCandidates := []; effects := [] |}.

(** *** Callbacks installed on the browser objects *)

(** [peerConnection.onicecandidate]; [None] ends the gathering. *)
Definition onicecandidate (x : option Candidate) : M Conn unit :=
  match x with
  | Some cand => socket_emit (BCandidate cand)
  | None => ret tt
  end.

(** [peerConnection.onconnectionstatechange], fired by the browser with
    the connection state already updated to [s]. *)
Definition onconnectionstatechange (s : ConnectionState) : M Conn unit :=
  modify (fun c =>
    set_peerConnection
      (option_map (set_connectionState s) (peerConnection c)) c) ;;;
  match s with
  | CsConnected =>
      modify (set_isConnected true) ;;;
      event_emit game_connection_established
  | CsDisconnected | CsFailed =>
      modify (set_isConnected false) ;;;
      event_emit game_connection_lost
  | _ => ret tt
  end.

(** [channel.onopen] of [setupDataChannel] *)
Definition channel_onopen (lbl : string) : M Conn unit :=
  if String.eqb lbl "game_reliable"
  then modify (set_isConnected true) ;;; event_emit game_datachannel_open
  else ret tt.

(** [channel.onmessage] of [setupDataChannel] *)
Definition channel_onmessage (lbl : string) (data : Payload)
  : M Conn unit :=
  event_emit (game_data_received data lbl).

(** [channel.onclose] of [setupDataChannel] *)
Definition channel_onclose (lbl : string) : M Conn unit :=
  if String.eqb lbl "game_reliable"
  then modify (set_isConnected false)
  else ret tt.

(** [peerConnection.ondatachannel] of [setupDataChannelReceiver] *)
Definition ondatachannel (ch : Channel) : M Conn unit :=
  if String.eqb (label ch) "game_reliable"
  then modify (set_reliable (Some ch))
  else if String.eqb (label ch) "game_unreliable"
  then modify (set_unreliable (Some ch))
  else ret tt.

(** The candidates handed to [addIceCandidate], in call order. *)
Fixpoint applied_of (l : list PcCall) : list Candidate :=
  match l with
  | [] => []
  | AddIce x _ :: l' => x :: applied_of l'
  | _ :: l' => applied_of l'
  end.

Definition applied (c : Conn) : list Candidate :=
  match peerConnection c with
  | Some pc => applied_of (calls pc)
  | None => []
  end.

Definition has_remote_description (c : Conn) : bool :=
  match peerConnection c with
  | Some pc => negb (lacks_remote_description pc)
  | None => false
  end.

(** Signaling input of a session. *)
Inductive Signal :=
| SigOffer (data : option OfferData)
| SigAnswer (data : option AnswerData)
| SigCandidate (data : option IceData).

(** The handler of a signal, run until it has settled. *)
Definition deliver (sg : Signal) (c : Conn) : Conn :=
  match sg with
  | SigOffer d => snd (handleOffer d c)
  | SigAnswer d => snd (handleAnswer d c)
  | SigCandidate d => snd (handleCandidate d c)
  end.

(** Signals handled one at a time: the handler of each has settled
    before the next one is called, as in [connectToGame], which awaits
    each handler it calls. *)
Definition deliver_all (sgs : list Signal) (c : Conn) : Conn :=
  fold_left (fun acc sg => deliver sg acc) sgs c.

Definition receive_candidates (xs : list Candidate) (c : Conn) : Conn :=
  deliver_all
    (map (fun x => SigCandidate (Some {| candidate := x |})) xs) c.

Fixpoint candidates_of (sgs : list Signal) : list Candidate :=
  match sgs with
  | [] => []
  | SigCandidate (Some d) :: l => candidate d :: candidates_of l
  | _ :: l => candidates_of l
  end.

(** *** The signaling handlers as the event loop runs them

    [handleOffer], [handleAnswer] and [handleCandidate] are async, and
    the managers call them without [await].  A call runs until the
    handler awaits a promise of the peer connection; the handler
    resumes when the browser has performed the operation, and other
    handlers run in between.  The peer connection performs the
    operations requested of it one at a time, in the order of the
    requests. *)

(** The [await] a handler is suspended at: the operation it requested,
    with what its continuation needs. *)
Inductive Await :=
| OfferSetRemote (d : Description)
    (* handleOffer, at await setRemoteDescription(data.offer) *)
| OfferCreateAnswer
    (* handleOffer, at await createAnswer() *)
| OfferSetLocal (answer : Description)
    (* handleOffer, at await setLocalDescription(answer) *)
| AnswerSetRemote (d : Description)
    (* handleAnswer, at await setRemoteDescription(data.answer) *)
| FlushAddIce (x : Candidate)
    (* flushPendingRemoteCandidates, at await addIceCandidate(candidate) *)
| CandidateAddIce (x : Candidate).
    (* handleCandidate, at await addIceCandidate(data.candidate) *)

(** The session and its suspended handlers, the oldest request
    first. *)
Record Loop := {
  conn : Conn;
  waiting : list Await
}.

Definition idle (c : Conn) : Loop := {| conn := c; waiting := [] |}.

(** A handler requests an operation and is suspended. *)
Definition request (a : Await) (l : Loop) : Loop :=
  {| conn := conn l; waiting := waiting l ++ [a] |}.

Definition with_conn (c : Conn) (l : Loop) : Loop :=
  {| conn := c; waiting := waiting l |}.

(** The [while] loop of [flushPendingRemoteCandidates], from its test
    to the [await] of the turn. *)
Definition flush_next (l : Loop) : Loop :=
  match pendingRemoteCandidates (conn l) with
  | [] => l
  | x :: rest =>
      request (FlushAddIce x) (with_conn (set_pending rest (conn l)) l)
  end.

(** [flushPendingRemoteCandidates()], up to its first [await]. *)
Definition flush_enter (l : Loop) : Loop :=
  match peerConnection (conn l) with
  | None => l
  | Some pc =>
      match remoteDescription pc with
      | None => l
      | Some _ => flush_next l
      end
  end.

(** A signal arrives: its handler is called and runs up to its first
    [await].  A TypeError on the way there is caught by the handler. *)
Definition arrive (sg : Signal) (l : Loop) : Loop :=
  match sg with
  | SigOffer data =>
      match peerConnection (conn l), data with
      | Some _, Some d => request (OfferSetRemote (offer d)) l
      | _, _ => l
      end
  | SigAnswer data =>
      match peerConnection (conn l), data with
      | Some _, Some d => request (AnswerSetRemote (answer d)) l
      | _, _ => l
      end
  | SigCandidate data =>
      match peerConnection (conn l) with
      | None => l
      | Some pc =>
          if signalingClosed pc then l
          else
            match data with
            | None => l
            | Some d =>
                if lacks_remote_description pc then
                  with_conn
                    (set_pending
                       (pendingRemoteCandidates (conn l) ++ [candidate d])
                       (conn l)) l
                else request (CandidateAddIce (candidate d)) l
            end
      end
  end.

(** The browser performs the oldest requested operation, and the
    handler that awaited it runs on to its next [await] or to its
    end. *)
Definition settle (l : Loop) : Loop :=
  match waiting l with
  | [] => l
  | a :: rest =>
      let others (c : Conn) := {| conn := c; waiting := rest |} in
      match a with
      | OfferSetRemote d =>
          match pc_setRemoteDescription d (conn l) with
          | (Returned _, c) => request OfferCreateAnswer (others c)
          | (Thrown _, c) => others c
          end
      | OfferCreateAnswer =>
          match pc_createAnswer (conn l) with
          | (Returned answer, c) => request (OfferSetLocal answer) (others c)
          | (Thrown _, c) => others c
          end
      | OfferSetLocal answer =>
          match pc_setLocalDescription answer (conn l) with
          | (Returned _, c) =>
              flush_enter (others (snd (socket_emit (BAnswer answer) c)))
          | (Thrown _, c) => others c
          end
      | AnswerSetRemote d =>
          match pc_setRemoteDescription d (conn l) with
          | (Returned _, c) => flush_enter (others c)
          | (Thrown _, c) => others c
          end
      | FlushAddIce x =>
          flush_next (others (snd (pc_addIceCandidate x (conn l))))
      | CandidateAddIce x =>
          others (snd (pc_addIceCandidate x (conn l)))
      end
  end.

Inductive LoopEvent :=
| Arrives (sg : Signal)
| Settles.

Definition loop_step (e : LoopEvent) (l : Loop) : Loop :=
  match e with
  | Arrives sg => arrive sg l
  | Settles => settle l
  end.

Definition loop_run (es : list LoopEvent) (l : Loop) : Loop :=
  fold_left (fun acc e => loop_step e acc) es l.

(** The handler of [sg] is called on a session where nothing is
    suspended, and no other signal arrives before it has settled. *)
Definition handled_alone (sg : Signal) (c : Conn) : Loop :=
  loop_run
    (Arrives sg
     :: repeat Settles (3 + List.length (pendingRemoteCandidates c)))
    (idle c).

End WithBrowser.

End Session.

(** ** local-server.js *)

Module Relay.

Definition ClientId := string.

(** [ws.readyState] *)
Inductive WsState := WsConnecting | WsOpen | WsClosing | WsClosed.

Inductive Role := RoleA | RoleB.

(** What the server writes to a socket. *)
Inductive ServerMsg :=
| MsgClientId (clientId : ClientId)
| MsgWaiting
| MsgMatchFound (roomId : string) (role : option Role)
    (opponentId : option ClientId) (isInitiator : option bool)
    (iceServers : list string)
| MsgSignal (from : ClientId) (data : string)
| MsgPeerDisconnected.

(** What a client writes, after [JSON.parse]. *)
Inductive ClientMsg :=
| FindMatch
| Signal (data : string)
| Other (type : string)
| Unparsable.

(** One client object.  [inMap] tells whether the [clients] Map still
    holds it: an object is entered once, when it is created, so the Map
    lists the objects in creation order. *)
Record Client := {
  id : ClientId;
  inMap : bool;
  readyState : WsState;                 (* ws.readyState *)
  role : option Role;
  isInitiator : option bool;
  opponentId : option ClientId
}.

Record Server := {
  clients : list Client;                (* every client object, oldest first *)
  waitingClient : option ClientId;      (* the object held by [waitingClient] *)
  sent : list (ClientId * ServerMsg)    (* ws.send calls, oldest first *)
}.

Definition init : Server :=
  {| clients := []; waitingClient := None; sent := [] |}.

Definition iceServers : list string :=
  ["stun:stun.l.google.com:19302"; "stun:stun1.l.google.com:19302"].

Definition role_eqb (a b : Role) : bool :=
  match a, b with
  | RoleA, RoleA | RoleB, RoleB => true
  | _, _ => false
  end.

Definition is_open (c : Client) : bool :=
  match readyState c with WsOpen => true | _ => false end.

(** The object with identity [i], in the Map or not. *)
Definition object (i : ClientId) (s : Server) : option Client :=
  find (fun c => String.eqb (id c) i) (clients s).

(** [clients.get(i)] *)
Definition clients_get (i : ClientId) (s : Server) : option Client :=
  find (fun c => String.eqb (id c) i && inMap c) (clients s).

(** [Array.from(clients.values()).find(p)] *)
Definition clients_find (p : Client -> bool) (s : Server) : option Client :=
  find (fun c => inMap c && p c) (clients s).

(** Assignment to fields of the object [i]. *)
Fixpoint update (i : ClientId) (f : Client -> Client) (l : list Client)
  : list Client :=
  match l with
  | [] => []
  | c :: l' => if String.eqb (id c) i then f c :: l'
               else c :: update i f l'
  end.

Definition set_clients (l : list Client) (s : Server) : Server :=
  {| clients := l; waitingClient := waitingClient s; sent := sent s |}.

Definition set_waiting (w : option ClientId) (s : Server) : Server :=
  {| clients := clients s; waitingClient := w; sent := sent s |}.

Definition mutate (i : ClientId) (f : Client -> Client) (s : Server)
  : Server :=
  set_clients (update i f (clients s)) s.

(** [ws.send(JSON.stringify(m))] on the socket of [i] *)
Definition ws_send (i : ClientId) (m : ServerMsg) (s : Server) : Server :=
  {| clients := clients s; waitingClient := waitingClient s;
     sent := sent s ++ [(i, m)] |}.

(** [if (c.ws.readyState === WebSocket.OPEN) c.ws.send(...)] *)
Definition send_if_open (i : ClientId) (m : ServerMsg) (s : Server)
  : Server :=
  match object i s with
  | Some c => if is_open c then ws_send i m s else s
  | None => s
  end.

Definition assign (r : Role) (initiator : bool) (opp : ClientId)
    (c : Client) : Client :=
  {| id := id c; inMap := inMap c; readyState := readyState c;
     role := Some r; isInitiator := Some initiator;
     opponentId := Some opp |}.

Definition set_inMap (b : bool) (c : Client) : Client :=
  {| id := id c; inMap := b; readyState := readyState c;
     role := role c; isInitiator := isInitiator c;
     opponentId := opponentId c |}.

Definition set_readyState (r : WsState) (c : Client) : Client :=
  {| id := id c; inMap := inMap c; readyState := r;
     role := role c; isInitiator := isInitiator c;
     opponentId := opponentId c |}.

(** The match-found message built from the fields of the object [i]. *)
Definition match_found_for (i : ClientId) (s : Server) : ServerMsg :=
  match object i s with
  | Some c => MsgMatchFound "local-room" (role c) (opponentId c)
                (isInitiator c) iceServers
  | None => MsgMatchFound "local-room" None None None iceServers
  end.

(** [handleFindMatch(clientId)] *)
Definition handleFindMatch (clientId : ClientId) (s : Server) : Server :=
  match waitingClient s with
  | Some w =>
      if negb (String.eqb w clientId) then
        let s1 := mutate w (assign RoleA true clientId) s in
        let s2 := mutate clientId (assign RoleB false w) s1 in
        let s3 := send_if_open w (match_found_for w s2) s2 in
        let s4 := send_if_open clientId (match_found_for clientId s3) s3 in
        set_waiting None s4
      else
        send_if_open clientId MsgWaiting (set_waiting (Some clientId) s)
  | None =>
      send_if_open clientId MsgWaiting (set_waiting (Some clientId) s)
  end.

(** [handleSignal(clientId, data)] *)
Definition handleSignal (clientId : ClientId) (data : string) (s : Server)
  : Server :=
  match clients_get clientId s with
  | None => s
  | Some client =>
      match opponentId client with
      | None | Some EmptyString => s
      | Some opp =>
          match clients_find (fun c => String.eqb (id c) opp) s with
          | None => s
          | Some opponent =>
              if is_open opponent
              then ws_send (id opponent) (MsgSignal clientId data) s
              else s
          end
      end
  end.

(** [handleMessage(clientId, data)] inside the [try] of the message
    handler; an unparsable message is dropped by the [catch]. *)
Definition on_message (clientId : ClientId) (m : ClientMsg) (s : Server)
  : Server :=
  match m with
  | Unparsable => s
  | _ =>
      match clients_get clientId s with
      | None => s
      | Some _ =>
          match m with
          | FindMatch => handleFindMatch clientId s
          | Signal data => handleSignal clientId data s
          | _ => s
          end
      end
  end.

(** [wss.on('connection', ...)] with the identity drawn for the socket *)
Definition on_connection (clientId : ClientId) (s : Server) : Server :=
  ws_send clientId (MsgClientId clientId)
    (set_clients
       (clients s ++ [{| id := clientId; inMap := true;
                         readyState := WsOpen; role := None;
                         isInitiator := None; opponentId := None |}]) s).

Definition other_role (r : Role) : Role :=
  match r with RoleA => RoleB | RoleB => RoleA end.

Definition has_role (r : Role) (c : Client) : bool :=
  match role c with Some r' => role_eqb r' r | None => false end.

(** [ws.on('close', ...)] *)
Definition on_close (clientId : ClientId) (s : Server) : Server :=
  let s1 := match waitingClient s with
            | Some w => if String.eqb w clientId then set_waiting None s
                        else s
            | None => s
            end in
  let s2 := match clients_get clientId s1 with
            | Some client =>
                match role client with
                | Some r =>
                    match clients_find (has_role (other_role r)) s1 with
                    | Some otherClient =>
                        if is_open otherClient
                        then ws_send (id otherClient) MsgPeerDisconnected s1
                        else s1
                    | None => s1
                    end
                | None => s1
                end
            | None => s1
            end in
  mutate clientId (set_inMap false) s2.

(** [ws.on('error', ...)] *)
Definition on_error (clientId : ClientId) (s : Server) : Server :=
  mutate clientId (set_inMap false) s.

(** *** The server as a transition system *)

Inductive Event :=
| Connected (i : ClientId)               (* a socket is accepted *)
| Received (i : ClientId) (m : ClientMsg)
| Closing (i : ClientId)                 (* the closing handshake began *)
| Closed (i : ClientId)                  (* 'close' is emitted *)
| Failed (i : ClientId).                 (* 'error' is emitted *)

Definition socket_state (i : ClientId) (s : Server) : option WsState :=
  option_map readyState (object i s).

(** When the runtime can deliver an event: identities are fresh,
    messages come from open sockets, 'close' comes once. *)
Definition enabled (e : Event) (s : Server) : Prop :=
  match e with
  | Connected i => object i s = None
  | Received i _ => socket_state i s = Some WsOpen
  | Closing i => socket_state i s = Some WsOpen
  | Closed i => exists r, socket_state i s = Some r /\ r <> WsClosed
  | Failed i => socket_state i s = Some WsOpen
  end.

Definition step (e : Event) (s : Server) : Server :=
  match e with
  | Connected i => on_connection i s
  | Received i m => on_message i m s
  | Closing i => mutate i (set_readyState WsClosing) s
  | Closed i => on_close i (mutate i (set_readyState WsClosed) s)
  | Failed i => on_error i (mutate i (set_readyState WsClosing) s)
  end.

Definition run (es : list Event) (s : Server) : Server :=
  fold_left (fun acc e => step e acc) es s.

Inductive reachable : Server -> Prop :=
| reach_init : reachable init
| reach_step s e : reachable s -> enabled e s -> reachable (step e s).

(** The messages written to the socket of [i], oldest first. *)
Definition received_by (i : ClientId) (s : Server) : list ServerMsg :=
  map snd (filter (fun p => String.eqb (fst p) i) (sent s)).

End Relay.

(** ** LocalNetworkManager.js *)

Module Matchmaker.
Import Js.
Local Open Scope Z_scope.

Definition PeerId := string.

Inductive Role := PlayerA | PlayerB.     (* 'A' is the host, 'B' the guest *)

Definition role_eqb (a b : Role) : bool :=
  match a, b with
  | PlayerA, PlayerA | PlayerB, PlayerB => true
  | _, _ => false
  end.

(** One registration under the key 'local-game-peers'. *)
Record Peer := {
  id : PeerId;
  active : bool;
  timestamp : Z;
  role : Role;
  lookingForMatch : option bool;        (* absent on a guest entry *)
  matchedWith : option PeerId           (* absent on a host entry *)
}.

(** [message.type] with [message.data] where the handler reads it. *)
Inductive Body :=
| JoinRequest
| JoinAccept
| Offer (data : option Session.OfferData)
| Answer (data : option Session.AnswerData)
| IceCandidate (data : option Session.IceData)
| Unknown (type : string).

(** A value written under the key 'local-game-signaling'. *)
Record Message := {
  body : Body;
  fromPeer : PeerId;
  toPeer : option PeerId;
  targetPeer : option PeerId;
  sentAt : Z
}.

(** The shared localStorage: the registry, and every value written to the
    signaling key, oldest first (each write raises one storage event in
    the other tabs). *)
Record Storage := {
  peers : list Peer;
  signaling : list Message
}.

Inductive SceneEvent :=
| match_found (roomId : string) (role : option Role)
    (opponentId opponentUid : option PeerId) (isInitiator : bool)
    (iceServers : list string).

(** The fields of one LocalNetworkManager, with its timers and the
    continuations of [connectToGame] that wait for the dynamic import.
    An interval runs until [clearInterval] is called on its handle. *)
Record Manager := {
  peerId : PeerId;
  my_role : option Role;
  opponentId : option PeerId;
  isInitiator : bool;
  isSignalingConnected : bool;
  matchmakingComplete : bool;
  gameConnection : option Session.Conn;
  pendingOffer : option Session.OfferData;
  pendingCandidates : list (option Session.IceData);
  verifyScheduled : bool;               (* setTimeout(verifyHostStatus, 100) *)
  hostPollingInterval : option nat;     (* the handle of the last setInterval *)
  intervals : list nat;                 (* the intervals that run, by handle *)
  importing : nat;                      (* initializeGameConnection awaits *)
  events : list SceneEvent              (* scene.events.emit, oldest first *)
}.

Definition roomId : string := "local-room".

Definition iceServers : list string :=
  ["stun:stun.l.google.com:19302"; "stun:stun1.l.google.com:19302"].

(** [new LocalNetworkManager(scene)] with the identity it drew *)
Definition new_manager (i : PeerId) : Manager :=
  {| peerId := i; my_role := None; opponentId := None;
     isInitiator := false; isSignalingConnected := false;
     matchmakingComplete := false; gameConnection := None;
     pendingOffer := None; pendingCandidates := [];
     verifyScheduled := false; hostPollingInterval := None;
     intervals := []; importing := 0%nat;
     events := [] |}.

(** *** Field updates *)

Definition set_role (r : Role) (m : Manager) : Manager :=
  {| peerId := peerId m; my_role := Some r; opponentId := opponentId m;
     isInitiator := role_eqb r PlayerA;
     isSignalingConnected := isSignalingConnected m;
     matchmakingComplete := matchmakingComplete m;
     gameConnection := gameConnection m; pendingOffer := pendingOffer m;
     pendingCandidates := pendingCandidates m;
     verifyScheduled := verifyScheduled m;
     hostPollingInterval := hostPollingInterval m;
     intervals := intervals m;
     importing := importing m; events := events m |}.

Definition set_opponentId (o : option PeerId) (m : Manager) : Manager :=
  {| peerId := peerId m; my_role := my_role m; opponentId := o;
     isInitiator := isInitiator m;
     isSignalingConnected := isSignalingConnected m;
     matchmakingComplete := matchmakingComplete m;
     gameConnection := gameConnection m; pendingOffer := pendingOffer m;
     pendingCandidates := pendingCandidates m;
     verifyScheduled := verifyScheduled m;
     hostPollingInterval := hostPollingInterval m;
     intervals := intervals m;
     importing := importing m; events := events m |}.

Definition set_isSignalingConnected (b : bool) (m : Manager) : Manager :=
  {| peerId := peerId m; my_role := my_role m; opponentId := opponentId m;
     isInitiator := isInitiator m;
     isSignalingConnected := b;
     matchmakingComplete := matchmakingComplete m;
     gameConnection := gameConnection m; pendingOffer := pendingOffer m;
     pendingCandidates := pendingCandidates m;
     verifyScheduled := verifyScheduled m;
     hostPollingInterval := hostPollingInterval m;
     intervals := intervals m;
     importing := importing m; events := events m |}.

Definition set_matchmakingComplete (b : bool) (m : Manager) : Manager :=
  {| peerId := peerId m; my_role := my_role m; opponentId := opponentId m;
     isInitiator := isInitiator m;
     isSignalingConnected := isSignalingConnected m;
     matchmakingComplete := b;
     gameConnection := gameConnection m; pendingOffer := pendingOffer m;
     pendingCandidates := pendingCandidates m;
     verifyScheduled := verifyScheduled m;
     hostPollingInterval := hostPollingInterval m;
     intervals := intervals m;
     importing := importing m; events := events m |}.

Definition set_gameConnection (c : option Session.Conn) (m : Manager)
  : Manager :=
  {| peerId := peerId m; my_role := my_role m; opponentId := opponentId m;
     isInitiator := isInitiator m;
     isSignalingConnected := isSignalingConnected m;
     matchmakingComplete := matchmakingComplete m;
     gameConnection := c; pendingOffer := pendingOffer m;
     pendingCandidates := pendingCandidates m;
     verifyScheduled := verifyScheduled m;
     hostPollingInterval := hostPollingInterval m;
     intervals := intervals m;
     importing := importing m; events := events m |}.

Definition set_pendingOffer (o : option Session.OfferData)
    (m : Manager) : Manager :=
  {| peerId := peerId m; my_role := my_role m; opponentId := opponentId m;
     isInitiator := isInitiator m;
     isSignalingConnected := isSignalingConnected m;
     matchmakingComplete := matchmakingComplete m;
     gameConnection := gameConnection m; pendingOffer := o;
     pendingCandidates := pendingCandidates m;
     verifyScheduled := verifyScheduled m;
     hostPollingInterval := hostPollingInterval m;
     intervals := intervals m;
     importing := importing m; events := events m |}.

Definition set_pendingCandidates (l : list (option Session.IceData))
    (m : Manager) : Manager :=
  {| peerId := peerId m; my_role := my_role m; opponentId := opponentId m;
     isInitiator := isInitiator m;
     isSignalingConnected := isSignalingConnected m;
     matchmakingComplete := matchmakingComplete m;
     gameConnection := gameConnection m; pendingOffer := pendingOffer m;
     pendingCandidates := l;
     verifyScheduled := verifyScheduled m;
     hostPollingInterval := hostPollingInterval m;
     intervals := intervals m;
     importing := importing m; events := events m |}.

Definition set_verifyScheduled (b : bool) (m : Manager) : Manager :=
  {| peerId := peerId m; my_role := my_role m; opponentId := opponentId m;
     isInitiator := isInitiator m;
     isSignalingConnected := isSignalingConnected m;
     matchmakingComplete := matchmakingComplete m;
     gameConnection := gameConnection m; pendingOffer := pendingOffer m;
     pendingCandidates := pendingCandidates m;
     verifyScheduled := b;
     hostPollingInterval := hostPollingInterval m;
     intervals := intervals m;
     importing := importing m; events := events m |}.

Definition set_hostPollingInterval (h : option nat) (m : Manager)
  : Manager :=
  {| peerId := peerId m; my_role := my_role m; opponentId := opponentId m;
     isInitiator := isInitiator m;
     isSignalingConnected := isSignalingConnected m;
     matchmakingComplete := matchmakingComplete m;
     gameConnection := gameConnection m; pendingOffer := pendingOffer m;
     pendingCandidates := pendingCandidates m;
     verifyScheduled := verifyScheduled m;
     hostPollingInterval := h;
     intervals := intervals m;
     importing := importing m; events := events m |}.

Definition set_intervals (l : list nat) (m : Manager) : Manager :=
  {| peerId := peerId m; my_role := my_role m; opponentId := opponentId m;
     isInitiator := isInitiator m;
     isSignalingConnected := isSignalingConnected m;
     matchmakingComplete := matchmakingComplete m;
     gameConnection := gameConnection m; pendingOffer := pendingOffer m;
     pendingCandidates := pendingCandidates m;
     verifyScheduled := verifyScheduled m;
     hostPollingInterval := hostPollingInterval m;
     intervals := l;
     importing := importing m; events := events m |}.

Definition set_importing (n : nat) (m : Manager) : Manager :=
  {| peerId := peerId m; my_role := my_role m; opponentId := opponentId m;
     isInitiator := isInitiator m;
     isSignalingConnected := isSignalingConnected m;
     matchmakingComplete := matchmakingComplete m;
     gameConnection := gameConnection m; pendingOffer := pendingOffer m;
     pendingCandidates := pendingCandidates m;
     verifyScheduled := verifyScheduled m;
     hostPollingInterval := hostPollingInterval m;
     intervals := intervals m;
     importing := n; events := events m |}.

Definition emit_event (e : SceneEvent) (m : Manager) : Manager :=
  {| peerId := peerId m; my_role := my_role m; opponentId := opponentId m;
     isInitiator := isInitiator m;
     isSignalingConnected := isSignalingConnected m;
     matchmakingComplete := matchmakingComplete m;
     gameConnection := gameConnection m; pendingOffer := pendingOffer m;
     pendingCandidates := pendingCandidates m;
     verifyScheduled := verifyScheduled m;
     hostPollingInterval := hostPollingInterval m;
     intervals := intervals m;
     importing := importing m; events := events m ++ [e] |}.

Definition set_peers (l : list Peer) (st : Storage) : Storage :=
  {| peers := l; signaling := signaling st |}.

(** *** Matchmaking over the shared registry *)

(** One tab: its manager and the localStorage it shares. *)
Definition Tab : Type := Manager * Storage.

Definition truthy (b : option bool) : bool :=
  match b with Some true => true | _ => false end.

(** [peers.filter(p => p.active && (now - p.timestamp) < 10000)] *)
Definition activePeers (now : Z) (l : list Peer) : list Peer :=
  filter (fun p => active p && (now - timestamp p <? 10000)) l.

Definition is_looking_host (p : Peer) : bool :=
  role_eqb (role p) PlayerA && truthy (lookingForMatch p).

Definition is_host (p : Peer) : bool := role_eqb (role p) PlayerA.

(** [allHosts.sort((a, b) => a.timestamp - b.timestamp)]: ascending and
    stable. *)
Fixpoint insert_by_timestamp (x : Peer) (l : list Peer) : list Peer :=
  match l with
  | [] => [x]
  | y :: l' => if timestamp x <=? timestamp y then x :: y :: l'
               else y :: insert_by_timestamp x l'
  end.

Definition sort_by_timestamp (l : list Peer) : list Peer :=
  fold_right insert_by_timestamp [] l.

Definition host_entry (i : PeerId) (now : Z) : Peer :=
  {| id := i; active := true; timestamp := now; role := PlayerA;
     lookingForMatch := Some true; matchedWith := None |}.

Definition guest_entry (i : PeerId) (now : Z) (host : PeerId) : Peer :=
  {| id := i; active := true; timestamp := now; role := PlayerB;
     lookingForMatch := None; matchedWith := Some host |}.

(** [emitSignalingMessage(message)] *)
Definition emitSignalingMessage (now : Z) (b : Body)
    (to : option PeerId) (t : Tab) : Tab :=
  let (m, st) := t in
  (m, {| peers := peers st;
         signaling := signaling st
                      ++ [{| body := b; fromPeer := peerId m; toPeer := to;
                             targetPeer := opponentId m;
                             sentAt := now |}] |}).

(** [emitMatchFound()] *)
Definition emitMatchFound (t : Tab) : Tab :=
  let (m, st) := t in
  (emit_event (match_found roomId (my_role m) (opponentId m)
                 (opponentId m) (isInitiator m) iceServers) m, st).

(** [updatePeerStatus(lookingForMatch)] *)
Fixpoint update_first (i : PeerId) (f : Peer -> Peer) (l : list Peer)
  : list Peer :=
  match l with
  | [] => []
  | p :: l' => if String.eqb (id p) i then f p :: l'
               else p :: update_first i f l'
  end.

Definition updatePeerStatus (now : Z) (looking : bool) (t : Tab) : Tab :=
  let (m, st) := t in
  (m, set_peers
        (update_first (peerId m)
           (fun p => {| id := id p; active := active p; timestamp := now;
                        role := role p; lookingForMatch := Some looking;
                        matchedWith := matchedWith p |})
           (peers st)) st).

Definition without (i : PeerId) (l : list Peer) : list Peer :=
  filter (fun p => negb (String.eqb (id p) i)) l.

(** [becomeHost()] *)
Definition becomeHost (now : Z) (t : Tab) : Tab :=
  let (m, st) := t in
  (set_isSignalingConnected true
     (set_role PlayerA (set_verifyScheduled true m)),
   set_peers (peers st ++ [host_entry (peerId m) now]) st).

(** [switchToGuest(host)] *)
Definition switchToGuest (now : Z) (host : Peer) (t : Tab) : Tab :=
  let (m, st) := t in
  let st' := set_peers (without (peerId m) (peers st)
                        ++ [guest_entry (peerId m) now (id host)]) st in
  let m' := set_opponentId (Some (id host)) (set_role PlayerB m) in
  emitSignalingMessage now JoinRequest (Some (id host)) (m', st').

(** [joinAsGuest(host)] *)
Definition joinAsGuest (now : Z) (host : Peer) (t : Tab) : Tab :=
  let (m, st) := t in
  let st' := set_peers (peers st
                        ++ [guest_entry (peerId m) now (id host)]) st in
  let m' := set_isSignalingConnected true
              (set_opponentId (Some (id host)) (set_role PlayerB m)) in
  emitSignalingMessage now JoinRequest (Some (id host)) (m', st').

(** [tryRegisterAsHost(activePeers)]; the list is the one its caller
    read. *)
Definition tryRegisterAsHost (now : Z) (seen : list Peer) (t : Tab)
  : Tab :=
  match find is_looking_host seen with
  | Some existingHost => joinAsGuest now existingHost t
  | None => becomeHost now t
  end.

(** [electLeader()] *)
Definition electLeader (now : Z) (t : Tab) : Tab :=
  let (m, st) := t in
  let seen := activePeers now (peers st) in
  match find (fun p => String.eqb (id p) (peerId m)) seen with
  | Some existingPeer =>
      (set_isSignalingConnected true (set_role (role existingPeer) m), st)
  | None => tryRegisterAsHost now seen t
  end.

(** The handle the next [setInterval] returns.  A handle is a positive
    number that no other timer of the tab has; which number is of no
    consequence, and the intervals of the manager are numbered here in
    the order they were started.  Every handle the manager was given
    is stored in [hostPollingInterval], so the next one follows the
    stored one. *)
Definition next_handle (m : Manager) : nat :=
  match hostPollingInterval m with
  | Some h => S h
  | None => 1%nat
  end.

(** [startHostPolling()]: the new handle overwrites the stored one; an
    interval that runs under the old handle is not cleared. *)
Definition startHostPolling (t : Tab) : Tab :=
  let (m, st) := t in
  let h := next_handle m in
  (set_intervals (intervals m ++ [h])
     (set_hostPollingInterval (Some h) m), st).

(** [clearInterval(this.hostPollingInterval)]: the interval of the
    stored handle stops, if it still runs; the field keeps the handle.
    Nothing happens while the field is undefined. *)
Definition clearHostPolling (m : Manager) : Manager :=
  match hostPollingInterval m with
  | Some h =>
      set_intervals (filter (fun k => negb (Nat.eqb k h)) (intervals m)) m
  | None => m
  end.

(** [verifyHostStatus()], run by the timer of [becomeHost]. *)
Definition verifyHostStatus (now : Z) (t : Tab) : Tab :=
  let (m, st) := t in
  let allHosts := filter is_looking_host (activePeers now (peers st)) in
  let confirmed := startHostPolling t in
  if (1 <? List.length allHosts)%nat then
    match sort_by_timestamp allHosts with
    | earliestHost :: _ =>
        if negb (String.eqb (id earliestHost) (peerId m))
        then switchToGuest now earliestHost t
        else confirmed
    | [] => confirmed
    end
  else confirmed.

(** [checkHostStatus()], run by the interval of [startHostPolling]. *)
Definition checkHostStatus (now : Z) (t : Tab) : Tab :=
  let (m, st) := t in
  if matchmakingComplete m then (clearHostPolling m, st)
  else
    let allHosts := filter is_host (activePeers now (peers st)) in
    if (1 <? List.length allHosts)%nat then
      match sort_by_timestamp allHosts with
      | earliestHost :: _ =>
          if negb (String.eqb (id earliestHost) (peerId m)) then
            let updatedPeers := without (peerId m) (peers st) in
            let m1 := set_opponentId (Some (id earliestHost))
                        (set_role PlayerB (clearHostPolling m)) in
            let (m2, st2) :=
              emitSignalingMessage now JoinRequest
                (Some (id earliestHost))
                (m1, set_peers updatedPeers st) in
            (m2, set_peers
                   (updatedPeers
                    ++ [guest_entry (peerId m) now (id earliestHost)])
                   st2)
          else t
      | [] => t
      end
    else t.

(** The timers as steps: the timeout fires once; an interval fires
    while it runs, and each firing calls [checkHostStatus]. *)
Definition fire_verify (now : Z) (t : Tab) : Tab :=
  let (m, st) := t in
  if verifyScheduled m
  then verifyHostStatus now (set_verifyScheduled false m, st)
  else t.

Definition fire_poll (now : Z) (t : Tab) : Tab :=
  let (m, st) := t in
  match intervals m with
  | [] => t
  | _ :: _ => checkHostStatus now t
  end.

(** *** Signaling and the game connection *)

(** [!this.opponentId] is false for a non-empty identity only. *)
Definition has_opponent (m : Manager) : bool :=
  Session.truthy (opponentId m).

Section WithBrowser.
Context {browser : Session.Browser}.

Definition body_of (b : Session.SignalBody) : Body :=
  match b with
  | Session.BOffer d => Offer (Some {| Session.offer := d |})
  | Session.BAnswer d => Answer (Some {| Session.answer := d |})
  | Session.BCandidate x =>
      IceCandidate (Some {| Session.candidate := x |})
  end.

(** [emit(event, payload)], the socket of the game connection: what
    the connection emitted since [seen] goes out as signaling. *)
Definition forward_emits (now : Z) (seen : nat) (t : Tab) : Tab :=
  match gameConnection (fst t) with
  | None => t
  | Some c =>
      fold_left
        (fun acc e =>
           match e with
           | Session.SocketEmit b _ _ =>
               emitSignalingMessage now (body_of b) None acc
           | _ => acc
           end)
        (skipn seen (Session.effects c)) t
  end.

(** A method of [this.gameConnection] called from the manager. *)
Definition on_gameConnection (now : Z) (op : M Session.Conn unit)
    (t : Tab) : Tab :=
  let (m, st) := t in
  match gameConnection m with
  | None => t
  | Some c =>
      forward_emits now (List.length (Session.effects c))
        (set_gameConnection (Some (snd (op c))) m, st)
  end.

(** [connectToGame()] up to the [await import(...)] inside
    [initializeGameConnection()]. *)
Definition connectToGame_enter (now : Z) (t : Tab) : Tab :=
  let (m, st) := t in
  if negb (has_opponent m) then t
  else
    match gameConnection m with
    | Some c =>
        if Session.isConnected c then t
        else
          let (m1, st1) := on_gameConnection now Session.close t in
          (set_importing (S (importing m1))
             (set_gameConnection None m1), st1)
    | None => (set_importing (S (importing m)) m, st)
    end.

Definition game_config (m : Manager) : Session.Config :=
  {| Session.cfg_isInitiator := isInitiator m;
     Session.cfg_opponentId := opponentId m;
     Session.cfg_opponentUid := opponentId m;
     Session.cfg_roomId := Some roomId;
     Session.cfg_iceServers := iceServers |}.

(** [for (const candidateData of this.pendingCandidates) await
    this.gameConnection.handleCandidate(candidateData)] *)
Definition replay_candidates (now : Z)
    (l : list (option Session.IceData)) (t : Tab) : Tab :=
  fold_left
    (fun acc d => on_gameConnection now (Session.handleCandidate d) acc)
    l t.

(** [connectToGame()] from the point where the import has resolved:
    the connection is created and initialized, then the buffered offer
    and candidates are processed. *)
Definition connectToGame_resume (now : Z) (t : Tab) : Tab :=
  let (m, st) := t in
  match importing m with
  | O => t
  | S n =>
      let m0 := set_importing n m in
      let t1 :=
        on_gameConnection now (Session.initialize (game_config m0))
          (set_gameConnection (Some Session.new_LocalGameConnection) m0,
           st) in
      let t2 :=
        match pendingOffer (fst t1) with
        | Some data =>
            if negb (isInitiator (fst t1)) then
              let (m2, st2) :=
                on_gameConnection now
                  (Session.handleOffer (Some data)) t1 in
              (set_pendingOffer None m2, st2)
            else t1
        | None => t1
        end in
      match pendingCandidates (fst t2) with
      | [] => t2
      | l =>
          let (m3, st3) := replay_candidates now l t2 in
          (set_pendingCandidates [] m3, st3)
      end
  end.

(** [handleSignalingMessage(message)] *)
Definition handleSignalingMessage (now : Z) (msg : Message) (t : Tab)
  : Tab :=
  let (m, st) := t in
  match body msg with
  | JoinRequest =>
      match my_role m with
      | Some PlayerA =>
          if negb (has_opponent m) && negb (matchmakingComplete m) then
            let m1 := set_matchmakingComplete true
                        (set_opponentId (Some (fromPeer msg)) m) in
            let t1 := updatePeerStatus now false (m1, st) in
            let t2 := emitSignalingMessage now JoinAccept
                        (Some (fromPeer msg)) t1 in
            connectToGame_enter now (emitMatchFound t2)
          else t
      | _ => t
      end
  | JoinAccept =>
      match my_role m with
      | Some PlayerB =>
          if match opponentId m with
             | Some o => String.eqb (fromPeer msg) o
             | None => false
             end && negb (matchmakingComplete m) then
            connectToGame_enter now
              (emitMatchFound (set_matchmakingComplete true m, st))
          else t
      | _ => t
      end
  | Offer data =>
      match gameConnection m with
      | Some _ => on_gameConnection now (Session.handleOffer data) t
      | None => (set_pendingOffer data m, st)
      end
  | Answer data =>
      match gameConnection m with
      | Some _ => on_gameConnection now (Session.handleAnswer data) t
      | None => t
      end
  | IceCandidate data =>
      match gameConnection m with
      | Some _ => on_gameConnection now (Session.handleCandidate data) t
      | None =>
          (set_pendingCandidates (pendingCandidates m ++ [data]) m, st)
      end
  | Unknown _ => t
  end.

(** The 'storage' listener of [setupLocalStorageSignaling()] *)
Definition on_storage (now : Z) (msg : Message) (t : Tab) : Tab :=
  match targetPeer msg with
  | Some i => if String.eqb i (peerId (fst t))
              then handleSignalingMessage now msg t else t
  | None => t
  end.

(** [findMatch()] *)
Definition findMatch (now : Z) (t : Tab) : Tab :=
  let (m, st) := t in
  if negb (isSignalingConnected m)
     || (negb (matchmakingComplete m) && negb (has_opponent m))
  then electLeader now t
  else t.

(** [disconnect()] *)
Definition disconnect (now : Z) (t : Tab) : Tab :=
  let (m, st) := t in
  let (m1, st1) :=
    on_gameConnection now Session.close
      (clearHostPolling m,
       set_peers (without (peerId m) (peers st)) st) in
  (set_opponentId None (set_matchmakingComplete false m1), st1).

End WithBrowser.

(** *** Several tabs on one localStorage *)

(** Every tab by its peer identity, and the storage they share. *)
Record World := {
  storage : Storage;
  tab : PeerId -> Manager
}.

Definition empty_world : World :=
  {| storage := {| peers := []; signaling := [] |};
     tab := new_manager |}.

(** One handler of tab [i] runs on the shared storage. *)
Definition in_tab (i : PeerId) (f : Tab -> Tab) (w : World) : World :=
  let (m, st) := f (tab w i, storage w) in
  {| storage := st;
     tab := fun j => if String.eqb j i then m else tab w j |}.

Inductive Action :=
| Find (i : PeerId) (now : Z)           (* findMatch() *)
| Register (i : PeerId) (now : Z)       (* becomeHost(), no host seen *)
| Verify (i : PeerId) (now : Z)         (* the timeout of becomeHost *)
| Poll (i : PeerId) (now : Z)           (* an interval of startHostPolling *)
| Deliver (i : PeerId) (k : nat) (now : Z).
                                        (* the storage event of the k-th
                                           signaling write, in tab i *)

Section WithBrowser.
Context {browser : Session.Browser}.

(** The storage event of the [k]-th value written to the signaling key
    reaches the listener of tab [i].  The event is raised in the tabs
    other than the one that wrote the value. *)
Definition deliver_write (i : PeerId) (k : nat) (now : Z) (w : World)
  : World :=
  match nth_error (signaling (storage w)) k with
  | Some msg =>
      if String.eqb (fromPeer msg) i then w
      else in_tab i (on_storage now msg) w
  | None => w
  end.

Definition act (a : Action) (w : World) : World :=
  match a with
  | Find i now => in_tab i (findMatch now) w
  | Register i now => in_tab i (becomeHost now) w
  | Verify i now => in_tab i (fire_verify now) w
  | Poll i now => in_tab i (fire_poll now) w
  | Deliver i k now => deliver_write i k now w
  end.

Definition run (l : list Action) (w : World) : World :=
  fold_left (fun acc a => act a acc) l w.

End WithBrowser.





End Matchmaker.

(** ** WebSocketNetworkManager.js *)

Module WsMatchmaker.
Import Js.

Definition PeerId := string.

(** [message.data] of a relayed signal, by its [type]. *)
Inductive SignalData :=
| SigOffer (data : Session.OfferData)
| SigAnswer (data : Session.AnswerData)
| SigIce (data : Session.IceData)
| SigOther (type : string).

(** A parsed message from the server. *)
Inductive FromServer :=
| ClientIdMsg (clientId : PeerId)
| WaitingMsg
| MatchFoundMsg (role : string) (opponentId : option PeerId)
    (isInitiator : bool) (iceServers : option (list string))
| SignalMsg (data : option SignalData)
| PeerDisconnectedMsg
| OtherMsg (type : string).

(** What the manager writes to its socket. *)
Inductive ToServer :=
| FindMatchReq
| SignalReq (body : Session.SignalBody) (to targetUid : option string).

Inductive SceneEvent :=
| match_found (roomId : string) (role : option string)
    (opponentId opponentUid : option PeerId) (isInitiator : bool)
    (iceServers : list string)
| queued
| connection_failed.

Record Manager := {
  peerId : option PeerId;
  role : option string;
  opponentId : option PeerId;
  isInitiator : bool;
  isSignalingConnected : bool;
  matchmakingComplete : bool;
  gameConnection : option Session.Conn;
  pendingOffer : option Session.OfferData;
  pendingCandidates : list Session.IceData;
  wsOpen : bool;                        (* ws.readyState === OPEN *)
  importing : nat;                      (* initializeGameConnection awaits *)
  outbox : list ToServer;               (* ws.send, oldest first *)
  events : list SceneEvent              (* scene.events.emit, oldest first *)
}.

Definition roomId : string := "local-room".

Definition iceServers : list string :=
  ["stun:stun.l.google.com:19302"; "stun:stun1.l.google.com:19302"].

Definition new_manager : Manager :=
  {| peerId := None; role := None; opponentId := None;
     isInitiator := false; isSignalingConnected := false;
     matchmakingComplete := false; gameConnection := None;
     pendingOffer := None; pendingCandidates := [];
     wsOpen := false; importing := 0%nat; outbox := []; events := [] |}.

Definition set_peerId (i : option PeerId) (m : Manager) : Manager :=
  {| peerId := i; role := role m; opponentId := opponentId m;
     isInitiator := isInitiator m;
     isSignalingConnected := isSignalingConnected m;
     matchmakingComplete := matchmakingComplete m;
     gameConnection := gameConnection m; pendingOffer := pendingOffer m;
     pendingCandidates := pendingCandidates m; wsOpen := wsOpen m;
     importing := importing m; outbox := outbox m; events := events m |}.

Definition set_match (r : string) (o : option PeerId) (i : bool)
    (m : Manager) : Manager :=
  {| peerId := peerId m; role := Some r; opponentId := o;
     isInitiator := i;
     isSignalingConnected := isSignalingConnected m;
     matchmakingComplete := true;
     gameConnection := gameConnection m; pendingOffer := pendingOffer m;
     pendingCandidates := pendingCandidates m; wsOpen := wsOpen m;
     importing := importing m; outbox := outbox m; events := events m |}.

Definition unmatch (m : Manager) : Manager :=
  {| peerId := peerId m; role := role m; opponentId := None;
     isInitiator := isInitiator m;
     isSignalingConnected := isSignalingConnected m;
     matchmakingComplete := false;
     gameConnection := gameConnection m; pendingOffer := pendingOffer m;
     pendingCandidates := pendingCandidates m; wsOpen := wsOpen m;
     importing := importing m; outbox := outbox m; events := events m |}.

Definition set_socket (open signalingConnected : bool) (m : Manager)
  : Manager :=
  {| peerId := peerId m; role := role m; opponentId := opponentId m;
     isInitiator := isInitiator m;
     isSignalingConnected := signalingConnected;
     matchmakingComplete := matchmakingComplete m;
     gameConnection := gameConnection m; pendingOffer := pendingOffer m;
     pendingCandidates := pendingCandidates m; wsOpen := open;
     importing := importing m; outbox := outbox m; events := events m |}.

Definition set_gameConnection (c : option Session.Conn) (m : Manager)
  : Manager :=
  {| peerId := peerId m; role := role m; opponentId := opponentId m;
     isInitiator := isInitiator m;
     isSignalingConnected := isSignalingConnected m;
     matchmakingComplete := matchmakingComplete m;
     gameConnection := c; pendingOffer := pendingOffer m;
     pendingCandidates := pendingCandidates m; wsOpen := wsOpen m;
     importing := importing m; outbox := outbox m; events := events m |}.

Definition set_pendingOffer (o : option Session.OfferData) (m : Manager)
  : Manager :=
  {| peerId := peerId m; role := role m; opponentId := opponentId m;
     isInitiator := isInitiator m;
     isSignalingConnected := isSignalingConnected m;
     matchmakingComplete := matchmakingComplete m;
     gameConnection := gameConnection m; pendingOffer := o;
     pendingCandidates := pendingCandidates m; wsOpen := wsOpen m;
     importing := importing m; outbox := outbox m; events := events m |}.

Definition set_pendingCandidates (l : list Session.IceData) (m : Manager)
  : Manager :=
  {| peerId := peerId m; role := role m; opponentId := opponentId m;
     isInitiator := isInitiator m;
     isSignalingConnected := isSignalingConnected m;
     matchmakingComplete := matchmakingComplete m;
     gameConnection := gameConnection m; pendingOffer := pendingOffer m;
     pendingCandidates := l; wsOpen := wsOpen m;
     importing := importing m; outbox := outbox m; events := events m |}.

Definition set_importing (n : nat) (m : Manager) : Manager :=
  {| peerId := peerId m; role := role m; opponentId := opponentId m;
     isInitiator := isInitiator m;
     isSignalingConnected := isSignalingConnected m;
     matchmakingComplete := matchmakingComplete m;
     gameConnection := gameConnection m; pendingOffer := pendingOffer m;
     pendingCandidates := pendingCandidates m; wsOpen := wsOpen m;
     importing := n; outbox := outbox m; events := events m |}.

Definition emit_event (e : SceneEvent) (m : Manager) : Manager :=
  {| peerId := peerId m; role := role m; opponentId := opponentId m;
     isInitiator := isInitiator m;
     isSignalingConnected := isSignalingConnected m;
     matchmakingComplete := matchmakingComplete m;
     gameConnection := gameConnection m; pendingOffer := pendingOffer m;
     pendingCandidates := pendingCandidates m; wsOpen := wsOpen m;
     importing := importing m; outbox := outbox m;
     events := events m ++ [e] |}.

(** [sendToServer(message)] *)
Definition sendToServer (x : ToServer) (m : Manager) : Manager :=
  if wsOpen m then
    {| peerId := peerId m; role := role m; opponentId := opponentId m;
       isInitiator := isInitiator m;
       isSignalingConnected := isSignalingConnected m;
       matchmakingComplete := matchmakingComplete m;
       gameConnection := gameConnection m; pendingOffer := pendingOffer m;
       pendingCandidates := pendingCandidates m; wsOpen := wsOpen m;
       importing := importing m; outbox := outbox m ++ [x];
       events := events m |}
  else m.

Section WithBrowser.
Context {browser : Session.Browser}.

(** [emit(event, payload)]: what the connection emitted since [seen]
    is sent to the server as signals. *)
Definition forward_emits (seen : nat) (m : Manager) : Manager :=
  match gameConnection m with
  | None => m
  | Some c =>
      fold_left
        (fun acc e =>
           match e with
           | Session.SocketEmit b to uid =>
               sendToServer (SignalReq b to uid) acc
           | _ => acc
           end)
        (skipn seen (Session.effects c)) m
  end.

(** A method of [this.gameConnection] called from the manager. *)
Definition on_gameConnection (op : M Session.Conn unit) (m : Manager)
  : Manager :=
  match gameConnection m with
  | None => m
  | Some c =>
      forward_emits (List.length (Session.effects c))
        (set_gameConnection (Some (snd (op c))) m)
  end.

(** [connectToGame()] up to the [await import(...)] *)
Definition connectToGame_enter (m : Manager) : Manager :=
  if negb (Session.truthy (opponentId m)) then m
  else
    match gameConnection m with
    | Some c =>
        if Session.isConnected c then m
        else
          let m1 := on_gameConnection Session.close m in
          set_importing (S (importing m1)) (set_gameConnection None m1)
    | None => set_importing (S (importing m)) m
    end.

Definition game_config (m : Manager) : Session.Config :=
  {| Session.cfg_isInitiator := isInitiator m;
     Session.cfg_opponentId := opponentId m;
     Session.cfg_opponentUid := opponentId m;
     Session.cfg_roomId := Some roomId;
     Session.cfg_iceServers := iceServers |}.

Definition replay_candidates (l : list Session.IceData) (m : Manager)
  : Manager :=
  fold_left
    (fun acc d =>
       on_gameConnection (Session.handleCandidate (Some d)) acc)
    l m.

(** [connectToGame()] once the import has resolved *)
Definition connectToGame_resume (m : Manager) : Manager :=
  match importing m with
  | O => m
  | S n =>
      let m0 := set_importing n m in
      let m1 :=
        on_gameConnection (Session.initialize (game_config m0))
          (set_gameConnection (Some Session.new_LocalGameConnection) m0)
      in
      let m2 :=
        match pendingOffer m1 with
        | Some data =>
            if negb (isInitiator m1) then
              set_pendingOffer None
                (on_gameConnection (Session.handleOffer (Some data)) m1)
            else m1
        | None => m1
        end in
      match pendingCandidates m2 with
      | [] => m2
      | l => set_pendingCandidates [] (replay_candidates l m2)
      end
  end.

(** [handleSignalingMessage(message)] *)
Definition handleSignalingMessage (data : option SignalData)
    (m : Manager) : Manager :=
  match data with
  | None => m
  | Some (SigOffer d) =>
      match gameConnection m with
      | Some _ => on_gameConnection (Session.handleOffer (Some d)) m
      | None => set_pendingOffer (Some d) m
      end
  | Some (SigAnswer d) =>
      match gameConnection m with
      | Some _ => on_gameConnection (Session.handleAnswer (Some d)) m
      | None => m
      end
  | Some (SigIce d) =>
      match gameConnection m with
      | Some _ => on_gameConnection (Session.handleCandidate (Some d)) m
      | None => set_pendingCandidates (pendingCandidates m ++ [d]) m
      end
  | Some (SigOther _) => m
  end.

(** [handleMatchFound(message)] *)
Definition handleMatchFound (r : string) (o : option PeerId)
    (i : bool) (ice : option (list string)) (m : Manager) : Manager :=
  let m1 := set_match r o i m in
  connectToGame_enter
    (emit_event
       (match_found roomId (role m1) (opponentId m1) (opponentId m1)
          (isInitiator m1)
          (match ice with Some l => l | None => iceServers end)) m1).

(** [handleServerMessage(message)] *)
Definition handleServerMessage (msg : FromServer) (m : Manager)
  : Manager :=
  match msg with
  | ClientIdMsg i => set_peerId (Some i) m
  | WaitingMsg => emit_event queued m
  | MatchFoundMsg r o i ice => handleMatchFound r o i ice m
  | SignalMsg data => handleSignalingMessage data m
  | PeerDisconnectedMsg => emit_event connection_failed m
  | OtherMsg _ => m
  end.

(** [findMatch()] *)
Definition findMatch (m : Manager) : Manager :=
  sendToServer FindMatchReq m.

(** [disconnect()]; [ws.close()] takes the socket out of the open
    state. *)
Definition disconnect (m : Manager) : Manager :=
  unmatch
    (on_gameConnection Session.close
       (set_socket false (isSignalingConnected m) m)).

End WithBrowser.

End WsMatchmaker.

(** ** NetworkManager.js (tic-tac-toe and doodle-guess) *)

Module GameClient.

(** The argument of a 'game_data_received' emission. *)
Record DataEvent := {
  data : option Session.Payload;
  channel : option string;
  __forwarded : bool
}.

(** [None] is an emission without argument. *)
Definition Arg := option DataEvent.

(** The event a game connection emits for a channel message. *)
Definition received (d : Session.Payload) (lbl : string) : Arg :=
  Some {| data := Some d; channel := Some lbl; __forwarded := false |}.

(** [data && data.__forwarded] *)
Definition is_forwarded (a : Arg) : bool :=
  match a with Some d => __forwarded d | None => false end.

(** [{ ...data, __forwarded: true }] *)
Definition forwarded_copy (a : Arg) : Arg :=
  match a with
  | Some d => Some {| data := data d; channel := channel d;
                      __forwarded := true |}
  | None => Some {| data := None; channel := None; __forwarded := true |}
  end.

(** The manager as far as the scene's emitter sees it: the number of
    'game_data_received' listeners it has registered.  The manager and
    its WebSocket manager are built on the same scene, so the listeners
    sit on the emitter they emit on. *)
Record Manager := {
  isSignalingConnected : bool;
  listeners : nat
}.

(** [new NetworkManager(scene)] *)
Definition new_manager : Manager :=
  {| isSignalingConnected := false; listeners := 0 |}.

(** [initializeWebSocketNetworking()] *)
Definition initializeWebSocketNetworking (m : Manager) : Manager :=
  {| isSignalingConnected := isSignalingConnected m;
     listeners := S (listeners m) |}.

(** [connect()] as far as it acts at once *)
Definition connect (m : Manager) : Manager :=
  initializeWebSocketNetworking
    {| isSignalingConnected := true; listeners := listeners m |}.

(** The calls of the listeners one after the other; [one] is what a
    single call emits, [None] when it does not return. *)
Fixpoint call_each {A} (one : option (list A)) (k : nat)
  : option (list A) :=
  match k with
  | O => Some []
  | S k' =>
      match one, call_each one k' with
      | Some l, Some rest => Some (l ++ rest)
      | _, _ => None
      end
  end.

(** [scene.events.emit('game_data_received', a)] with [k] listeners of
    [initializeWebSocketNetworking] registered: the emissions it leads
    to, in order, [a] first.  A listener returns at once when the
    argument is marked, and emits a marked copy otherwise.  [fuel]
    bounds the depth of the nested emissions. *)
Fixpoint emit (fuel : nat) (k : nat) (a : Arg) : option (list Arg) :=
  match fuel with
  | O => None
  | S fuel' =>
      let listener :=
        if is_forwarded a then Some []
        else emit fuel' k (forwarded_copy a) in
      match call_each listener k with
      | Some nested => Some (a :: nested)
      | None => None
      end
  end.

End GameClient.

(** * Properties *)

(** ** The session: candidate queue, send, close, error containment *)

Module SessionFacts.
Import Js Session.

Section WithBrowser.
Context {browser : Browser}.

(** The session is live: it has a peer connection that is not closed. *)
Definition live (c : Conn) : Prop :=
  exists pc, peerConnection c = Some pc /\ signalingClosed pc = false.

Definition awaiting_description (c : Conn) : Prop :=
  exists pc, peerConnection c = Some pc /\ signalingClosed pc = false
             /\ remoteDescription pc = None.

Lemma set_pending_twice q q' c :
  set_pending q (set_pending q' c) = set_pending q c.
Proof. reflexivity. Qed.

Lemma set_pending_same c : set_pending (pendingRemoteCandidates c) c = c.
Proof. destruct c; reflexivity. Qed.

Lemma applied_of_app l l' :
  applied_of (l ++ l') = applied_of l ++ applied_of l'.
Proof.
  induction l as [|k l IH]; simpl; [reflexivity|].
  destruct k; simpl; rewrite ?IH; reflexivity.
Qed.

(** A description the browser holds always carries a type. *)
Lemma has_description pc d :
  remoteDescription pc = Some d -> lacks_remote_description pc = false.
Proof.
  intros H. unfold lacks_remote_description. rewrite H.
  destruct (sdp_type d); reflexivity.
Qed.

(** Before the remote description a well-formed candidate is queued and
    nothing else changes. *)
Lemma handleCandidate_queues c x :
  awaiting_description c ->
  handleCandidate (Some {| candidate := x |}) c
  = (Returned tt, set_pending (pendingRemoteCandidates c ++ [x]) c).
Proof.
  intros (pc & Hpc & Hcl & Hrd).
  unfold handleCandidate, try_catch. rewrite Hpc, Hcl.
  unfold lacks_remote_description. rewrite Hrd. reflexivity.
Qed.

Lemma awaiting_set_pending q c :
  awaiting_description c -> awaiting_description (set_pending q c).
Proof. intros (pc & ? & ? & ?); exists pc; auto. Qed.

Lemma receive_candidates_queues xs : forall c,
  awaiting_description c ->
  receive_candidates xs c
  = set_pending (pendingRemoteCandidates c ++ xs) c.
Proof.
  unfold receive_candidates, deliver_all.
  induction xs as [|x xs IH]; intros c Hc; simpl.
  - rewrite app_nil_r. symmetry; apply set_pending_same.
  - rewrite handleCandidate_queues by assumption. simpl.
    rewrite IH by (apply awaiting_set_pending; assumption).
    simpl. rewrite <- app_assoc. reflexivity.
Qed.

(** The state left by one [addIceCandidate] call, whatever its outcome. *)
Definition after_addIce (x : Candidate) (pc : PeerConn) : PeerConn :=
  log_call (AddIce x (addIceCandidate_ok pc x)) pc.

Lemma try_addIce c pc x :
  peerConnection c = Some pc ->
  try_catch (pc_addIceCandidate x) (fun _ => ret tt) c
  = (Returned tt, set_peerConnection (Some (after_addIce x pc)) c).
Proof.
  intros Hpc. unfold try_catch, pc_addIceCandidate, on_pc, after_addIce.
  rewrite Hpc. destruct (addIceCandidate_ok pc x); reflexivity.
Qed.

(** The peer connection after the queue [q] has been applied in order. *)
Fixpoint after_drain (q : list Candidate) (pc : PeerConn) : PeerConn :=
  match q with
  | [] => pc
  | x :: q' => after_drain q' (after_addIce x pc)
  end.

Lemma after_drain_calls q : forall pc,
  applied_of (calls (after_drain q pc)) = applied_of (calls pc) ++ q.
Proof.
  induction q as [|x q IH]; intros pc; simpl.
  - rewrite app_nil_r; reflexivity.
  - rewrite IH. unfold after_addIce; simpl.
    rewrite applied_of_app; simpl. rewrite <- app_assoc; reflexivity.
Qed.

Lemma after_drain_descr q : forall pc,
  remoteDescription (after_drain q pc) = remoteDescription pc
  /\ localDescription (after_drain q pc) = localDescription pc
  /\ signalingClosed (after_drain q pc) = signalingClosed pc.
Proof.
  induction q as [|x q IH]; intros pc; simpl; [auto|].
  destruct (IH (after_addIce x pc)) as (-> & -> & ->). auto.
Qed.

(** With enough fuel the loop empties the queue, applying it front
    first, and returns. *)
Lemma flush_loop_drains fuel : forall c pc,
  peerConnection c = Some pc ->
  (List.length (pendingRemoteCandidates c) <= fuel)%nat ->
  flush_loop fuel c
  = (Returned tt,
     set_peerConnection
       (Some (after_drain (pendingRemoteCandidates c) pc))
       (set_pending [] c)).
Proof.
  induction fuel as [|fuel IH]; intros c pc Hpc Hlen.
  - destruct c as [p r u ic ii oi ou ri ice q ef]; simpl in *.
    destruct q; simpl in *; [subst; reflexivity | lia].
  - simpl. destruct (pendingRemoteCandidates c) as [|x rest] eqn:Hq.
    + destruct c; simpl in *; subst; reflexivity.
    + unfold flush_turn, bind, modify.
      rewrite (try_addIce _ pc) by exact Hpc.
      rewrite (IH _ (after_addIce x pc)); [reflexivity| reflexivity |].
      simpl in *. lia.
Qed.

Lemma flush_drains c pc d :
  peerConnection c = Some pc -> remoteDescription pc = Some d ->
  flushPendingRemoteCandidates c
  = (Returned tt,
     set_peerConnection
       (Some (after_drain (pendingRemoteCandidates c) pc))
       (set_pending [] c)).
Proof.
  intros Hpc Hrd. unfold flushPendingRemoteCandidates.
  rewrite Hpc, Hrd. apply flush_loop_drains; [assumption | lia].
Qed.

Lemma flush_never_throws c : fst (flushPendingRemoteCandidates c) = Returned tt.
Proof.
  unfold flushPendingRemoteCandidates.
  destruct (peerConnection c) as [pc|] eqn:Hpc; [|reflexivity].
  destruct (remoteDescription pc); [|reflexivity].
  rewrite (flush_loop_drains _ c pc) by (auto; lia). reflexivity.
Qed.

Ltac unfold_js :=
  unfold handleOffer, handleAnswer, handleCandidate, createAndSendOffer,
    pc_setRemoteDescription, pc_createAnswer, pc_createOffer,
    pc_setLocalDescription, pc_addIceCandidate, socket_emit, field,
    on_pc, try_catch, bind, ret, throw, modify, get in *;
  cbv beta iota in *.

(** [handleAnswer] once the browser accepts the answer: the description
    is installed and the queue is drained at once. *)
Lemma handleAnswer_installed c pc d :
  peerConnection c = Some pc ->
  setRemoteDescription_ok pc d = true ->
  handleAnswer (Some {| answer := d |}) c
  = (Returned tt,
     set_peerConnection
       (Some (after_drain (pendingRemoteCandidates c)
                (log_call (SetRemote d true) (set_remote d pc))))
       (set_pending [] c)).
Proof.
  intros Hpc Hok. unfold_js. rewrite Hpc. simpl. rewrite Hok.
  rewrite (flush_drains _ (log_call (SetRemote d true) (set_remote d pc)) d)
    by reflexivity.
  reflexivity.
Qed.

(** The responder's path ran as far as sending its answer. *)
Definition answer_sent (c c' : Conn) : Prop :=
  exists a to uid,
    effects c' = effects c ++ [SocketEmit (BAnswer a) to uid].

Lemma app_unit_neq {A} (l : list A) x : l ++ [x] <> l.
Proof.
  intros H. apply (f_equal (@List.length A)) in H.
  rewrite length_app in H. simpl in H. lia.
Qed.

Lemma answer_sent_neq c c' : answer_sent c c' -> effects c' <> effects c.
Proof. intros (a & t & u & ->). apply app_unit_neq. Qed.

(** [handleOffer] when the answer went out: the queue was drained
    right after, on a connection that holds the offer. *)
Lemma handleOffer_answered c pc d :
  peerConnection c = Some pc ->
  answer_sent c (snd (handleOffer (Some {| offer := d |}) c)) ->
  exists pc',
    applied_of (calls pc') = applied_of (calls pc)
    /\ remoteDescription pc' = Some d
    /\ signalingClosed pc' = signalingClosed pc
    /\ snd (handleOffer (Some {| offer := d |}) c)
       = set_peerConnection
           (Some (after_drain (pendingRemoteCandidates c) pc'))
           (set_pending []
              (emit_effect
                 (SocketEmit
                    (BAnswer
                       (match localDescription pc' with
                        | Some a => a | None => d end))
                    (opponentId c)
                    (if truthy (opponentUid c)
                     then opponentUid c else None)) c)).
Proof.
  intros Hpc Hsent. apply answer_sent_neq in Hsent. revert Hsent.
  unfold_js. rewrite Hpc. simpl.
  destruct (setRemoteDescription_ok pc d); simpl;
    [|intros H; exfalso; apply H; reflexivity].
  set (pc1 := log_call (SetRemote d true) (set_remote d pc)).
  destruct (createAnswer_result pc1) as [a|]; simpl;
    [|intros H; exfalso; apply H; reflexivity].
  set (pc2 := log_call (CreateAnswer true) pc1).
  destruct (setLocalDescription_ok pc2 a); simpl;
    [|intros H; exfalso; apply H; reflexivity].
  set (pc3 := log_call (SetLocal a true) (set_local a pc2)).
  intros _. exists pc3. repeat split.
  - unfold pc3, pc2, pc1; simpl. rewrite !applied_of_app; simpl.
    rewrite !app_nil_r. reflexivity.
  - match goal with |- context [flushPendingRemoteCandidates ?s] =>
      rewrite (flush_drains s pc3 d) by reflexivity end.
    reflexivity.
Qed.

(** The queue has been flushed on a live session. *)
Definition flushed (c : Conn) : Prop :=
  exists pc d, peerConnection c = Some pc /\ signalingClosed pc = false
               /\ remoteDescription pc = Some d
               /\ pendingRemoteCandidates c = [].

Lemma flush_empty c :
  pendingRemoteCandidates c = [] ->
  flushPendingRemoteCandidates c = (Returned tt, c).
Proof.
  intros Hq. unfold flushPendingRemoteCandidates.
  destruct (peerConnection c) as [pc|]; [|reflexivity].
  destruct (remoteDescription pc); [|reflexivity].
  rewrite Hq. reflexivity.
Qed.

(** After the flush every signal leaves the queue empty; a candidate
    is handed to the browser at once and nothing else is. *)
Lemma deliver_flushed sg c :
  flushed c ->
  flushed (deliver sg c)
  /\ applied (deliver sg c) = applied c ++ candidates_of [sg].
Proof.
  intros (pc & d & Hpc & Hcl & Hrd & Hq).
  assert (Hfin : forall tail pc' d' c',
             peerConnection c' = Some pc' ->
             signalingClosed pc' = false ->
             remoteDescription pc' = Some d' ->
             pendingRemoteCandidates c' = [] ->
             applied_of (calls pc') = applied_of (calls pc) ++ tail ->
             flushed c' /\ applied c' = applied c ++ tail).
  { intros tail pc' d' c' H4 H1 H2 H5 H3. split.
    - exists pc', d'; auto.
    - unfold applied. rewrite H4, Hpc. exact H3. }
  pose proof (app_nil_r (applied_of (calls pc))) as Hnil.
  destruct sg as [[[o]|]|[[a]|]|[[x]|]]; simpl;
    unfold_js; rewrite Hpc; simpl;
    rewrite ?Hcl, ?(has_description pc d Hrd); simpl;
    rewrite ?Hpc;
    repeat match goal with
      | |- context [if ?b then _ else _] => destruct b; simpl
      | |- context [match createAnswer_result ?p with _ => _ end] =>
          destruct (createAnswer_result p); simpl
      end;
    try match goal with
        | |- context [flushPendingRemoteCandidates ?s] =>
            rewrite (flush_empty s) by exact Hq
        end; simpl;
    (eapply (Hfin (candidates_of
                     [SigCandidate (Some {| candidate := x |})]))
     || eapply (Hfin []));
    simpl; try reflexivity; try exact Hcl; try exact Hq; try exact Hrd;
    try exact Hpc;
    unfold log_call, set_local, set_remote; simpl;
    rewrite ?applied_of_app; simpl; rewrite ?app_nil_r; reflexivity.
Qed.

Lemma deliver_all_flushed sgs : forall c,
  flushed c ->
  flushed (deliver_all sgs c)
  /\ applied (deliver_all sgs c) = applied c ++ candidates_of sgs.
Proof.
  induction sgs as [|sg sgs IH]; intros c Hc.
  - simpl. rewrite app_nil_r. auto.
  - destruct (deliver_flushed sg c Hc) as [Hf Ha].
    destruct (IH _ Hf) as [Hf' Ha'].
    change (deliver_all (sg :: sgs) c)
      with (deliver_all sgs (deliver sg c)).
    split; [exact Hf'|]. rewrite Ha', Ha, <- app_assoc. f_equal.
    destruct sg as [?|?|[?|]]; reflexivity.
Qed.

(** The remote description became available to the session through
    [sg]: an answer that the browser installed, or an offer that the
    session went on to answer. *)
Definition description_installed (sg : Signal) (c c' : Conn) : Prop :=
  match sg with
  | SigAnswer _ => has_remote_description c' = true
  | SigOffer _ => answer_sent c c'
  | SigCandidate _ => False
  end.

Lemma installed_drains sg c :
  awaiting_description c ->
  description_installed sg c (deliver sg c) ->
  flushed (deliver sg c)
  /\ applied (deliver sg c) = applied c ++ pendingRemoteCandidates c.
Proof.
  intros (pc & Hpc & Hcl & Hrd) Hin.
  destruct sg as [[[o]|]|[[a]|]|x]; simpl in Hin |- *.
  - destruct (handleOffer_answered c pc o Hpc Hin)
      as (pc' & Hcalls & Hrd' & Hcl' & ->).
    destruct (after_drain_descr (pendingRemoteCandidates c) pc')
      as (Hr & _ & Hs).
    split.
    + eexists _, o. simpl. repeat split; [congruence | congruence].
    + unfold applied. simpl. rewrite Hpc, after_drain_calls. congruence.
  - exfalso. apply answer_sent_neq in Hin. apply Hin.
    unfold_js. rewrite Hpc. reflexivity.
  - revert Hin. unfold has_remote_description.
    destruct (setRemoteDescription_ok pc a) eqn:Hok.
    + rewrite (handleAnswer_installed c pc a Hpc Hok). simpl. intros _.
      destruct (after_drain_descr (pendingRemoteCandidates c)
                  (log_call (SetRemote a true) (set_remote a pc)))
        as (Hr & _ & Hs).
      split.
      * eexists _, a. simpl.
        repeat split; [rewrite Hs; exact Hcl | rewrite Hr; reflexivity].
      * unfold applied. simpl. rewrite Hpc, after_drain_calls.
        unfold log_call; simpl. rewrite applied_of_app; simpl.
        rewrite app_nil_r. reflexivity.
    + unfold_js. rewrite Hpc. simpl. rewrite Hok. simpl.
      unfold lacks_remote_description; simpl. rewrite Hrd.
      discriminate.
  - exfalso. revert Hin. unfold has_remote_description.
    unfold_js. rewrite Hpc. simpl.
    unfold lacks_remote_description. rewrite Hrd. discriminate.
  - destruct Hin.
Qed.

(** Candidates, a description and what follows, each handler run to
    completion. *)
Lemma flushed_in_order_when_settled
    (c : Conn) (xs : list Candidate) (sg : Signal)
    (later : list Signal) :
  awaiting_description c ->
  let c1 := receive_candidates xs c in
  let c2 := deliver sg c1 in
  let c3 := deliver_all later c2 in
  (pendingRemoteCandidates c1 = pendingRemoteCandidates c ++ xs
   /\ applied c1 = applied c)
  /\ (description_installed sg c1 c2 ->
      (applied c2 = applied c ++ pendingRemoteCandidates c ++ xs
       /\ pendingRemoteCandidates c2 = [])
      /\ (applied c3
          = applied c ++ pendingRemoteCandidates c ++ xs
              ++ candidates_of later
          /\ pendingRemoteCandidates c3 = [])).
Proof.
  intros Hc c1 c2 c3.
  assert (H1 : c1 = set_pending (pendingRemoteCandidates c ++ xs) c)
    by (apply receive_candidates_queues; exact Hc).
  assert (Ha1 : applied c1 = applied c) by (rewrite H1; reflexivity).
  assert (Hq1 : pendingRemoteCandidates c1
                = pendingRemoteCandidates c ++ xs)
    by (rewrite H1; reflexivity).
  split; [split; assumption|].
  intros Hin.
  assert (Hc1 : awaiting_description c1)
    by (rewrite H1; apply awaiting_set_pending; exact Hc).
  destruct (installed_drains sg c1 Hc1 Hin) as [Hf Ha2].
  fold c2 in Hf, Ha2. rewrite Ha1, Hq1 in Ha2.
  destruct (deliver_all_flushed later c2 Hf) as [Hf3 Ha3].
  fold c3 in Hf3, Ha3.
  split; [split|split].
  - exact Ha2.
  - destruct Hf as (? & ? & _ & _ & _ & Hq). exact Hq.
  - rewrite Ha3, Ha2, <- !app_assoc. reflexivity.
  - destruct Hf3 as (? & ? & _ & _ & _ & Hq). exact Hq.
Qed.

(** *** Error containment *)

Definition is_description_call (k : PcCall) : bool :=
  match k with AddIce _ _ => false | _ => true end.

Definition call_ok (k : PcCall) : bool :=
  match k with
  | CreateOffer b | CreateAnswer b | SetLocal _ b | SetRemote _ b
  | AddIce _ b => b
  end.

Definition description_failure (k : PcCall) : bool :=
  is_description_call k && negb (call_ok k).

(** A failed offer/answer step is the last browser call of the
    invocation. *)
Fixpoint stalls_at_failure (l : list PcCall) : bool :=
  match l with
  | [] => true
  | k :: post =>
      if description_failure k
      then match post with [] => true | _ :: _ => false end
      else stalls_at_failure post
  end.

(** [l] is what one invocation added to the browser's call log. *)
Definition new_calls (c c' : Conn) (l : list PcCall) : Prop :=
  match peerConnection c, peerConnection c' with
  | Some pc, Some pc' => calls pc' = calls pc ++ l
  | None, None => l = []
  | _, _ => False
  end.

Definition contained (c : Conn) (r : Completion unit * Conn) : Prop :=
  fst r = Returned tt
  /\ exists l,
       new_calls c (snd r) l
       /\ stalls_at_failure l = true
       /\ NoDup (filter is_description_call l)
       /\ (List.length (applied_of l)
           <= List.length (pendingRemoteCandidates c) + 1)%nat
       /\ (existsb description_failure l = true ->
           effects (snd r) = effects c
           /\ pendingRemoteCandidates (snd r)
              = pendingRemoteCandidates c)
       /\ (forall k pc, l = [k] -> call_ok k = false ->
           peerConnection c = Some pc ->
           snd r = set_peerConnection (Some (log_call k pc)) c).

(** The calls made while draining [q]. *)
Fixpoint drain_log (q : list Candidate) (pc : PeerConn) : list PcCall :=
  match q with
  | [] => []
  | x :: q' =>
      AddIce x (addIceCandidate_ok pc x) :: drain_log q' (after_addIce x pc)
  end.

Lemma after_drain_log q : forall pc,
  calls (after_drain q pc) = calls pc ++ drain_log q pc.
Proof.
  induction q as [|x q IH]; intros pc; simpl.
  - rewrite app_nil_r; reflexivity.
  - rewrite IH. unfold after_addIce at 1; simpl.
    rewrite <- app_assoc. reflexivity.
Qed.

Lemma drain_log_facts q : forall pc,
  applied_of (drain_log q pc) = q
  /\ filter is_description_call (drain_log q pc) = []
  /\ existsb description_failure (drain_log q pc) = false
  /\ stalls_at_failure (drain_log q pc) = true.
Proof.
  induction q as [|x q IH]; intros pc; simpl; [auto|].
  destruct (IH (after_addIce x pc)) as (-> & -> & -> & ->). auto.
Qed.

Lemma set_peerConnection_same c pc :
  peerConnection c = Some pc -> set_peerConnection (Some pc) c = c.
Proof. intros H. destruct c; simpl in *; subst; reflexivity. Qed.

Ltac contained_by l :=
  split; [reflexivity|]; exists l;
  repeat match goal with |- _ /\ _ => split end;
  [ unfold new_calls; simpl;
    repeat match goal with
      | H : peerConnection ?c = _ |- context [peerConnection ?c] =>
          rewrite H end;
    rewrite ?after_drain_log; simpl; rewrite <- ?app_assoc, ?app_nil_r;
    try reflexivity
  | simpl; try reflexivity
  | simpl; repeat constructor; simpl; intuition discriminate
  | simpl; try lia
  | simpl; try (intros; split; reflexivity); try discriminate
  | simpl; intros k' pc' Hk Hf Hp;
    try discriminate Hk; try (injection Hk as <-); try discriminate Hf;
    try (rewrite Hp in *);
    repeat match goal with
      | H : Some _ = Some _ |- _ => injection H as <- end;
    try reflexivity ].

Lemma contained_createAndSendOffer c :
  contained c (createAndSendOffer c).
Proof.
  unfold_js. destruct (peerConnection c) as [pc|] eqn:Hpc; simpl.
  2:{ contained_by (@nil PcCall). }
  destruct (createOffer_result pc) as [o|]; simpl.
  2:{ contained_by [CreateOffer false]. }
  destruct (setLocalDescription_ok _ o); simpl.
  - contained_by [CreateOffer true; SetLocal o true].
  - contained_by [CreateOffer true; SetLocal o false].
Qed.

Lemma contained_flush c pc d pre :
  peerConnection c = Some pc ->
  remoteDescription pc = Some d ->
  forall c0 pc0,
  peerConnection c0 = Some pc0 ->
  calls pc = calls pc0 ++ pre ->
  pendingRemoteCandidates c = pendingRemoteCandidates c0 ->
  existsb description_failure pre = false ->
  NoDup (filter is_description_call pre) ->
  applied_of pre = [] ->
  (exists k0 rest, pre = k0 :: rest /\ call_ok k0 = true) ->
  contained c0 (flushPendingRemoteCandidates c).
Proof.
  intros Hpc Hrd c0 pc0 Hpc0 Hcalls Hq Hok Hnd Hap (k0 & rest & Hpre & Hk0).
  rewrite (flush_drains c pc d Hpc Hrd).
  destruct (drain_log_facts (pendingRemoteCandidates c) pc)
    as (Ha & Hf & He & Hs).
  split; [reflexivity|].
  exists (pre ++ drain_log (pendingRemoteCandidates c) pc).
  repeat match goal with |- _ /\ _ => split end.
  - unfold new_calls. rewrite Hpc0. simpl.
    rewrite after_drain_log, Hcalls, app_assoc. reflexivity.
  - clear - Hok Hs. induction pre as [|k pre IH]; simpl in *; [exact Hs|].
    destruct (description_failure k); [discriminate|]. apply IH; exact Hok.
  - rewrite filter_app, Hf, app_nil_r. exact Hnd.
  - rewrite applied_of_app, Hap, Ha, Hq. simpl. lia.
  - rewrite existsb_app, Hok, He. discriminate.
  - intros k pc' Hk Hfail. subst pre. simpl in Hk.
    injection Hk as <- _. congruence.
Qed.

Lemma contained_handleOffer data c : contained c (handleOffer data c).
Proof.
  unfold handleOffer.
  destruct (peerConnection c) as [pc|] eqn:Hpc.
  2:{ contained_by (@nil PcCall). }
  destruct data as [[o]|]; unfold_js; simpl; rewrite ?Hpc; simpl.
  2:{ contained_by (@nil PcCall). }
  destruct (setRemoteDescription_ok pc o); simpl.
  2:{ contained_by [SetRemote o false]. }
  destruct (createAnswer_result _) as [a|]; simpl.
  2:{ contained_by [SetRemote o true; CreateAnswer false]. }
  destruct (setLocalDescription_ok _ a); simpl.
  2:{ contained_by [SetRemote o true; CreateAnswer true;
                    SetLocal a false]. }
  match goal with |- contained _ (let (_, _) := ?f ?s in _) =>
    assert (H : contained c (f s)) end.
  { eapply (contained_flush _ _ o
              [SetRemote o true; CreateAnswer true; SetLocal a true]);
      try reflexivity; try exact Hpc.
    - unfold log_call; simpl. rewrite <- !app_assoc. reflexivity.
    - simpl. repeat constructor; simpl; intuition discriminate.
    - eexists _, _; split; reflexivity. }
  destruct H as (Hret & l & Hl).
  match goal with |- contained _ (let (_, _) := ?r in _) =>
    destruct r as [[[]|e] s'] end; [|discriminate Hret].
  split; [reflexivity|]. exists l. exact Hl.
Qed.

Lemma contained_handleAnswer data c : contained c (handleAnswer data c).
Proof.
  unfold_js. destruct (peerConnection c) as [pc|] eqn:Hpc; simpl.
  2:{ contained_by (@nil PcCall). }
  destruct data as [[a]|]; simpl.
  2:{ rewrite (set_peerConnection_same c pc Hpc).
      contained_by (@nil PcCall). }
  destruct (setRemoteDescription_ok pc a); simpl.
  2:{ contained_by [SetRemote a false]. }
  match goal with |- contained _ (let (_, _) := ?f ?s in _) =>
    assert (H : contained c (f s)) end.
  { apply contained_flush
      with (pc := log_call (SetRemote a true) (set_remote a pc))
           (d := a) (pre := [SetRemote a true]) (pc0 := pc);
      try reflexivity; try exact Hpc.
    - simpl. repeat constructor; simpl; intuition discriminate.
    - eexists _, _; split; reflexivity. }
  destruct H as (Hret & l & Hl).
  match goal with |- contained _ (let (_, _) := ?r in _) =>
    destruct r as [[[]|e] s'] end; [|discriminate Hret].
  split; [reflexivity|]. exists l. exact Hl.
Qed.

Lemma contained_handleCandidate data c :
  contained c (handleCandidate data c).
Proof.
  unfold_js. destruct (peerConnection c) as [pc|] eqn:Hpc; simpl.
  2:{ contained_by (@nil PcCall). }
  destruct (signalingClosed pc); simpl.
  { contained_by (@nil PcCall). }
  destruct (lacks_remote_description pc); destruct data as [[x]|]; simpl;
    rewrite ?Hpc; simpl.
  - contained_by (@nil PcCall).
  - contained_by (@nil PcCall).
  - destruct (addIceCandidate_ok pc x); simpl.
    + contained_by [AddIce x true].
    + contained_by [AddIce x false].
  - contained_by (@nil PcCall).
Qed.

(** C8.  Whatever the browser does and whatever the input is, the four
    negotiation operations return normally.  The browser calls of one
    invocation stop at the first offer/answer step that fails, no such
    step is issued twice and no candidate is handed over more often
    than it was received; after a failed step nothing is emitted and
    the pending queue is as it was, and when the very first call fails
    the session is unchanged but for the record of that call. *)
Theorem C8_negotiation_errors_are_contained
    (c : Conn) (offerData : option OfferData)
    (answerData : option AnswerData) (iceData : option IceData) :
  contained c (createAndSendOffer c)
  /\ contained c (handleOffer offerData c)
  /\ contained c (handleAnswer answerData c)
  /\ contained c (handleCandidate iceData c).
Proof.
  split; [|split; [|split]].
  - apply contained_createAndSendOffer.
  - apply contained_handleOffer.
  - apply contained_handleAnswer.
  - apply contained_handleCandidate.
Qed.

(** *** The event loop and the handlers run to completion *)

Lemma loop_run_app es1 es2 l :
  loop_run (es1 ++ es2) l = loop_run es2 (loop_run es1 l).
Proof. unfold loop_run. apply fold_left_app. Qed.

Lemma settle_idle c n : loop_run (repeat Settles n) (idle c) = idle c.
Proof. induction n as [|n IH]; simpl; [reflexivity|exact IH]. Qed.

Lemma snd_try_catch {A} (m : M Conn A) (k : Error -> M Conn A) c :
  (forall e c', snd (k e c') = c') ->
  snd (try_catch m k c) = snd (m c).
Proof.
  intros Hk. unfold try_catch. destruct (m c) as [[a|e] c']; simpl; auto.
Qed.

Lemma on_pc_pending {A} (f : PeerConn -> Completion A * PeerConn) c :
  pendingRemoteCandidates (snd (on_pc f c)) = pendingRemoteCandidates c.
Proof.
  unfold on_pc. destruct (peerConnection c) as [pc|]; [|reflexivity].
  destruct (f pc); reflexivity.
Qed.

(** The flush loop at the event loop is the flush loop run to its end. *)
Lemma flush_next_settles : forall q c n,
  pendingRemoteCandidates c = q ->
  loop_run (repeat Settles (List.length q + n)) (flush_next (idle c))
  = idle (snd (flush_loop (List.length q) c)).
Proof.
  induction q as [|x rest IH]; intros c n Hq.
  - unfold flush_next. cbn [idle conn]. rewrite Hq.
    cbn [List.length plus flush_loop snd]. apply settle_idle.
  - unfold flush_next. cbn [idle conn]. rewrite Hq.
    cbn [List.length plus repeat loop_run fold_left loop_step].
    unfold settle, request, with_conn. cbn [waiting conn app idle].
    change (fold_left (fun acc e => loop_step e acc)
              (repeat Settles (List.length rest + n)) ?l)
      with (loop_run (repeat Settles (List.length rest + n)) l).
    change {| conn := ?c0; waiting := [] |} with (idle c0).
    rewrite IH by (unfold pc_addIceCandidate; rewrite on_pc_pending;
                   reflexivity).
    f_equal. cbn [flush_loop]. rewrite Hq. unfold flush_turn, bind, modify.
    cbn [fst snd].
    destruct (try_catch (pc_addIceCandidate x) (fun _ => ret tt)
                (set_pending rest c)) as [r c'] eqn:E.
    assert (Hc' : c' = snd (pc_addIceCandidate x (set_pending rest c))).
    { rewrite <- (snd_try_catch _ (fun _ => ret tt)) by reflexivity.
      rewrite E. reflexivity. }
    assert (Hr : r = Returned tt).
    { revert E. unfold try_catch.
      destruct (pc_addIceCandidate x (set_pending rest c)) as [[[]|e] c2];
        cbn; intros H; injection H as <- _; reflexivity. }
    subst r. rewrite Hc'. reflexivity.
Qed.

Lemma flush_enter_settles c n :
  loop_run (repeat Settles (List.length (pendingRemoteCandidates c) + n))
    (flush_enter (idle c))
  = idle (snd (flushPendingRemoteCandidates c)).
Proof.
  unfold flush_enter, flushPendingRemoteCandidates. cbn [idle conn].
  destruct (peerConnection c) as [pc|]; [|apply settle_idle].
  destruct (remoteDescription pc); [|apply settle_idle].
  apply flush_next_settles. reflexivity.
Qed.


Lemma pending_set_peerConnection p c :
  pendingRemoteCandidates (set_peerConnection p c)
  = pendingRemoteCandidates c.
Proof. reflexivity. Qed.

Lemma loop_run_settles n l :
  loop_run (repeat Settles (S n)) l = loop_run (repeat Settles n) (settle l).
Proof. reflexivity. Qed.

(** Called on a session where nothing is suspended, and with no signal
    arriving before it has settled, a handler does what its function
    says. *)
Lemma handled_alone_is_deliver sg c :
  handled_alone sg c = idle (deliver sg c).
Proof.
  unfold handled_alone.
  change (loop_run (Arrives sg :: ?es) ?l)
    with (loop_run es (arrive sg l)).
  destruct sg as [[[d]|]|[[d]|]|[[x]|]]; cbn [arrive deliver idle conn].
  - (* offer *)
    unfold handleOffer.
    destruct (peerConnection c) as [pc|] eqn:Hpc; [|apply settle_idle].
    unfold request. cbn [conn waiting app plus idle].
    rewrite loop_run_settles. unfold settle at 1. cbn [waiting conn idle].
    unfold try_catch, bind, field, ret. cbn [offer].
    unfold pc_setRemoteDescription at 1 2, on_pc. rewrite Hpc.
    destruct (setRemoteDescription_ok pc d) eqn:Hsr;
      [|apply (settle_idle _ (2 + _))].
    unfold request. cbn [conn waiting app idle].
    rewrite loop_run_settles. unfold settle at 1. cbn [waiting conn idle].
    unfold pc_createAnswer at 1 2, on_pc.
    cbn [peerConnection set_peerConnection].
    destruct (createAnswer_result _) as [ans|] eqn:Hca;
      [|apply (settle_idle _ (1 + _))].
    unfold request. cbn [conn waiting app idle].
    rewrite loop_run_settles. unfold settle at 1. cbn [waiting conn idle].
    unfold pc_setLocalDescription at 1 2, on_pc.
    cbn [peerConnection set_peerConnection].
    destruct (setLocalDescription_ok _ ans) eqn:Hsl;
      [|apply (settle_idle _ _)].
    change {| conn := ?c0; waiting := [] |} with (idle c0).
    match goal with
    | |- loop_run _ (flush_enter (idle ?c0)) = _ =>
        transitivity (idle (snd (flushPendingRemoteCandidates c0)));
          [rewrite <- (flush_enter_settles c0 0), Nat.add_0_r;
           reflexivity|]
    end.
    f_equal. symmetry.
    match goal with
    | |- _ = snd (flushPendingRemoteCandidates (snd (socket_emit ?b ?s))) =>
        change (snd (try_catch
                       (bind (socket_emit b)
                          (fun _ => flushPendingRemoteCandidates))
                       (fun _ => ret tt) s)
                = snd (flushPendingRemoteCandidates
                         (snd (socket_emit b s))))
    end.
    rewrite snd_try_catch by reflexivity. reflexivity.
  - unfold handleOffer.
    destruct (peerConnection c) as [pc|] eqn:Hpc; apply settle_idle.
  - (* answer *)
    unfold handleAnswer.
    destruct (peerConnection c) as [pc|] eqn:Hpc.
    2:{ unfold try_catch, bind, on_pc. rewrite Hpc. apply settle_idle. }
    unfold request. cbn [conn waiting app plus idle].
    rewrite loop_run_settles. unfold settle at 1. cbn [waiting conn idle].
    unfold try_catch, bind, field, ret. cbn [answer].
    unfold on_pc. rewrite Hpc. cbn [fst snd].
    rewrite (set_peerConnection_same c pc Hpc).
    unfold pc_setRemoteDescription at 1 2, on_pc. rewrite Hpc.
    destruct (setRemoteDescription_ok pc d) eqn:Hsr;
      [|apply (settle_idle _ (2 + _))].
    change {| conn := ?c0; waiting := [] |} with (idle c0).
    match goal with
    | |- loop_run _ (flush_enter (idle ?c0)) = _ =>
        transitivity (idle (snd (flushPendingRemoteCandidates c0)));
          [rewrite <- (flush_enter_settles c0 2);
           cbn [pendingRemoteCandidates set_peerConnection];
           rewrite (Nat.add_comm _ 2); reflexivity|]
    end.
    f_equal. symmetry.
    match goal with
    | |- _ = snd (flushPendingRemoteCandidates ?s) =>
        change (snd (try_catch flushPendingRemoteCandidates
                       (fun _ => ret tt) s)
                = snd (flushPendingRemoteCandidates s))
    end.
    rewrite snd_try_catch by reflexivity. reflexivity.
  - unfold handleAnswer, try_catch, bind, on_pc, field.
    destruct (peerConnection c) as [pc|] eqn:Hpc; cbn.
    + rewrite (set_peerConnection_same c pc Hpc). apply settle_idle.
    + apply settle_idle.
  - (* candidate *)
    unfold handleCandidate, try_catch.
    destruct (peerConnection c) as [pc|] eqn:Hpc; [|apply settle_idle].
    destruct (signalingClosed pc); [apply settle_idle|].
    destruct (lacks_remote_description pc).
    + unfold with_conn. cbn [idle conn waiting candidate bind field ret modify fst snd].
      apply settle_idle.
    + unfold request. cbn [conn waiting app plus candidate idle].
      rewrite loop_run_settles. unfold settle at 1. cbn [waiting conn idle].
      unfold bind, field, ret. cbn [candidate].
      change {| conn := ?c0; waiting := [] |} with (idle c0).
      rewrite settle_idle.
      f_equal.
      destruct (pc_addIceCandidate x c) as [[[]|e] c']; reflexivity.
  - unfold handleCandidate, try_catch.
    destruct (peerConnection c) as [pc|] eqn:Hpc; [|apply settle_idle].
    destruct (signalingClosed pc); [apply settle_idle|].
    destruct (lacks_remote_description pc); apply settle_idle.
Qed.

(** Signals handled one at a time: the handler of each signal has
    settled before the next signal arrives, so each handler does what
    its function run to completion says.  A live session without a
    remote description appends each received candidate to the pending
    queue and hands none to the browser.  When the description then
    becomes available through an answer, or through an offer that the
    session answers, the whole queue is handed over once, oldest first,
    and left empty.  From then on the queue stays empty whatever
    arrives, and each later candidate is handed over on arrival: no
    queued candidate is handed over a second time. *)
Theorem queue_flushed_in_order_one_signal_at_a_time
    (c : Conn) (xs : list Candidate) (sg : Signal)
    (later : list Signal) :
  awaiting_description c ->
  let c1 := receive_candidates xs c in
  let c2 := deliver sg c1 in
  let c3 := deliver_all later c2 in
  (forall sg0 c0, handled_alone sg0 c0 = idle (deliver sg0 c0))
  /\ (pendingRemoteCandidates c1 = pendingRemoteCandidates c ++ xs
      /\ applied c1 = applied c)
  /\ (description_installed sg c1 c2 ->
      (applied c2 = applied c ++ pendingRemoteCandidates c ++ xs
       /\ pendingRemoteCandidates c2 = [])
      /\ (applied c3
          = applied c ++ pendingRemoteCandidates c ++ xs
              ++ candidates_of later
          /\ pendingRemoteCandidates c3 = [])).
Proof.
  intros Hc. cbv zeta.
  split; [exact handled_alone_is_deliver|].
  exact (flushed_in_order_when_settled c xs sg later Hc).
Qed.

(** *** Candidates under any interleaving of the handlers *)

(** [l] is [l1] and [l2] interleaved, each in its order. *)
Inductive Merge {A : Type} : list A -> list A -> list A -> Prop :=
| merge_nil : Merge [] [] []
| merge_left x l1 l2 l : Merge l1 l2 l -> Merge (x :: l1) l2 (x :: l)
| merge_right x l1 l2 l : Merge l1 l2 l -> Merge l1 (x :: l2) (x :: l).

Lemma Merge_left_only {A} (l : list A) : Merge l [] l.
Proof. induction l; constructor; assumption. Qed.

Lemma Merge_right_only {A} (l : list A) : Merge [] l l.
Proof. induction l; constructor; assumption. Qed.

Lemma Merge_app {A} (a1 b1 c1 a2 b2 c2 : list A) :
  Merge a1 b1 c1 -> Merge a2 b2 c2 ->
  Merge (a1 ++ a2) (b1 ++ b2) (c1 ++ c2).
Proof.
  intros H1 H2. induction H1; simpl; [exact H2| |]; constructor; assumption.
Qed.

(** The candidate of a requested [addIceCandidate]. *)
Definition carried (a : Await) : list Candidate :=
  match a with
  | FlushAddIce x | CandidateAddIce x => [x]
  | _ => []
  end.

(** The candidates handed to the browser: those of the calls it has
    performed, then those of the calls requested of it, oldest first. *)
Definition handed_over (l : Loop) : list Candidate :=
  applied (conn l) ++ flat_map carried (waiting l).

(** The candidates that arrive during [es], in order. *)
Fixpoint arrived (es : list LoopEvent) : list Candidate :=
  match es with
  | [] => []
  | Arrives (SigCandidate (Some d)) :: es' => candidate d :: arrived es'
  | _ :: es' => arrived es'
  end.

(** From [l] to [l'] the candidates [queued] joined the queue at its
    end and the candidates [direct] were handed to the browser on
    arrival; the queue was handed over from its front. *)
Definition advances (l l' : Loop) (queued direct : list Candidate)
  : Prop :=
  exists flushed new,
    flushed ++ pendingRemoteCandidates (conn l')
    = pendingRemoteCandidates (conn l) ++ queued
    /\ handed_over l' = handed_over l ++ new
    /\ Merge flushed direct new.

Lemma advances_refl l : advances l l [] [].
Proof.
  exists [], []. rewrite !app_nil_r. repeat split. constructor.
Qed.

Lemma advances_trans l l1 l2 q1 d1 q2 d2 :
  advances l l1 q1 d1 -> advances l1 l2 q2 d2 ->
  advances l l2 (q1 ++ q2) (d1 ++ d2).
Proof.
  intros (f1 & n1 & P1 & H1 & M1) (f2 & n2 & P2 & H2 & M2).
  exists (f1 ++ f2), (n1 ++ n2). split; [|split].
  - rewrite <- app_assoc, P2, app_assoc, P1, <- app_assoc. reflexivity.
  - rewrite H2, H1, <- app_assoc. reflexivity.
  - apply Merge_app; assumption.
Qed.

(** Same queue, same candidates handed over. *)
Lemma advances_same l l' :
  pendingRemoteCandidates (conn l') = pendingRemoteCandidates (conn l) ->
  handed_over l' = handed_over l ->
  advances l l' [] [].
Proof.
  intros Hp Hh. exists [], []. rewrite !app_nil_r, Hp, Hh.
  repeat split. constructor.
Qed.

Lemma arrived_app es1 es2 : arrived (es1 ++ es2) = arrived es1 ++ arrived es2.
Proof.
  induction es1 as [|e es1 IH]; [reflexivity|]. simpl.
  destruct e as [[d|[d|]|[d|]]|]; simpl; rewrite ?IH; reflexivity.
Qed.

Lemma flat_map_carried_app ws a :
  flat_map carried (ws ++ [a]) = flat_map carried ws ++ carried a.
Proof. rewrite flat_map_app. simpl. rewrite app_nil_r. reflexivity. Qed.

(** An operation that is no [addIceCandidate] leaves the queue and the
    applied candidates as they are, and the session live. *)
Definition quiet {A} (op : M Conn A) : Prop :=
  forall c, live c ->
    pendingRemoteCandidates (snd (op c)) = pendingRemoteCandidates c
    /\ applied (snd (op c)) = applied c
    /\ live (snd (op c)).

Lemma quiet_setRemote d : quiet (pc_setRemoteDescription d).
Proof.
  intros c (pc & Hpc & Hcl). unfold pc_setRemoteDescription, on_pc, applied.
  rewrite Hpc. destruct (setRemoteDescription_ok pc d); cbn;
    rewrite ?applied_of_app, ?app_nil_r;
    (split; [reflexivity|]; split; [reflexivity|]);
    eexists; split; [reflexivity|exact Hcl | reflexivity | exact Hcl].
Qed.

Lemma quiet_createAnswer : quiet pc_createAnswer.
Proof.
  intros c (pc & Hpc & Hcl). unfold pc_createAnswer, on_pc, applied.
  rewrite Hpc. destruct (createAnswer_result pc); cbn;
    rewrite ?applied_of_app, ?app_nil_r;
    (split; [reflexivity|]; split; [reflexivity|]);
    eexists; split; [reflexivity|exact Hcl | reflexivity | exact Hcl].
Qed.

Lemma quiet_setLocal d : quiet (pc_setLocalDescription d).
Proof.
  intros c (pc & Hpc & Hcl). unfold pc_setLocalDescription, on_pc, applied.
  rewrite Hpc. destruct (setLocalDescription_ok pc d); cbn;
    rewrite ?applied_of_app, ?app_nil_r;
    (split; [reflexivity|]; split; [reflexivity|]);
    eexists; split; [reflexivity|exact Hcl | reflexivity | exact Hcl].
Qed.

Lemma quiet_socket_emit b : quiet (socket_emit b).
Proof.
  intros c (pc & Hpc & Hcl). unfold socket_emit, modify. cbn.
  repeat split. exists pc. auto.
Qed.

Lemma addIce_applies x c :
  live c ->
  pendingRemoteCandidates (snd (pc_addIceCandidate x c))
  = pendingRemoteCandidates c
  /\ applied (snd (pc_addIceCandidate x c)) = applied c ++ [x]
  /\ live (snd (pc_addIceCandidate x c)).
Proof.
  intros (pc & Hpc & Hcl). unfold pc_addIceCandidate, on_pc, applied.
  rewrite Hpc. destruct (addIceCandidate_ok pc x); cbn;
    rewrite applied_of_app; cbn;
    (split; [reflexivity|]; split; [reflexivity|]);
    eexists; split; [reflexivity|exact Hcl | reflexivity | exact Hcl].
Qed.

(** One turn of the flush hands the front of the queue over. *)
Lemma flush_next_advances l :
  advances l (flush_next l) [] [] /\ conn (flush_next l) = 
    match pendingRemoteCandidates (conn l) with
    | [] => conn l
    | x :: rest => set_pending rest (conn l)
    end.
Proof.
  unfold flush_next.
  destruct (pendingRemoteCandidates (conn l)) as [|x rest] eqn:Hq.
  - split; [apply advances_refl|reflexivity].
  - split; [|reflexivity].
    exists [x], [x]. unfold handed_over, request, with_conn.
    cbn [conn waiting pendingRemoteCandidates set_pending].
    rewrite Hq, flat_map_carried_app, app_nil_r, app_assoc.
    repeat split. constructor. constructor.
Qed.

Lemma live_set_pending q c : live c -> live (set_pending q c).
Proof. intros (pc & ? & ?). exists pc. auto. Qed.

Lemma flush_next_live l : live (conn l) -> live (conn (flush_next l)).
Proof.
  intros H. rewrite (proj2 (flush_next_advances l)).
  destruct (pendingRemoteCandidates (conn l)); [exact H|].
  apply live_set_pending. exact H.
Qed.

Lemma flush_enter_advances l :
  advances l (flush_enter l) [] []
  /\ (live (conn l) -> live (conn (flush_enter l))).
Proof.
  unfold flush_enter. destruct (peerConnection (conn l)) as [pc|].
  - destruct (remoteDescription pc).
    + split; [apply flush_next_advances|apply flush_next_live].
    + split; [apply advances_refl|auto].
  - split; [apply advances_refl|auto].
Qed.


Lemma arrive_advances sg l :
  live (conn l) ->
  exists queued direct,
    Merge queued direct (arrived [Arrives sg])
    /\ advances l (arrive sg l) queued direct
    /\ live (conn (arrive sg l)).
Proof.
  intros Hl. pose proof Hl as (pc & Hpc & Hcl).
  destruct sg as [[d|]|[d|]|[d|]]; cbn [arrive arrived]; rewrite Hpc.
  - exists [], []. split; [constructor|]. split; [|exact Hl].
    apply advances_same; [reflexivity|].
    unfold handed_over, request. cbn [conn waiting].
    rewrite flat_map_carried_app, app_nil_r. reflexivity.
  - exists [], []. split; [constructor|]. split; [apply advances_refl|exact Hl].
  - exists [], []. split; [constructor|]. split; [|exact Hl].
    apply advances_same; [reflexivity|].
    unfold handed_over, request. cbn [conn waiting].
    rewrite flat_map_carried_app, app_nil_r. reflexivity.
  - exists [], []. split; [constructor|]. split; [apply advances_refl|exact Hl].
  - rewrite Hcl. destruct (lacks_remote_description pc).
    + exists [candidate d], []. split; [repeat constructor|]. split.
      * exists [], []. unfold handed_over, with_conn.
        cbn [conn waiting pendingRemoteCandidates set_pending app].
        rewrite app_nil_r. repeat split. constructor.
      * apply live_set_pending. exact Hl.
    + exists [], [candidate d]. split; [repeat constructor|]. split.
      * exists [], [candidate d]. unfold handed_over, request.
        cbn [conn waiting app carried].
        rewrite flat_map_carried_app, app_assoc, app_nil_r.
        repeat split. repeat constructor.
      * exact Hl.
  - rewrite Hcl. exists [], []. split; [constructor|].
    split; [apply advances_refl|exact Hl].
Qed.

(** What is left once the oldest request has been performed by an
    operation that is no [addIceCandidate]. *)
Lemma quiet_settles {A} (op : M Conn A) (a : Await) l rest
    (next : Completion A -> list Await) :
  quiet op -> live (conn l) -> waiting l = a :: rest -> carried a = [] ->
  (forall r, flat_map carried (next r) = []) ->
  let l' := {| conn := snd (op (conn l));
               waiting := rest ++ next (fst (op (conn l))) |} in
  advances l l' [] [] /\ live (conn l').
Proof.
  intros Hq Hl Hw Ha Hn l'. destruct (Hq (conn l) Hl) as (Hp & Hap & Hlive).
  split; [|exact Hlive].
  apply advances_same; [exact Hp|].
  unfold handed_over, l'. cbn [conn waiting].
  rewrite Hap, Hw, flat_map_app, Hn, app_nil_r. cbn [flat_map].
  rewrite Ha. reflexivity.
Qed.

Lemma settle_advances l :
  live (conn l) -> advances l (settle l) [] [] /\ live (conn (settle l)).
Proof.
  intros Hl. unfold settle.
  destruct (waiting l) as [|a rest] eqn:Hw; [split; [apply advances_refl|exact Hl]|].
  destruct a as [d| |ans|d|x|x]; cbv zeta.
  - pose proof (quiet_settles (pc_setRemoteDescription d) _ l rest
                  (fun r => match r with
                            | Returned _ => [OfferCreateAnswer]
                            | Thrown _ => []
                            end)
                  (quiet_setRemote d) Hl Hw eq_refl) as H.
    destruct (pc_setRemoteDescription d (conn l)) as [[u|e] c'];
      cbn [fst snd] in H; unfold request; cbn [conn waiting];
      rewrite ?app_nil_r in H; apply H; intros [|]; reflexivity.
  - pose proof (quiet_settles pc_createAnswer _ l rest
                  (fun r => match r with
                            | Returned ans => [OfferSetLocal ans]
                            | Thrown _ => []
                            end)
                  quiet_createAnswer Hl Hw eq_refl) as H.
    destruct (pc_createAnswer (conn l)) as [[u|e] c'];
      cbn [fst snd] in H; unfold request; cbn [conn waiting];
      rewrite ?app_nil_r in H; apply H; intros [|]; reflexivity.
  - pose proof (quiet_settles (pc_setLocalDescription ans) _ l rest
                  (fun _ => [])
                  (quiet_setLocal ans) Hl Hw eq_refl) as H.
    destruct (pc_setLocalDescription ans (conn l)) as [[u|e] c'];
      cbn [fst snd] in H; rewrite app_nil_r in H;
      destruct (H ltac:(reflexivity)) as [Hadv Hlive]; [|split; assumption].
    destruct (quiet_socket_emit (BAnswer ans) c' Hlive) as (Ep & Ea & El).
    set (l1 := {| conn := snd (socket_emit (BAnswer ans) c');
                  waiting := rest |}).
    assert (H1 : advances {| conn := c'; waiting := rest |} l1 [] []).
    { apply advances_same; [exact Ep|].
      unfold handed_over, l1. cbn [conn waiting]. rewrite Ea. reflexivity. }
    destruct (flush_enter_advances l1) as [H2 H3].
    split; [|apply H3; exact El].
    apply (advances_trans _ _ _ [] [] [] [] Hadv).
    apply (advances_trans _ _ _ [] [] [] [] H1 H2).
  - pose proof (quiet_settles (pc_setRemoteDescription d) _ l rest
                  (fun _ => [])
                  (quiet_setRemote d) Hl Hw eq_refl) as H.
    destruct (pc_setRemoteDescription d (conn l)) as [[u|e] c'];
      cbn [fst snd] in H; rewrite app_nil_r in H;
      destruct (H ltac:(reflexivity)) as [Hadv Hlive]; [|split; assumption].
    destruct (flush_enter_advances {| conn := c'; waiting := rest |})
      as [H2 H3].
    split; [|apply H3; exact Hlive].
    apply (advances_trans _ _ _ [] [] [] [] Hadv H2).
  - destruct (addIce_applies x (conn l) Hl) as (Ep & Ea & El).
    set (l1 := {| conn := snd (pc_addIceCandidate x (conn l));
                  waiting := rest |}).
    assert (H1 : advances l l1 [] []).
    { apply advances_same; [exact Ep|].
      unfold handed_over, l1. cbn [conn waiting].
      rewrite Ea, Hw, <- app_assoc. reflexivity. }
    split; [|apply flush_next_live; exact El].
    apply (advances_trans _ _ _ [] [] [] [] H1).
    apply flush_next_advances.
  - destruct (addIce_applies x (conn l) Hl) as (Ep & Ea & El).
    split; [|exact El].
    apply advances_same; [exact Ep|].
    unfold handed_over. cbn [conn waiting].
    rewrite Ea, Hw, <- app_assoc. reflexivity.
Qed.

(** Whichever way the handlers interleave, no candidate is lost and
    none is handed to the browser twice, and the queue keeps its order.
    Over any sequence of arrivals and settlements on a live session,
    each candidate that arrives is either queued or handed to the
    browser on arrival; the queue is handed over from its front, each
    queued candidate once; and what the browser is handed is exactly
    that: the candidates taken from the queue, in the order of the
    queue, interleaved with the candidates handed over on arrival, in
    the order of their arrival. *)
Theorem candidates_are_handed_over_once_and_in_queue_order
    (es : list LoopEvent) (l : Loop) :
  live (conn l) ->
  exists queued direct flushed new,
    Merge queued direct (arrived es)
    /\ flushed ++ pendingRemoteCandidates (conn (loop_run es l))
       = pendingRemoteCandidates (conn l) ++ queued
    /\ handed_over (loop_run es l) = handed_over l ++ new
    /\ Merge flushed direct new.
Proof.
  revert l. induction es as [|e es IH]; intros l Hl.
  - exists [], [], [], []. cbn. rewrite !app_nil_r.
    repeat split; constructor.
  - assert (Hstep : exists queued direct,
              Merge queued direct (arrived [e])
              /\ advances l (loop_step e l) queued direct
              /\ live (conn (loop_step e l))).
    { destruct e as [sg|]; [apply arrive_advances; exact Hl|].
      exists [], []. split; [constructor|]. apply settle_advances.
      exact Hl. }
    destruct Hstep as (q1 & d1 & M1 & A1 & L1).
    destruct (IH (loop_step e l) L1) as (q2 & d2 & f2 & n2 & M2 & P2 & H2 & N2).
    assert (A2 : advances (loop_step e l) (loop_run es (loop_step e l))
                   q2 d2)
      by (exists f2, n2; auto).
    destruct (advances_trans _ _ _ _ _ _ _ A1 A2) as (f & n & P & H & N).
    exists (q1 ++ q2), (d1 ++ d2), f, n.
    split; [|auto].
    change (e :: es) with ([e] ++ es). rewrite arrived_app.
    apply Merge_app; assumption.
Qed.

End WithBrowser.

(** *** Data channel I/O *)

Definition channel_usable (channel : option Channel) : Prop :=
  exists ch, channel = Some ch /\ readyState ch = Open.

(** C5.  [send] picks the reliable channel when [reliable] is true and the
    unreliable one otherwise.  It never throws.  It returns true exactly
    when the picked channel exists and is open, and then the only change
    is that the payload went out on that channel; in every other case it
    returns false and the session is left exactly as it was: nothing is
    sent and nothing is kept for later. *)
Theorem C5_send_fails_fast (c : Conn) (data : Payload) (rel : bool) :
  let channel := if rel then reliable c else unreliable c in
  let r := send data (Some rel) c in
  (exists b, fst r = Returned b)
  /\ (fst r = Returned true <-> channel_usable channel)
  /\ (forall ch, channel = Some ch -> readyState ch = Open ->
      snd r = emit_effect (ChannelSend (label ch) data) c)
  /\ (~ channel_usable channel -> r = (Returned false, c)).
Proof.
  unfold send, channel_usable.
  destruct rel; cbv zeta;
    [destruct (reliable c) as [ch|] | destruct (unreliable c) as [ch|]];
    try destruct (readyState ch) eqn:Hs; simpl;
    (split; [eexists; reflexivity|]);
    (split; [split; [try discriminate; intros _; eauto
                    | intros (x & Hx & Ho); try congruence]|]);
    (split; [intros x Hx Ho; try congruence|]);
    try (intros Hn; try reflexivity; exfalso; apply Hn; eauto).
Qed.

(** *** Teardown *)

Definition torn_down (ch : Channel) : Prop :=
  readyState ch = Closing \/ readyState ch = Closed.

Lemma channel_close_torn_down ch : torn_down (channel_close ch).
Proof.
  unfold torn_down, channel_close.
  destruct (readyState ch) eqn:H; simpl; auto.
Qed.

Lemma channel_close_label ch : label (channel_close ch) = label ch.
Proof. unfold channel_close. destruct (readyState ch); reflexivity. Qed.

Lemma channel_close_idem ch :
  channel_close (channel_close ch) = channel_close ch.
Proof.
  unfold channel_close. destruct (readyState ch) eqn:H; simpl;
    rewrite ?H; reflexivity.
Qed.

(** C6.  [close] never throws and closing again changes nothing: the
    session after two calls is the session after one.  [close] tears
    down what the session holds: a data channel the session held is
    still held and is closing or closed, under its label, and the peer
    connection it held is still held and is closed.  The connected
    flag is off.  Neither call emits an event, and the channels' own
    close notifications arriving later leave the session as it is. *)
Theorem C6_close_is_idempotent (c : Conn) :
  let once := close c in
  let twice := close (snd once) in
  fst once = Returned tt /\ fst twice = Returned tt
  /\ snd twice = snd once
  /\ effects (snd twice) = effects c
  /\ isConnected (snd once) = false
  /\ (forall ch, reliable c = Some ch ->
        exists ch', reliable (snd once) = Some ch'
                    /\ torn_down ch' /\ label ch' = label ch)
  /\ (forall ch, unreliable c = Some ch ->
        exists ch', unreliable (snd once) = Some ch'
                    /\ torn_down ch' /\ label ch' = label ch)
  /\ (forall pc, peerConnection c = Some pc ->
        exists pc', peerConnection (snd once) = Some pc'
                    /\ signalingClosed pc' = true
                    /\ (signalingClosed pc = false ->
                        connectionState pc' = CsClosed))
  /\ (forall ch, reliable (snd once) = Some ch
                 \/ unreliable (snd once) = Some ch -> torn_down ch)
  /\ (forall pc, peerConnection (snd once) = Some pc ->
                 signalingClosed pc = true)
  /\ (forall lbl, channel_onclose lbl (snd once)
                  = (Returned tt, snd once)).
Proof.
  destruct c as [pc r u ic ii oi ou ri ice q ef].
  unfold close, bind, modify, pc_close; cbv zeta; simpl.
  split; [reflexivity|]. split; [reflexivity|].
  split.
  { destruct pc as [pc|]; simpl.
    - destruct (signalingClosed pc) eqn:Hs; simpl; rewrite ?Hs; simpl.
      + destruct r, u; simpl; rewrite ?channel_close_idem; reflexivity.
      + destruct r, u; reflexivity.
    - destruct r, u; simpl; rewrite ?channel_close_idem; reflexivity. }
  split.
  { destruct pc as [pc|]; simpl; [|reflexivity].
    destruct (signalingClosed pc) eqn:Hs; simpl; rewrite ?Hs; reflexivity. }
  split.
  { destruct pc as [pc|]; simpl; [|reflexivity].
    destruct (signalingClosed pc); reflexivity. }
  split.
  { intros ch ->. destruct pc as [pc|]; simpl.
    - destruct (signalingClosed pc); simpl; eexists;
        (split; [reflexivity|]); split;
        first [apply channel_close_torn_down | right; reflexivity
              | apply channel_close_label | reflexivity].
    - eexists. split; [reflexivity|]. split;
        [apply channel_close_torn_down | apply channel_close_label]. }
  split.
  { intros ch ->. destruct pc as [pc|]; simpl.
    - destruct (signalingClosed pc); simpl; eexists;
        (split; [reflexivity|]); split;
        first [apply channel_close_torn_down | right; reflexivity
              | apply channel_close_label | reflexivity].
    - eexists. split; [reflexivity|]. split;
        [apply channel_close_torn_down | apply channel_close_label]. }
  split.
  { intros pc0 ->. simpl.
    destruct (signalingClosed pc0) eqn:Hs; simpl; eexists;
      (split; [reflexivity|]); split;
      first [exact Hs | reflexivity | discriminate | intros _; reflexivity]. }
  split.
  { intros ch. destruct pc as [pc|]; simpl.
    - destruct (signalingClosed pc); simpl;
        destruct r, u; simpl; intros [H|H]; try discriminate;
        injection H as <-;
        first [apply channel_close_torn_down | right; reflexivity].
    - destruct r, u; simpl; intros [H|H]; try discriminate;
        injection H as <-; apply channel_close_torn_down. }
  split.
  { intros pc'. destruct pc as [pc|]; simpl; [|discriminate].
    destruct (signalingClosed pc) eqn:Hs; simpl; intros H;
      injection H as <-; [exact Hs | reflexivity]. }
  intros lbl. unfold channel_onclose, modify, ret.
  destruct (String.eqb lbl "game_reliable"); [|reflexivity].
  destruct pc as [pc|]; simpl; [|reflexivity].
  destruct (signalingClosed pc); reflexivity.
Qed.

(** *** Two browsers and a responder to run the handlers on *)

Definition offer0 : Description :=
  {| sdp_type := SdpOffer; sdp := "v=0 o=a" |}.
Definition answer0 : Description :=
  {| sdp_type := SdpAnswer; sdp := "v=0 o=b" |}.

(** Every promise resolves. *)
Definition cooperative : Browser :=
  {| createOffer_result := fun _ => Some offer0;
     createAnswer_result := fun _ => Some answer0;
     setLocalDescription_ok := fun _ _ => true;
     setRemoteDescription_ok := fun _ _ => true;
     addIceCandidate_ok := fun _ _ => true |}.

(** [createAnswer] rejects; everything else resolves. *)
Definition answerless : Browser :=
  {| createOffer_result := fun _ => Some offer0;
     createAnswer_result := fun _ => None;
     setLocalDescription_ok := fun _ _ => true;
     setRemoteDescription_ok := fun _ _ => true;
     addIceCandidate_ok := fun _ _ => true |}.

Definition responder_config : Config :=
  {| cfg_isInitiator := false;
     cfg_opponentId := Some "peer-a";
     cfg_opponentUid := Some "peer-a";
     cfg_roomId := Some "local-room";
     cfg_iceServers := ["stun:stun.l.google.com:19302";
                        "stun:stun1.l.google.com:19302"] |}.

(** A responder right after [initialize]. *)
Definition responder0 : Conn :=
  snd (@initialize cooperative responder_config new_LocalGameConnection).

Definition ice (x : Candidate) : Signal :=
  SigCandidate (Some {| candidate := x |}).

Lemma responder0_awaits : awaiting_description responder0.
Proof. eexists. repeat split; reflexivity. Defined.

Lemma queue_flushed_in_order_one_signal_at_a_time_witness :
  let c1 := @receive_candidates cooperative ["c1"; "c2"; "c3"] responder0 in
  let c2 := @deliver cooperative (SigOffer (Some {| offer := offer0 |})) c1 in
  let c3 := @deliver_all cooperative
              [ice "c4"; SigOffer (Some {| offer := offer0 |}); ice "c5"]
              c2 in
  awaiting_description responder0
  /\ pendingRemoteCandidates c1 = ["c1"; "c2"; "c3"]
  /\ applied c1 = []
  /\ description_installed (SigOffer (Some {| offer := offer0 |})) c1 c2
  /\ applied c2 = ["c1"; "c2"; "c3"]
  /\ pendingRemoteCandidates c2 = []
  /\ applied c3 = ["c1"; "c2"; "c3"; "c4"; "c5"]
  /\ pendingRemoteCandidates c3 = [].
Proof.
  intros c1 c2 c3.
  assert (Hin : description_installed
                  (SigOffer (Some {| offer := offer0 |})) c1 c2).
  { exists answer0, (Some "peer-a"), (Some "peer-a"). reflexivity. }
  destruct (@queue_flushed_in_order_one_signal_at_a_time cooperative
              responder0 ["c1"; "c2"; "c3"]
              (SigOffer (Some {| offer := offer0 |}))
              [ice "c4"; SigOffer (Some {| offer := offer0 |}); ice "c5"]
              responder0_awaits)
    as (_ & [Hq1 Ha1] & Hrest).
  destruct (Hrest Hin) as [[Ha2 Hq2] [Ha3 Hq3]].
  repeat split; try assumption.
  apply responder0_awaits.
Defined.

Definition offer_signal : Signal := SigOffer (Some {| offer := offer0 |}).

Lemma candidates_are_handed_over_once_and_in_queue_order_witness :
  let es := [Arrives (ice "c1"); Arrives offer_signal; Settles;
             Arrives (ice "c2"); Settles; Settles; Settles; Settles] in
  live (conn (idle responder0))
  /\ exists queued direct flushed new,
       Merge queued direct (arrived es)
       /\ flushed
            ++ pendingRemoteCandidates
                 (conn (@loop_run cooperative es (idle responder0)))
          = pendingRemoteCandidates (conn (idle responder0)) ++ queued
       /\ handed_over (@loop_run cooperative es (idle responder0))
          = handed_over (idle responder0) ++ new
       /\ Merge flushed direct new.
Proof.
  assert (H : live (conn (idle responder0)))
    by (eexists; split; reflexivity).
  split; [exact H|].
  apply (@candidates_are_handed_over_once_and_in_queue_order cooperative).
  exact H.
Defined.

(** C2 fails on [handleOffer]: the queue is not drained when the remote
    description has been set, but at the end of the handler, behind
    the [await]s for the answer.  A responder has queued candidate c1
    when the offer arrives.  Once the browser has installed the offer,
    the session has its remote description, c1 is still queued and the
    handler waits for [createAnswer].  Candidate c2 arrives now, finds
    the description and is requested at once; the browser applies it
    while the handler still waits, and c1 only when the answer has
    been sent: c2 is applied before c1.  With a browser whose
    [createAnswer] rejects, the handler ends without the flush: c1
    stays queued for good although the description is set, and c2 is
    applied. *)
Theorem C2_offer_queue_is_flushed_late_or_never :
  let start := idle responder0 in
  let installed :=
    @loop_run cooperative
      [Arrives (ice "c1"); Arrives offer_signal; Settles] start in
  let overtaking := @loop_run cooperative [Arrives (ice "c2")] installed in
  let settled :=
    @loop_run cooperative [Settles; Settles; Settles; Settles] overtaking in
  let unanswered :=
    @loop_run answerless
      [Arrives (ice "c1"); Arrives offer_signal; Settles; Settles;
       Arrives (ice "c2"); Settles] start in
  (has_remote_description (conn installed) = true
   /\ pendingRemoteCandidates (conn installed) = ["c1"]
   /\ applied (conn installed) = []
   /\ waiting installed = [OfferCreateAnswer])
  /\ (waiting overtaking = [OfferCreateAnswer; CandidateAddIce "c2"]
      /\ pendingRemoteCandidates (conn overtaking) = ["c1"])
  /\ (applied (conn settled) = ["c2"; "c1"]
      /\ pendingRemoteCandidates (conn settled) = []
      /\ waiting settled = []
      /\ effects (conn settled)
         = [SocketEmit (BAnswer answer0) (Some "peer-a") (Some "peer-a")])
  /\ (has_remote_description (conn unanswered) = true
      /\ waiting unanswered = []
      /\ pendingRemoteCandidates (conn unanswered) = ["c1"]
      /\ applied (conn unanswered) = ["c2"]
      /\ effects (conn unanswered) = []).
Proof.
  cbv zeta. repeat split; vm_compute; reflexivity.
Qed.

End SessionFacts.

(** ** The relay server: pairing, disconnects, no self-pairing *)

Module RelayFacts.
Import Relay.

(** Identities are unique per connection. *)
Definition unique_ids (s : Server) : Prop := NoDup (map id (clients s)).

Lemma eqb_false (a b : string) : a <> b -> String.eqb a b = false.
Proof. apply String.eqb_neq. Qed.

Lemma find_id_In (p : Client -> bool) l c :
  find p l = Some c -> In c l /\ p c = true.
Proof. apply find_some. Qed.

Lemma same_id_same_object l a b :
  NoDup (map id l) -> In a l -> In b l -> id a = id b -> a = b.
Proof.
  induction l as [|x l IH]; simpl; intros Hnd Ha Hb Hab; [tauto|].
  inversion Hnd as [|? ? Hnotin Hnd']; subst.
  destruct Ha as [<-|Ha], Hb as [<-|Hb]; auto.
  - exfalso. apply Hnotin. rewrite Hab. apply in_map. exact Hb.
  - exfalso. apply Hnotin. rewrite <- Hab. apply in_map. exact Ha.
Qed.

Lemma object_id i s c : object i s = Some c -> id c = i.
Proof.
  unfold object. intros H. apply find_some in H as [_ H].
  apply String.eqb_eq. exact H.
Qed.

Lemma object_In i s c : object i s = Some c -> In c (clients s).
Proof. unfold object. intros H. apply find_some in H as [H _]. exact H. Qed.

Lemma In_object l c :
  NoDup (map id l) -> In c l ->
  find (fun x => String.eqb (id x) (id c)) l = Some c.
Proof.
  induction l as [|x l IH]; simpl; intros Hnd Hin; [tauto|].
  inversion Hnd as [|? ? Hnotin Hnd']; subst.
  destruct Hin as [->|Hin].
  - rewrite String.eqb_refl. reflexivity.
  - destruct (String.eqb_spec (id x) (id c)) as [E|_]; [|auto].
    exfalso. apply Hnotin. rewrite E. apply in_map. exact Hin.
Qed.

(** With unique identities [clients.get] returns the object itself. *)
Lemma clients_get_object i s c :
  unique_ids s -> clients_get i s = Some c ->
  object i s = Some c /\ inMap c = true.
Proof.
  unfold clients_get, unique_ids. intros Hnd H.
  apply find_some in H as [Hin Hp].
  apply andb_prop in Hp as [Hid Hm]. apply String.eqb_eq in Hid.
  split; [|exact Hm]. unfold object. rewrite <- Hid.
  apply In_object; assumption.
Qed.

Lemma update_same i f l c :
  find (fun x => String.eqb (id x) i) l = Some c ->
  id (f c) = id c ->
  find (fun x => String.eqb (id x) i) (update i f l) = Some (f c).
Proof.
  induction l as [|x l IH]; simpl; [discriminate|].
  destruct (String.eqb (id x) i) eqn:E; intros H Hf.
  - injection H as <-. simpl. rewrite Hf, E. reflexivity.
  - simpl. rewrite E. apply IH; assumption.
Qed.

Lemma update_other i j f l :
  i <> j -> (forall c, id (f c) = id c) ->
  find (fun x => String.eqb (id x) j) (update i f l)
  = find (fun x => String.eqb (id x) j) l.
Proof.
  intros Hij Hf. induction l as [|x l IH]; simpl; [reflexivity|].
  destruct (String.eqb (id x) i) eqn:E; simpl.
  - rewrite Hf. apply String.eqb_eq in E.
    rewrite E, (eqb_false i j Hij). reflexivity.
  - destruct (String.eqb (id x) j); [reflexivity|exact IH].
Qed.

Lemma update_ids i f l :
  (forall c, id (f c) = id c) -> map id (update i f l) = map id l.
Proof.
  intros Hf. induction l as [|x l IH]; simpl; [reflexivity|].
  destruct (String.eqb (id x) i); simpl; rewrite ?Hf, ?IH; reflexivity.
Qed.

Lemma object_mutate_same i f s c :
  object i s = Some c -> id (f c) = id c ->
  object i (mutate i f s) = Some (f c).
Proof. apply update_same. Qed.

Lemma object_mutate_other i j f s :
  i <> j -> (forall c, id (f c) = id c) ->
  object j (mutate i f s) = object j s.
Proof. apply update_other. Qed.

Lemma send_if_open_eq i m s c :
  object i s = Some c ->
  send_if_open i m s = if is_open c then ws_send i m s else s.
Proof. unfold send_if_open. intros ->. reflexivity. Qed.

Definition match_found (r : Role) (opp : ClientId) (initiator : bool)
  : ServerMsg :=
  MsgMatchFound "local-room" (Some r) (Some opp) (Some initiator)
    iceServers.

(** A message goes out only on an open socket. *)
Definition to_open (c : Client) (m : ServerMsg)
  : list (ClientId * ServerMsg) :=
  if is_open c then [(id c, m)] else [].

Lemma assign_id r b o c : id (assign r b o c) = id c.
Proof. reflexivity. Qed.

(** [handleFindMatch] when another connection waits. *)
Lemma findMatch_pairs s caller cc w cw :
  unique_ids s ->
  clients_get caller s = Some cc ->
  waitingClient s = Some w -> w <> caller ->
  object w s = Some cw ->
  handleFindMatch caller s
  = {| clients := update caller (assign RoleB false w)
                    (update w (assign RoleA true caller) (clients s));
       waitingClient := None;
       sent := sent s ++ to_open cw (match_found RoleA caller true)
                      ++ to_open cc (match_found RoleB w false) |}.
Proof.
  intros Hu Hget Hw Hne Hobj.
  destruct (clients_get_object _ _ _ Hu Hget) as [Hcc _].
  pose proof (object_id _ _ _ Hobj) as Hidw.
  pose proof (object_id _ _ _ Hcc) as Hidc.
  unfold handleFindMatch. rewrite Hw, (eqb_false _ _ Hne). simpl.
  set (s1 := mutate w (assign RoleA true caller) s).
  set (s2 := mutate caller (assign RoleB false w) s1).
  assert (Hw2 : object w s2 = Some (assign RoleA true caller cw)).
  { unfold s2. rewrite object_mutate_other by (auto using assign_id).
    unfold s1. apply object_mutate_same; auto. }
  assert (Hc2 : object caller s2 = Some (assign RoleB false w cc)).
  { unfold s2. apply object_mutate_same; [|reflexivity].
    unfold s1. rewrite object_mutate_other by (auto using assign_id).
    exact Hcc. }
  assert (Hmw : match_found_for w s2 = match_found RoleA caller true)
    by (unfold match_found_for; rewrite Hw2; reflexivity).
  assert (Hmc : forall m, match_found_for caller (ws_send w m s2)
                          = match_found RoleB w false).
  { intros m. unfold match_found_for.
    change (object caller (ws_send w m s2)) with (object caller s2).
    rewrite Hc2. reflexivity. }
  assert (Hmc' : match_found_for caller s2 = match_found RoleB w false)
    by (unfold match_found_for; rewrite Hc2; reflexivity).
  rewrite (send_if_open_eq w _ s2 _ Hw2), Hmw.
  unfold to_open. rewrite Hidw, Hidc.
  change (is_open (assign RoleA true caller cw)) with (is_open cw).
  destruct (is_open cw).
  - rewrite Hmc. erewrite (send_if_open_eq caller) by exact Hc2.
    change (is_open (assign RoleB false w cc)) with (is_open cc).
    destruct (is_open cc); unfold set_waiting, ws_send; simpl;
      rewrite <- ?app_assoc, ?app_nil_r; reflexivity.
  - rewrite Hmc'. rewrite (send_if_open_eq caller _ _ _ Hc2).
    change (is_open (assign RoleB false w cc)) with (is_open cc).
    destruct (is_open cc); unfold set_waiting, ws_send; simpl;
      rewrite ?app_nil_r; reflexivity.
Qed.

(** [handleFindMatch] when nobody else waits. *)
Lemma findMatch_waits s caller cc :
  unique_ids s ->
  clients_get caller s = Some cc ->
  waitingClient s = None \/ waitingClient s = Some caller ->
  handleFindMatch caller s
  = {| clients := clients s;
       waitingClient := Some caller;
       sent := sent s ++ to_open cc MsgWaiting |}.
Proof.
  intros Hu Hget Hw.
  destruct (clients_get_object _ _ _ Hu Hget) as [Hcc _].
  pose proof (object_id _ _ _ Hcc) as Hidc.
  assert (E : handleFindMatch caller s
              = send_if_open caller MsgWaiting
                  (set_waiting (Some caller) s)).
  { unfold handleFindMatch. destruct Hw as [->| ->]; [reflexivity|].
    rewrite String.eqb_refl. reflexivity. }
  rewrite E. rewrite (send_if_open_eq caller _ _ cc) by exact Hcc.
  unfold to_open. rewrite Hidc.
  destruct (is_open cc); unfold ws_send, set_waiting; simpl;
    rewrite ?app_nil_r; reflexivity.
Qed.

(** Every event of [es] can be delivered when its turn comes. *)
Fixpoint deliverable (es : list Event) (s : Server) : Prop :=
  match es with
  | [] => True
  | e :: es' => enabled e s /\ deliverable es' (step e s)
  end.

Lemma reachable_run es : forall s,
  reachable s -> deliverable es s -> reachable (run es s).
Proof.
  induction es as [|e es IH]; intros s Hs Hd; simpl in *; [exact Hs|].
  destruct Hd as [He Hd]. apply IH; [apply reach_step; assumption|exact Hd].
Qed.

(** The arrivals P1, P2, P3 of the pairing scenario, then P4. *)
Definition three_arrivals (p1 p2 p3 : ClientId) : list Event :=
  [Connected p1; Received p1 FindMatch;
   Connected p2; Received p2 FindMatch;
   Connected p3; Received p3 FindMatch].

Definition fourth_arrival (p4 : ClientId) : list Event :=
  [Connected p4; Received p4 FindMatch].

Ltac distinct_ids H :=
  repeat match type of H with
    | NoDup (_ :: _) =>
        let Hn := fresh "Hn" in
        let H' := fresh "Hd" in
        inversion H as [|? ? Hn H']; subst; clear H; rename H' into H;
        simpl in Hn
    end.

Ltac ids_neq :=
  match goal with
  | |- ?a <> ?b => let E := fresh in intros E; subst; tauto
  end.

Ltac eqb_norm_in E :=
  repeat first
    [ rewrite String.eqb_refl in E
    | match type of E with
      | context [String.eqb ?a ?b] =>
          rewrite (eqb_false a b) in E by ids_neq
      end ].

Ltac step_once :=
  match goal with
  | |- context [step ?e (Build_Server ?c ?w ?x)] =>
      let E := fresh "E" in
      let r := fresh "r" in
      remember (step e (Build_Server c w x)) as r eqn:E;
      unfold step, on_connection, on_message, clients_get, handleFindMatch,
        send_if_open, match_found_for, object, mutate, set_clients,
        set_waiting, ws_send, is_open in E;
      repeat (cbn in E; eqb_norm_in E);
      subst r
  end.

Ltac eqb_norm :=
  repeat first
    [ rewrite String.eqb_refl
    | match goal with
      | |- context [String.eqb ?a ?b] =>
          rewrite (eqb_false a b) by ids_neq
      end ].

Lemma pairing_scenario p1 p2 p3 p4 :
  NoDup [p1; p2; p3; p4] ->
  let s3 := run (three_arrivals p1 p2 p3) init in
  let s4 := run (fourth_arrival p4) s3 in
  deliverable (three_arrivals p1 p2 p3 ++ fourth_arrival p4) init
  /\ waitingClient s3 = Some p3
  /\ received_by p1 s3 = [MsgClientId p1; MsgWaiting;
                          match_found RoleA p2 true]
  /\ received_by p2 s3 = [MsgClientId p2; match_found RoleB p1 false]
  /\ received_by p3 s3 = [MsgClientId p3; MsgWaiting]
  /\ waitingClient s4 = None
  /\ received_by p3 s4 = [MsgClientId p3; MsgWaiting;
                          match_found RoleA p4 true]
  /\ received_by p4 s4 = [MsgClientId p4; match_found RoleB p3 false]
  /\ received_by p1 s4 = received_by p1 s3
  /\ received_by p2 s4 = received_by p2 s3.
Proof.
  intros Hnd. distinct_ids Hnd.
  cbv zeta. unfold three_arrivals, fourth_arrival, run, init.
  cbn [fold_left app deliverable].
  repeat step_once.
  unfold enabled, socket_state, object, received_by, match_found.
  repeat (cbn; eqb_norm).
  repeat split; reflexivity.
Qed.

(** C3, with the sends guarded by the socket state.  When another
    connection holds the waiting slot,
    find-match pairs the caller with it: the waiting connection becomes
    initiator (role A) with the caller as opponent, the caller becomes
    responder (role B) with the waiting connection as opponent, no other
    client is touched, the slot is cleared, and each of the two is sent
    its match-found message, the waiting connection first, provided its
    socket is open; a socket that is not open is sent nothing.  When
    nobody waits, the caller takes the slot, no client changes, and the
    caller is sent a waiting reply if its socket is open.  For arrivals
    P1, P2, P3, P4 on open sockets: after P3 the pair P1/P2 is matched
    and P3 waits; P4 is then paired with P3 as its responder, and P1 and
    P2 hear nothing more. *)
Theorem C3_find_match_pairs_or_waits :
  (forall s caller cc,
     unique_ids s -> clients_get caller s = Some cc ->
     let s' := handleFindMatch caller s in
     (forall w cw,
        waitingClient s = Some w -> w <> caller -> object w s = Some cw ->
        waitingClient s' = None
        /\ object w s' = Some (assign RoleA true caller cw)
        /\ object caller s' = Some (assign RoleB false w cc)
        /\ (forall j, j <> w -> j <> caller -> object j s' = object j s)
        /\ sent s' = sent s ++ to_open cw (match_found RoleA caller true)
                            ++ to_open cc (match_found RoleB w false))
     /\ (waitingClient s = None ->
         waitingClient s' = Some caller
         /\ clients s' = clients s
         /\ sent s' = sent s ++ to_open cc MsgWaiting))
  /\ (forall p1 p2 p3 p4,
        NoDup [p1; p2; p3; p4] ->
        let s3 := run (three_arrivals p1 p2 p3) init in
        let s4 := run (fourth_arrival p4) s3 in
        waitingClient s3 = Some p3
        /\ received_by p3 s3 = [MsgClientId p3; MsgWaiting]
        /\ waitingClient s4 = None
        /\ received_by p3 s4 = [MsgClientId p3; MsgWaiting;
                                match_found RoleA p4 true]
        /\ received_by p4 s4 = [MsgClientId p4;
                                match_found RoleB p3 false]
        /\ received_by p1 s4 = received_by p1 s3
        /\ received_by p2 s4 = received_by p2 s3).
Proof.
  split.
  - intros s caller cc Hu Hget s'. split.
    + intros w cw Hw Hne Hobj.
      destruct (clients_get_object _ _ _ Hu Hget) as [Hcc _].
      unfold s'. rewrite (findMatch_pairs s caller cc w cw) by assumption.
      unfold object; simpl. repeat split.
      * rewrite update_other by (auto using assign_id).
        apply update_same; [exact Hobj | reflexivity].
      * apply update_same; [|reflexivity].
        rewrite update_other by (auto using assign_id). exact Hcc.
      * intros j Hjw Hjc.
        rewrite !update_other by (auto using assign_id). reflexivity.
    + intros Hw. unfold s'.
      rewrite (findMatch_waits s caller cc) by auto.
      simpl. auto.
  - intros p1 p2 p3 p4 Hnd.
    destruct (pairing_scenario p1 p2 p3 p4 Hnd)
      as (_ & H1 & _ & _ & H2 & H3 & H4 & H5 & H6 & H7).
    cbv zeta. repeat split; assumption.
Qed.

(** Two clients "a" and "b", "a" waiting on an open socket. *)
Definition a_waits : Server :=
  run [Connected "a"; Received "a" FindMatch; Connected "b"] init.

Lemma C3_find_match_pairs_or_waits_witness :
  let s' := handleFindMatch "b" a_waits in
  unique_ids a_waits
  /\ waitingClient s' = None
  /\ received_by "a" s' = [MsgClientId "a"; MsgWaiting;
                           match_found RoleA "b" true]
  /\ received_by "b" s' = [MsgClientId "b"; match_found RoleB "a" false]
  /\ sent s' = sent a_waits ++ [("a", match_found RoleA "b" true);
                                ("b", match_found RoleB "a" false)].
Proof.
  assert (Hu : unique_ids a_waits).
  { unfold unique_ids. simpl. repeat constructor; simpl; intuition discriminate. }
  destruct C3_find_match_pairs_or_waits as [Hpair _].
  destruct (Hpair a_waits "b"
              {| id := "b"; inMap := true; readyState := WsOpen;
                 role := None; isInitiator := None; opponentId := None |}
              Hu eq_refl) as [Hp _].
  destruct (Hp "a"
              {| id := "a"; inMap := true; readyState := WsOpen;
                 role := None; isInitiator := None; opponentId := None |}
              eq_refl ltac:(discriminate) eq_refl)
    as (Hw & _ & _ & _ & Hs).
  cbv zeta. split; [exact Hu|]. split; [exact Hw|].
  split; [reflexivity|]. split; [reflexivity|]. exact Hs.
Defined.

(** C3 as stated fails when the waiting socket is no longer open: "a"
    waits, its socket starts closing, "b" asks for a match.  The two are
    paired and the slot is cleared, but "a" is not sent a match-found
    message. *)
Lemma C3_counterexample_waiting_socket_closing :
  let s := run [Connected "a"; Received "a" FindMatch; Closing "a";
                Connected "b"] init in
  let s' := step (Received "b" FindMatch) s in
  reachable s
  /\ enabled (Received "b" FindMatch) s
  /\ waitingClient s = Some "a"
  /\ waitingClient s' = None
  /\ option_map opponentId (object "a" s') = Some (Some "b")
  /\ option_map opponentId (object "b" s') = Some (Some "a")
  /\ received_by "b" s' = [MsgClientId "b"; match_found RoleB "a" false]
  /\ received_by "a" s' = [MsgClientId "a"; MsgWaiting]
  /\ ~ In (match_found RoleA "b" true) (received_by "a" s').
Proof.
  cbv zeta. split.
  { apply reachable_run; [apply reach_init|].
    simpl. repeat split; reflexivity. }
  repeat split; try reflexivity.
  simpl. intros [H|[H|[]]]; discriminate H.
Qed.

(** *** Invariants of the reachable states *)

Definition not_own_opponent (c : Client) : Prop :=
  opponentId c <> Some (id c).

Definition open_is_listed (c : Client) : Prop :=
  is_open c = true -> inMap c = true.

Lemma update_Forall (P : Client -> Prop) i f l :
  Forall P l ->
  (forall c, P c -> id c = i -> P (f c)) ->
  Forall P (update i f l).
Proof.
  intros Hl Hf. induction Hl as [|x l Hx Hl IH]; simpl; [constructor|].
  destruct (String.eqb_spec (id x) i) as [E|_]; constructor; auto.
Qed.

Lemma clients_send_if_open i m s :
  clients (send_if_open i m s) = clients s.
Proof.
  unfold send_if_open. destruct (object i s) as [c|]; [|reflexivity].
  destruct (is_open c); reflexivity.
Qed.

(** The clients after a step: either as before, or one object changed by
    a function that keeps the identity, or two objects paired, or one
    fresh object added. *)
Inductive clients_change (l : list Client) : list Client -> Prop :=
| change_none : clients_change l l
| change_flag i f :
    (forall c, id (f c) = id c /\ opponentId (f c) = opponentId c
               /\ (is_open (f c) = true ->
                   is_open c = true /\ inMap (f c) = inMap c)) ->
    clients_change l (update i f l)
| change_pair w i :
    w <> i ->
    clients_change l
      (update i (assign RoleB false w) (update w (assign RoleA true i) l))
| change_new i :
    ~ In i (map id l) ->
    clients_change l
      (l ++ [{| id := i; inMap := true; readyState := WsOpen;
                role := None; isInitiator := None; opponentId := None |}]).

Lemma clients_handleFindMatch i s :
  clients_change (clients s) (clients (handleFindMatch i s)).
Proof.
  unfold handleFindMatch.
  destruct (waitingClient s) as [w|].
  - destruct (String.eqb_spec w i) as [E|E]; simpl.
    + rewrite clients_send_if_open. constructor.
    + rewrite !clients_send_if_open. simpl. apply change_pair. exact E.
  - rewrite clients_send_if_open. constructor.
Qed.

Lemma clients_handleSignal i d s : clients (handleSignal i d s) = clients s.
Proof.
  unfold handleSignal.
  destruct (clients_get i s) as [c|]; [|reflexivity].
  destruct (opponentId c) as [[|a o]|]; try reflexivity.
  destruct (clients_find _ s) as [o'|]; [|reflexivity].
  destruct (is_open o'); reflexivity.
Qed.

Lemma clients_on_close i s :
  clients (on_close i s) = update i (set_inMap false) (clients s).
Proof.
  unfold on_close. cbv zeta.
  destruct (waitingClient s) as [w|]; [destruct (String.eqb w i)|];
    simpl;
    match goal with
    | |- context [clients_get i ?t] =>
        destruct (clients_get i t) as [c|]; [|reflexivity];
        destruct (role c) as [r|]; [|reflexivity];
        destruct (clients_find _ t) as [o|]; [|reflexivity];
        destruct (is_open o); reflexivity
    end.
Qed.

Lemma object_None_fresh i s :
  object i s = None -> ~ In i (map id (clients s)).
Proof.
  unfold object. intros H Hin. apply in_map_iff in Hin as (c & Hc & Hin).
  apply (find_none _ _ H) in Hin. rewrite Hc, String.eqb_refl in Hin.
  discriminate.
Qed.

Lemma update_twice i f g l :
  (forall c, id (f c) = id c) ->
  update i g (update i f l) = update i (fun c => g (f c)) l.
Proof.
  intros Hf. induction l as [|x l IH]; simpl; [reflexivity|].
  destruct (String.eqb (id x) i) eqn:E; simpl.
  - rewrite Hf, E. reflexivity.
  - rewrite E, IH. reflexivity.
Qed.

Lemma step_clients e s :
  enabled e s -> clients_change (clients s) (clients (step e s)).
Proof.
  destruct e as [i|i m|i|i|i]; intros He.
  - apply change_new. apply object_None_fresh. exact He.
  - unfold step, on_message. destruct m; try constructor;
      destruct (clients_get i s); try constructor.
    + apply clients_handleFindMatch.
    + rewrite clients_handleSignal. constructor.
  - apply change_flag. intros c. repeat split; discriminate.
  - unfold step. rewrite clients_on_close.
    unfold mutate, set_clients. cbn [clients].
    rewrite update_twice by reflexivity.
    apply change_flag. intros c. repeat split; discriminate.
  - unfold step, on_error, mutate, set_clients. cbn [clients].
    rewrite update_twice by reflexivity.
    apply change_flag. intros c. repeat split; discriminate.
Qed.

Definition well_formed (s : Server) : Prop :=
  unique_ids s
  /\ Forall not_own_opponent (clients s)
  /\ Forall open_is_listed (clients s).

Lemma change_well_formed l l' :
  clients_change l l' ->
  NoDup (map id l) /\ Forall not_own_opponent l /\ Forall open_is_listed l ->
  NoDup (map id l') /\ Forall not_own_opponent l'
  /\ Forall open_is_listed l'.
Proof.
  intros Hc (Hu & Hn & Ho). destruct Hc as [|i f Hf|w i Hwi|i Hfresh].
  - auto.
  - split; [|split].
    + rewrite update_ids; [exact Hu | intros c; apply Hf].
    + apply update_Forall; [exact Hn|].
      intros c Hc _. unfold not_own_opponent in *.
      destruct (Hf c) as (-> & -> & _). exact Hc.
    + apply update_Forall; [exact Ho|].
      intros c Hc _ Hopen. destruct (Hf c) as (_ & _ & H).
      destruct (H Hopen) as [H1 ->]. apply Hc. exact H1.
  - split; [|split].
    + rewrite !update_ids by reflexivity. exact Hu.
    + apply update_Forall; [apply update_Forall; [exact Hn|]|].
      * intros c _ Hid. unfold not_own_opponent; simpl.
        rewrite Hid. intros E; injection E as E. apply Hwi. auto.
      * intros c _ Hid. unfold not_own_opponent; simpl.
        rewrite Hid. intros E; injection E as E. apply Hwi. auto.
    + apply update_Forall; [apply update_Forall; [exact Ho|]|];
        intros c Hc _; exact Hc.
  - split; [|split].
    + rewrite map_app. simpl. apply NoDup_app; [exact Hu| |].
      * repeat constructor. intros [].
      * intros x Hx [<-|[]]. contradiction.
    + apply Forall_app. split; [exact Hn|].
      repeat constructor. discriminate.
    + apply Forall_app. split; [exact Ho|].
      repeat constructor.
Qed.

Lemma reachable_well_formed s : reachable s -> well_formed s.
Proof.
  induction 1 as [|s e Hs IH He].
  - repeat split; constructor.
  - apply (change_well_formed (clients s)); [|exact IH].
    apply step_clients. exact He.
Qed.

Lemma find_strengthen (p q : Client -> bool) l c :
  find p l = Some c -> q c = true ->
  find (fun x => p x && q x) l = Some c.
Proof.
  induction l as [|x l IH]; simpl; [discriminate|].
  destruct (p x) eqn:E; simpl.
  - intros H Hq. injection H as ->. rewrite Hq. reflexivity.
  - auto.
Qed.

(** In a reachable state a message from [i] finds [i] in the Map. *)
Lemma received_is_listed s i m :
  reachable s -> enabled (Received i m) s ->
  exists c, clients_get i s = Some c /\ is_open c = true.
Proof.
  intros Hr He. destruct (reachable_well_formed s Hr) as (_ & _ & Ho).
  simpl in He. unfold socket_state in He.
  destruct (object i s) as [c|] eqn:Hobj; [|discriminate].
  simpl in He. injection He as He.
  assert (Hopen : is_open c = true) by (unfold is_open; rewrite He; auto).
  exists c. split; [|exact Hopen].
  unfold clients_get. apply find_strengthen; [exact Hobj|].
  rewrite Forall_forall in Ho. apply Ho; [|exact Hopen].
  apply (object_In i s). exact Hobj.
Qed.

(** C9.  In every reachable state of the server no client has itself
    as recorded opponent.  When the client that holds the waiting slot
    asks for a match again, it stays the waiting client, no client
    changes (nobody is matched), and it is sent one more waiting
    reply. *)
Theorem C9_never_paired_with_itself :
  (forall s, reachable s ->
     forall c, In c (clients s) -> opponentId c <> Some (id c))
  /\ (forall s i,
        reachable s -> waitingClient s = Some i ->
        enabled (Received i FindMatch) s ->
        let s' := step (Received i FindMatch) s in
        waitingClient s' = Some i
        /\ clients s' = clients s
        /\ sent s' = sent s ++ [(i, MsgWaiting)]).
Proof.
  split.
  - intros s Hr c Hin.
    destruct (reachable_well_formed s Hr) as (_ & Hn & _).
    rewrite Forall_forall in Hn. apply (Hn c Hin).
  - intros s i Hr Hw He s'.
    destruct (received_is_listed s i FindMatch Hr He) as (c & Hget & Hopen).
    destruct (reachable_well_formed s Hr) as (Hu & _ & _).
    destruct (clients_get_object _ _ _ Hu Hget) as [Hobj _].
    unfold s'. simpl. unfold on_message. rewrite Hget.
    rewrite (findMatch_waits s i c) by auto.
    unfold to_open. rewrite Hopen, (object_id _ _ _ Hobj).
    simpl. auto.
Qed.

(** "a" waits and asks again. *)
Lemma C9_never_paired_with_itself_witness :
  let s := run [Connected "a"; Received "a" FindMatch] init in
  let s' := step (Received "a" FindMatch) s in
  reachable s
  /\ waitingClient s = Some "a"
  /\ waitingClient s' = Some "a"
  /\ clients s' = clients s
  /\ received_by "a" s' = [MsgClientId "a"; MsgWaiting; MsgWaiting].
Proof.
  assert (Hr : reachable
                 (run [Connected "a"; Received "a" FindMatch] init)).
  { apply reachable_run; [apply reach_init|].
    simpl. repeat split; reflexivity. }
  destruct C9_never_paired_with_itself as [_ Hagain].
  destruct (Hagain _ "a" Hr eq_refl eq_refl) as (Hw & Hc & _).
  cbv zeta. repeat split; try assumption; reflexivity.
Defined.

(** *** Disconnects *)

(** C4 on the code.  Two pairs are matched, p1/p2 and then p3/p4, all
    four sockets open.  When p4 disconnects, the one notification the
    server writes goes to p1; p3, the opponent recorded for p4, is sent
    nothing. *)
Theorem C4_disconnect_notifies_first_client_of_other_role :
  let s := run (three_arrivals "p1" "p2" "p3" ++ fourth_arrival "p4")
             init in
  let s' := step (Closed "p4") s in
  reachable s
  /\ enabled (Closed "p4") s
  /\ option_map opponentId (object "p4" s) = Some (Some "p3")
  /\ option_map opponentId (object "p3" s) = Some (Some "p4")
  /\ option_map opponentId (object "p1" s) = Some (Some "p2")
  /\ socket_state "p3" s = Some WsOpen
  /\ sent s' = sent s ++ [("p1", MsgPeerDisconnected)]
  /\ received_by "p3" s' = received_by "p3" s.
Proof.
  cbv zeta. split.
  { apply reachable_run; [apply reach_init|].
    simpl. repeat split; reflexivity. }
  split.
  { exists WsOpen. split; [reflexivity|discriminate]. }
  repeat split; reflexivity.
Qed.

End RelayFacts.

(** ** The network managers: completion guard and early signals *)

Module ManagerFacts.
Import Js.

Section WithBrowser.
Context {browser : Session.Browser}.

(** *** LocalNetworkManager *)










(** *** WebSocketNetworkManager *)












(** *** The completion guard *)

Definition is_join (b : Matchmaker.Body) : bool :=
  match b with
  | Matchmaker.JoinRequest | Matchmaker.JoinAccept => true
  | _ => false
  end.

(** C7.  Once matchmaking is complete, a join-request or join-accept
    leaves the tab exactly as it was: the manager (role, opponent,
    completion flag, emitted events), the shared registry and the
    signaling key are unchanged, whether the message is handled
    directly or arrives through the storage listener. *)
Theorem C7_matched_participant_ignores_join_messages
    (now : Z) (msg : Matchmaker.Message) (t : Matchmaker.Tab) :
  Matchmaker.matchmakingComplete (fst t) = true ->
  is_join (Matchmaker.body msg) = true ->
  Matchmaker.handleSignalingMessage now msg t = t
  /\ Matchmaker.on_storage now msg t = t.
Proof.
  intros Hdone Hjoin. destruct t as [m st]. simpl in Hdone.
  assert (H : Matchmaker.handleSignalingMessage now msg (m, st)
              = (m, st)).
  { unfold Matchmaker.handleSignalingMessage.
    destruct (Matchmaker.body msg); try discriminate Hjoin;
      rewrite Hdone, ?andb_false_r;
      destruct (Matchmaker.my_role m) as [[|]|]; reflexivity. }
  split; [exact H|].
  unfold Matchmaker.on_storage.
  destruct (Matchmaker.targetPeer msg) as [i|]; [|reflexivity].
  destruct (String.eqb i _); [exact H|reflexivity].
Qed.

(** *** Signals that arrive before the game connection exists *)


End WithBrowser.
(** *** Runs against the cooperative browser *)

Local Open Scope Z_scope.

Definition empty_storage : Matchmaker.Storage :=
  {| Matchmaker.peers := []; Matchmaker.signaling := [] |}.

Definition join_request (from to : string) (at_ : Z)
  : Matchmaker.Message :=
  {| Matchmaker.body := Matchmaker.JoinRequest;
     Matchmaker.fromPeer := from; Matchmaker.toPeer := Some to;
     Matchmaker.targetPeer := Some to; Matchmaker.sentAt := at_ |}.

(** The host "h" registered, was confirmed, and accepted "g1". *)
Definition matched_host : Matchmaker.Tab :=
  @Matchmaker.on_storage SessionFacts.cooperative 160
    (join_request "g1" "h" 150)
    (Matchmaker.fire_verify 100
       (Matchmaker.findMatch 0
          (Matchmaker.new_manager "h", empty_storage))).

Lemma C7_matched_participant_ignores_join_messages_witness :
  Matchmaker.matchmakingComplete (fst matched_host) = true
  /\ Matchmaker.my_role (fst matched_host) = Some Matchmaker.PlayerA
  /\ Matchmaker.opponentId (fst matched_host) = Some "g1"
  /\ @Matchmaker.handleSignalingMessage SessionFacts.cooperative 300
       (join_request "g2" "h" 290) matched_host = matched_host
  /\ @Matchmaker.on_storage SessionFacts.cooperative 300
       (join_request "g2" "h" 290) matched_host = matched_host.
Proof.
  split; [reflexivity|]. split; [reflexivity|]. split; [reflexivity|].
  apply (@C7_matched_participant_ignores_join_messages
           SessionFacts.cooperative 300 (join_request "g2" "h" 290)
           matched_host); reflexivity.
Defined.








End ManagerFacts.

(** ** Host election over the shared registry *)

Module ElectionFacts.
Import Matchmaker.
Local Open Scope Z_scope.

(** *** The earliest host comes first after sorting *)












(** *** Registration and the timers *)


(** A manager right after [becomeHost]. *)
Definition registered_manager (i : PeerId) : Manager :=
  set_isSignalingConnected true
    (set_role PlayerA (set_verifyScheduled true (new_manager i))).

Section WithBrowser.
Context {browser : Session.Browser}.







(** *** A race between hosts *)

Section Race.
Variable hs : list (PeerId * Z).      (* who registered, and when *)
Variables (iw : PeerId) (tw : Z).     (* the earliest registration *)
Hypothesis unique_ids : NoDup (map fst hs).
Hypothesis unique_timestamps : NoDup (map snd hs).
Hypothesis winner_registered : In (iw, tw) hs.
Hypothesis winner_earliest : forall h, In h hs -> tw <= snd h.






(** Every registration of the race is within the liveness window. *)
Definition live (now : Z) : Prop :=
  forall h, In h hs -> now - snd h < 10000.














End Race.

End WithBrowser.



(** *** Two runs *)




(** Two tabs are opened twenty seconds apart; each finds no live host,
    registers as host and is confirmed by its verification. *)
Definition late_second_tab : list Action :=
  [Find "h1" 0; Verify "h1" 100;
   Find "h2" 20000; Verify "h2" 20100;
   Poll "h1" 20300; Poll "h2" 20300].

(** Registrations that are further apart than the liveness window do
    not see each other.  Both tabs hold the initiator role after their
    verification, no join-request was written, and from then on neither
    timer changes anything in either tab, whenever it fires. *)
Lemma registrations_outside_the_liveness_window_both_stay
    {browser : Session.Browser} :
  let w := run late_second_tab empty_world in
  map (fun p => (id p, timestamp p, role p)) (peers (storage w))
  = [("h1", 0, PlayerA); ("h2", 20000, PlayerA)]
  /\ (my_role (tab w "h1") = Some PlayerA
      /\ isInitiator (tab w "h1") = true)
  /\ (my_role (tab w "h2") = Some PlayerA
      /\ isInitiator (tab w "h2") = true)
  /\ signaling (storage w) = []
  /\ (forall i now,
        i = "h1" \/ i = "h2" -> 20300 <= now ->
        fire_verify now (tab w i, storage w) = (tab w i, storage w)
        /\ fire_poll now (tab w i, storage w) = (tab w i, storage w)).
Proof.
  cbv zeta.
  split; [vm_compute; reflexivity|].
  split; [split; vm_compute; reflexivity|].
  split; [split; vm_compute; reflexivity|].
  split; [vm_compute; reflexivity|].
  intros i now Hi Hnow.
  remember (storage (run late_second_tab empty_world)) as st eqn:Est.
  vm_compute in Est. subst st.
  destruct Hi as [-> | ->].
  - remember (tab (run late_second_tab empty_world) "h1") as m eqn:Em.
    vm_compute in Em. subst m.
    split; [reflexivity|].
    unfold fire_poll, checkHostStatus, activePeers.
    cbn [intervals matchmakingComplete peers filter active timestamp
         andb].
    destruct (Z.ltb_spec (now - 0) 10000) as [H1|H1]; [lia|].
    destruct (Z.ltb_spec (now - 20000) 10000); reflexivity.
  - remember (tab (run late_second_tab empty_world) "h2") as m eqn:Em.
    vm_compute in Em. subst m.
    split; [reflexivity|].
    unfold fire_poll, checkHostStatus, activePeers.
    cbn [intervals matchmakingComplete peers filter active timestamp
         andb].
    destruct (Z.ltb_spec (now - 0) 10000) as [H1|H1]; [lia|].
    destruct (Z.ltb_spec (now - 20000) 10000); reflexivity.
Qed.






End ElectionFacts.

(** ** The session: start, callbacks, teardown, and two sessions
    negotiating *)

Module SessionLifecycle.
Import Js Session SessionFacts.

(** The two channels [createDataChannels] asks the browser for. *)
Definition reliable_channel : Channel :=
  {| label := "game_reliable"; readyState := Connecting;
     ordered := true; maxRetransmits := None |}.

Definition unreliable_channel : Channel :=
  {| label := "game_unreliable"; readyState := Connecting;
     ordered := false; maxRetransmits := Some 0%nat |}.

(** [targetUid] of an emitted signal. *)
Definition target_uid (uid : option string) : option string :=
  if truthy uid then uid else None.

Section WithBrowser.
Context {browser : Browser}.

(** *** [initialize] *)

(** The offer the browser makes on a fresh connection, when it makes
    one and accepts it as local description. *)
Definition first_offer : option Description :=
  match createOffer_result new_RTCPeerConnection with
  | Some d =>
      if setLocalDescription_ok
           (log_call (CreateOffer true) new_RTCPeerConnection) d
      then Some d else None
  | None => None
  end.

(** [initialize] never throws, whatever the session went through
    before and whatever the browser does.  It takes the roles and
    identities from the configuration, empties the candidate queue and
    puts a new peer connection in place: open, without a remote
    description, with no candidate applied.  A responder only starts to
    listen for data channels: it calls nothing on the browser and sends
    nothing.  An initiator asks for the reliable (ordered) and the
    unreliable (unordered, no retransmission) channel and makes an
    offer; it sends that offer, once, to the configured opponent when
    the browser produced it and accepted it as local description, and
    sends nothing when either step failed. *)
Theorem initialize_starts_a_fresh_negotiation
    (config : Config) (c : Conn) :
  let r := initialize config c in
  let c' := snd r in
  fst r = Returned tt
  /\ pendingRemoteCandidates c' = []
  /\ isInitiator c' = cfg_isInitiator config
  /\ opponentId c' = cfg_opponentId config
  /\ opponentUid c' = cfg_opponentUid config
  /\ (exists pc, peerConnection c' = Some pc
                 /\ signalingClosed pc = false
                 /\ remoteDescription pc = None
                 /\ applied_of (calls pc) = [])
  /\ (cfg_isInitiator config = false ->
      peerConnection c'
      = Some (set_receivesChannels true new_RTCPeerConnection)
      /\ effects c' = effects c)
  /\ (cfg_isInitiator config = true ->
      reliable c' = Some reliable_channel
      /\ unreliable c' = Some unreliable_channel
      /\ effects c'
         = effects c
           ++ match first_offer with
              | Some d => [SocketEmit (BOffer d) (cfg_opponentId config)
                             (target_uid (cfg_opponentUid config))]
              | None => []
              end).
Proof.
  destruct c as [pc r u ic ii oi ou ri ice q ef].
  destruct config as [ci co cu cr cice].
  unfold initialize, createPeerConnection, createAndSendOffer, detached,
    pc_createOffer, pc_setLocalDescription, socket_emit, on_pc,
    try_catch, bind, modify, get, ret, first_offer, target_uid, pc_close.
  cbv zeta.
  destruct pc as [pc|]; [destruct (signalingClosed pc) eqn:Hs|];
    destruct ci; cbn; rewrite ?Hs; cbn;
    try (destruct (createOffer_result new_RTCPeerConnection) as [d|];
         cbn; [destruct (setLocalDescription_ok _ d)|]; cbn);
    rewrite ?app_nil_r;
    repeat match goal with
      | |- _ /\ _ => split
      | |- _ -> _ => let H := fresh in intro H; try discriminate H
      | |- exists _, _ => eexists
      end;
    reflexivity.
Qed.

(** What a session created by [new] and [initialize] has emitted. *)
Lemma fresh_session_effects (config : Config) :
  effects (snd (initialize config new_LocalGameConnection))
  = if cfg_isInitiator config
    then match first_offer with
         | Some d => [SocketEmit (BOffer d) (cfg_opponentId config)
                        (target_uid (cfg_opponentUid config))]
         | None => []
         end
    else [].
Proof.
  destruct config as [ci co cu cr cice].
  unfold initialize, createPeerConnection, createAndSendOffer, detached,
    pc_createOffer, pc_setLocalDescription, socket_emit, on_pc,
    try_catch, bind, modify, get, ret, first_offer, target_uid.
  cbv zeta.
  destruct ci; cbn; [|reflexivity].
  destruct (createOffer_result new_RTCPeerConnection) as [d|];
    cbn; [destruct (setLocalDescription_ok _ d)|]; reflexivity.
Qed.

(** *** After [close] *)

(** A session that has been closed is inert for data and candidates:
    [send] returns false on either channel and leaves the session as it
    is, a candidate that still arrives is neither queued nor handed to
    the browser, and the connected flag is off. *)
Theorem closed_session_is_inert (c : Conn) :
  let c' := snd (close c) in
  isConnected c' = false
  /\ (forall data flag, send data flag c' = (Returned false, c'))
  /\ (forall data, handleCandidate data c' = (Returned tt, c')).
Proof.
  destruct c as [pc r u ic ii oi ou ri ice q ef].
  unfold close, handleCandidate, send, try_catch, bind, modify, pc_close.
  cbv zeta.
  destruct pc as [pc|]; [destruct (signalingClosed pc) eqn:Hs|];
    cbn; rewrite ?Hs; cbn;
    (split; [reflexivity|]);
    (split; [|intros data; rewrite ?Hs; reflexivity]);
    intros data [[|]|];
    destruct r as [[lr [| | |] ro rm]|], u as [[lu [| | |] uo um]|];
    reflexivity.
Qed.

(** *** The callbacks the session installs *)

(** What the browser reports to a session. *)
Inductive BrowserEvent :=
| IceGathered (x : option Candidate)       (* onicecandidate *)
| StateChanged (s : ConnectionState)       (* onconnectionstatechange *)
| ChannelArrived (ch : Channel)            (* ondatachannel *)
| ChannelOpened (lbl : string)             (* channel.onopen *)
| ChannelMessage (lbl : string) (data : Payload)
| ChannelClosed (lbl : string).            (* channel.onclose *)

Definition notify (e : BrowserEvent) : M Conn unit :=
  match e with
  | IceGathered x => onicecandidate x
  | StateChanged s => onconnectionstatechange s
  | ChannelArrived ch => ondatachannel ch
  | ChannelOpened lbl => channel_onopen lbl
  | ChannelMessage lbl data => channel_onmessage lbl data
  | ChannelClosed lbl => channel_onclose lbl
  end.

Definition notify_all (es : list BrowserEvent) (c : Conn) : Conn :=
  fold_left (fun acc e => snd (notify e acc)) es c.

(** What a callback passes on: a signal for the opponent, or an event
    for the game. *)
Definition passed_on (to uid : option string) (e : BrowserEvent)
  : list Effect :=
  match e with
  | IceGathered (Some x) => [SocketEmit (BCandidate x) to (target_uid uid)]
  | StateChanged CsConnected => [EventEmit game_connection_established]
  | StateChanged CsDisconnected | StateChanged CsFailed =>
      [EventEmit game_connection_lost]
  | ChannelOpened lbl =>
      if String.eqb lbl "game_reliable"
      then [EventEmit game_datachannel_open] else []
  | ChannelMessage lbl data => [EventEmit (game_data_received data lbl)]
  | _ => []
  end.

(** What a callback says about connectivity, if anything. *)
Definition verdict (e : BrowserEvent) : option bool :=
  match e with
  | StateChanged CsConnected => Some true
  | StateChanged CsDisconnected | StateChanged CsFailed => Some false
  | ChannelOpened lbl =>
      if String.eqb lbl "game_reliable" then Some true else None
  | ChannelClosed lbl =>
      if String.eqb lbl "game_reliable" then Some false else None
  | _ => None
  end.

Definition last_verdict (es : list BrowserEvent) (b : bool) : bool :=
  fold_left (fun acc e => match verdict e with Some v => v | None => acc end)
    es b.

Lemma notify_once e c :
  let c' := snd (notify e c) in
  fst (notify e c) = Returned tt
  /\ effects c' = effects c ++ passed_on (opponentId c) (opponentUid c) e
  /\ isConnected c'
     = match verdict e with Some v => v | None => isConnected c end
  /\ opponentId c' = opponentId c /\ opponentUid c' = opponentUid c
  /\ pendingRemoteCandidates c' = pendingRemoteCandidates c
  /\ applied c' = applied c.
Proof.
  destruct c as [pc r u ic ii oi ou ri ice q ef].
  destruct e as [[x|]|[| | | | |]|ch|lbl|lbl data|lbl];
    unfold notify, onicecandidate, onconnectionstatechange, ondatachannel,
      channel_onopen, channel_onmessage, channel_onclose, socket_emit,
      event_emit, bind, modify, ret, passed_on, verdict, target_uid,
      applied;
    cbv zeta;
    try destruct (String.eqb lbl "game_reliable");
    try (destruct (String.eqb (label ch) "game_reliable");
         [|destruct (String.eqb (label ch) "game_unreliable")]);
    try destruct pc as [pc|];
    cbn; rewrite ?app_nil_r; repeat split; reflexivity.
Qed.

(** The callbacks never throw and only translate.  Over any sequence of
    browser events the session passes on, in the order of the events:
    one ice-candidate signal per gathered candidate, addressed to the
    opponent; one game_data_received event per channel message, with
    the label of its channel; game_connection_established for
    'connected', game_connection_lost for 'disconnected' and 'failed',
    game_datachannel_open when the reliable channel opens; nothing for
    anything else.  The connected flag is the verdict of the last event
    that has one (connected or reliable channel open: on; disconnected,
    failed or reliable channel closed: off).  No callback calls the
    negotiation interface of the browser or touches the candidate
    queue. *)
Theorem browser_events_are_passed_on_in_order
    (es : list BrowserEvent) (c : Conn) :
  let c' := notify_all es c in
  effects c'
  = effects c ++ flat_map (passed_on (opponentId c) (opponentUid c)) es
  /\ isConnected c' = last_verdict es (isConnected c)
  /\ pendingRemoteCandidates c' = pendingRemoteCandidates c
  /\ applied c' = applied c
  /\ forall e, fst (notify e c') = Returned tt.
Proof.
  cbv zeta. revert c. induction es as [|e es IH]; intros c.
  - simpl. rewrite app_nil_r. repeat split.
    intros e. apply (notify_once e c).
  - destruct (notify_once e c) as (_ & He & Hc & Ho & Hu & Hq & Ha).
    cbv zeta in *.
    destruct (IH (snd (notify e c))) as (He' & Hc' & Hq' & Ha' & Hr').
    unfold notify_all, last_verdict in *. cbn [fold_left flat_map].
    rewrite He', Hc', Hq', Ha', He, Hc, Ho, Hu, Hq, Ha, <- app_assoc.
    repeat split. exact Hr'.
Qed.

(** *** Two sessions *)

(** The browser resolves every offer/answer promise. *)
Definition resolving : Prop :=
  (forall pc, createOffer_result pc <> None)
  /\ (forall pc, createAnswer_result pc <> None)
  /\ (forall pc d, setLocalDescription_ok pc d = true)
  /\ (forall pc d, setRemoteDescription_ok pc d = true).

(** The local and the remote description of the session. *)
Definition descriptions (c : Conn)
  : option (option Description * option Description) :=
  option_map (fun pc => (localDescription pc, remoteDescription pc))
    (peerConnection c).

(** The answer the browser makes to the offer [d] on a new responder. *)
Definition answer_to (d : Description) : option Description :=
  createAnswer_result
    (log_call (SetRemote d true)
       (set_remote d (set_receivesChannels true new_RTCPeerConnection))).

Lemma resolving_offers :
  resolving -> exists d, first_offer = Some d.
Proof.
  intros (Hco & _ & Hsl & _). unfold first_offer.
  destruct (createOffer_result new_RTCPeerConnection) as [d|] eqn:Hd;
    [|destruct (Hco _ Hd)].
  exists d. rewrite Hsl. reflexivity.
Qed.

Lemma resolving_answers d : resolving -> exists ans, answer_to d = Some ans.
Proof.
  intros (_ & Hca & _). unfold answer_to.
  destruct (createAnswer_result _) as [a|] eqn:Ha; [eauto|].
  destruct (Hca _ Ha).
Qed.

(** A new responder that is given the offer [d] answers it. *)
Lemma responder_answers (config : Config) (d ans : Description) :
  resolving -> cfg_isInitiator config = false -> answer_to d = Some ans ->
  let b0 := snd (initialize config new_LocalGameConnection) in
  let b1 := snd (handleOffer (Some {| offer := d |}) b0) in
  effects b1
  = effects b0 ++ [SocketEmit (BAnswer ans) (cfg_opponentId config)
                     (target_uid (cfg_opponentUid config))]
  /\ descriptions b1 = Some (Some ans, Some d).
Proof.
  intros (Hco & Hca & Hsl & Hsr) HB Ha.
  destruct config as [ib ob ub rb iceb].
  cbn [cfg_isInitiator] in HB. subst ib.
  unfold answer_to in Ha.
  unfold initialize, createPeerConnection, createAndSendOffer, detached,
    handleOffer, flushPendingRemoteCandidates, field,
    pc_createOffer, pc_createAnswer, pc_setLocalDescription,
    pc_setRemoteDescription, socket_emit, on_pc, try_catch, bind, modify,
    get, ret, descriptions, target_uid.
  cbv zeta.
  repeat (cbn; rewrite ?Ha, ?Hsl, ?Hsr).
  repeat split; reflexivity.
Qed.

(** A new initiator that made the offer [d] and is given an answer to
    it installs the answer and sends nothing. *)
Lemma initiator_accepts (config : Config) (d ans : Description) :
  resolving -> cfg_isInitiator config = true -> first_offer = Some d ->
  let a0 := snd (initialize config new_LocalGameConnection) in
  let a1 := snd (handleAnswer (Some {| answer := ans |}) a0) in
  effects a1 = effects a0 ++ []
  /\ descriptions a1 = Some (Some d, Some ans).
Proof.
  intros (Hco & Hca & Hsl & Hsr) HA Hd.
  destruct config as [ia oa ua ra icea].
  cbn [cfg_isInitiator] in HA. subst ia.
  unfold first_offer in Hd.
  destruct (createOffer_result new_RTCPeerConnection) as [d'|] eqn:Hd';
    [|discriminate].
  rewrite Hsl in Hd. injection Hd as ->.
  unfold initialize, createPeerConnection, createAndSendOffer, detached,
    handleAnswer, flushPendingRemoteCandidates, field,
    pc_createOffer, pc_setLocalDescription,
    pc_setRemoteDescription, socket_emit, on_pc, try_catch, bind, modify,
    get, ret, descriptions, target_uid.
  cbv zeta.
  repeat (cbn; rewrite ?Hd', ?Hsl, ?Hsr).
  rewrite ?app_nil_r. repeat split; reflexivity.
Qed.

(** An initiator and a responder, each freshly initialized, complete
    the description exchange when the browser resolves the promises:
    the initiator sends exactly one offer; the responder, given that
    offer, sends exactly one answer; the initiator, given that answer,
    sends nothing more; and in the end the offer is the initiator's
    local and the responder's remote description, and the answer the
    other way round. *)
Theorem offer_answer_exchange_completes (cfgA cfgB : Config) :
  resolving ->
  cfg_isInitiator cfgA = true -> cfg_isInitiator cfgB = false ->
  exists d ans,
    let a0 := snd (initialize cfgA new_LocalGameConnection) in
    let b0 := snd (initialize cfgB new_LocalGameConnection) in
    let b1 := snd (handleOffer (Some {| offer := d |}) b0) in
    let a1 := snd (handleAnswer (Some {| answer := ans |}) a0) in
    effects a0 = [SocketEmit (BOffer d) (cfg_opponentId cfgA)
                    (target_uid (cfg_opponentUid cfgA))]
    /\ effects b0 = []
    /\ effects b1 = [SocketEmit (BAnswer ans) (cfg_opponentId cfgB)
                       (target_uid (cfg_opponentUid cfgB))]
    /\ effects a1 = effects a0
    /\ descriptions a1 = Some (Some d, Some ans)
    /\ descriptions b1 = Some (Some ans, Some d).
Proof.
  intros Hres HA HB.
  destruct (resolving_offers Hres) as [d Hd].
  destruct (resolving_answers d Hres) as [ans Ha].
  exists d, ans. cbv zeta.
  destruct (responder_answers cfgB d ans Hres HB Ha) as [Hb1 Hb2].
  destruct (initiator_accepts cfgA d ans Hres HA Hd) as [Ha1 Ha2].
  cbv zeta in Hb1, Hb2, Ha1, Ha2.
  pose proof (fresh_session_effects cfgA) as EA.
  pose proof (fresh_session_effects cfgB) as EB.
  rewrite HA, Hd in EA. rewrite HB in EB.
  rewrite Hb1, Ha1, EA, EB, app_nil_r.
  repeat split; assumption.
Qed.

End WithBrowser.

Lemma cooperative_resolving : @resolving cooperative.
Proof. repeat split; intros; try reflexivity; discriminate. Defined.

Definition initiator_config : Config :=
  {| cfg_isInitiator := true;
     cfg_opponentId := Some "peer-b";
     cfg_opponentUid := Some "peer-b";
     cfg_roomId := Some "local-room";
     cfg_iceServers := ["stun:stun.l.google.com:19302";
                        "stun:stun1.l.google.com:19302"] |}.

Lemma offer_answer_exchange_completes_witness :
  @resolving cooperative
  /\ exists d ans,
       let a0 := snd (@initialize cooperative initiator_config
                        new_LocalGameConnection) in
       let b0 := snd (@initialize cooperative responder_config
                        new_LocalGameConnection) in
       let b1 := snd (@handleOffer cooperative (Some {| offer := d |}) b0) in
       let a1 := snd (@handleAnswer cooperative
                        (Some {| answer := ans |}) a0) in
       effects a0 = [SocketEmit (BOffer d) (Some "peer-b") (Some "peer-b")]
       /\ effects b0 = []
       /\ effects b1 = [SocketEmit (BAnswer ans) (Some "peer-a")
                          (Some "peer-a")]
       /\ effects a1 = effects a0
       /\ descriptions a1 = Some (Some d, Some ans)
       /\ descriptions b1 = Some (Some ans, Some d).
Proof.
  split; [exact cooperative_resolving|].
  exact (@offer_answer_exchange_completes cooperative initiator_config
           responder_config cooperative_resolving eq_refl eq_refl).
Defined.

End SessionLifecycle.

(** ** The relay server: forwarding, socket hygiene, arrival order *)

Module RelayProtocol.
Import Relay RelayFacts.

(** *** Forwarding of signals *)

(** [i] is in the Map with a recorded opponent [o] that is in the Map
    on an open socket. *)
Definition relayable (i : ClientId) (s : Server) (o : ClientId) : Prop :=
  exists c oc,
    clients_get i s = Some c /\ opponentId c = Some o /\ o <> ""
    /\ clients_get o s = Some oc /\ is_open oc = true.

Lemma find_pointwise {A} (p q : A -> bool) l :
  (forall x, p x = q x) -> find p l = find q l.
Proof.
  intros H. induction l as [|x l IH]; simpl; [reflexivity|].
  rewrite H, IH. reflexivity.
Qed.

Lemma clients_find_by_id o s :
  clients_find (fun c => String.eqb (id c) o) s = clients_get o s.
Proof.
  unfold clients_find, clients_get. apply find_pointwise.
  intros x. apply andb_comm.
Qed.

Lemma clients_get_id i s c : clients_get i s = Some c -> id c = i.
Proof.
  unfold clients_get. intros H. apply find_some in H as [_ H].
  apply andb_prop in H as [H _]. apply String.eqb_eq. exact H.
Qed.

Lemma handleSignal_relays i data s o :
  relayable i s o ->
  handleSignal i data s = ws_send o (MsgSignal i data) s.
Proof.
  intros (c & oc & Hc & Ho & Hne & Hoc & Hopen).
  unfold handleSignal. rewrite Hc, Ho.
  destruct o as [|a o']; [contradiction|].
  rewrite clients_find_by_id, Hoc, Hopen.
  rewrite (clients_get_id _ _ _ Hoc). reflexivity.
Qed.

Lemma handleSignal_drops i data s :
  (forall o, ~ relayable i s o) -> handleSignal i data s = s.
Proof.
  intros Hno. unfold handleSignal.
  destruct (clients_get i s) as [c|] eqn:Hc; [|reflexivity].
  destruct (opponentId c) as [[|a o']|] eqn:Ho; try reflexivity.
  rewrite clients_find_by_id.
  destruct (clients_get (String a o') s) as [oc|] eqn:Hoc; [|reflexivity].
  destruct (is_open oc) eqn:Hopen; [|reflexivity].
  exfalso. apply (Hno (String a o')).
  exists c, oc. repeat split; auto. discriminate.
Qed.

(** A signal is forwarded to the opponent recorded for its sender, as
    one message that names the sender and carries the data unchanged,
    when sender and opponent are both in the Map and the opponent's
    socket is open.  In every other case (the sender is unmatched or
    gone, the opponent is gone or its socket is not open) the signal
    is dropped and the server state is exactly as before.  Forwarding
    never changes a client or the waiting slot. *)
Theorem signal_forwarded_to_recorded_opponent
    (i : ClientId) (data : string) (s : Server) :
  (forall o, relayable i s o ->
     handleSignal i data s = ws_send o (MsgSignal i data) s)
  /\ ((forall o, ~ relayable i s o) -> handleSignal i data s = s)
  /\ clients (handleSignal i data s) = clients s
  /\ waitingClient (handleSignal i data s) = waitingClient s.
Proof.
  split; [intros o; apply handleSignal_relays|].
  split; [apply handleSignal_drops|].
  split; [apply clients_handleSignal|].
  unfold handleSignal.
  destruct (clients_get i s) as [c|]; [|reflexivity].
  destruct (opponentId c) as [[|a o]|]; try reflexivity.
  destruct (clients_find _ s) as [o'|]; [|reflexivity].
  destruct (is_open o'); reflexivity.
Qed.

(** *** What a step writes, and to whom *)

Definition is_client_id (m : ServerMsg) : bool :=
  match m with MsgClientId _ => true | _ => false end.

Lemma find_app {A} (p : A -> bool) l1 l2 :
  find p (l1 ++ l2)
  = match find p l1 with Some a => Some a | None => find p l2 end.
Proof.
  induction l1 as [|x l1 IH]; simpl; [reflexivity|].
  destruct (p x); [reflexivity|exact IH].
Qed.

(** A field that an assignment leaves alone reads the same afterwards. *)
Lemma object_field_mutate {B} (g : Client -> B) i j f s :
  (forall c, id (f c) = id c) -> (forall c, g (f c) = g c) ->
  option_map g (object j (mutate i f s)) = option_map g (object j s).
Proof.
  intros Hid Hg. unfold object, mutate, set_clients. cbn [clients].
  induction (clients s) as [|x l IH]; simpl; [reflexivity|].
  destruct (String.eqb (id x) i) eqn:E; simpl.
  - rewrite Hid. destruct (String.eqb (id x) j); simpl;
      [rewrite Hg|]; reflexivity.
  - destruct (String.eqb (id x) j); simpl; [reflexivity|exact IH].
Qed.

Lemma socket_state_mutate i j f s :
  (forall c, id (f c) = id c) ->
  (forall c, readyState (f c) = readyState c) ->
  socket_state j (mutate i f s) = socket_state j s.
Proof. apply object_field_mutate. Qed.

Lemma listed_mutate i j f s :
  (forall c, id (f c) = id c) ->
  object j (mutate i f s) <> None -> object j s <> None.
Proof.
  intros Hid H E.
  pose proof (object_field_mutate id i j f s Hid Hid) as Hm.
  rewrite E in Hm. destruct (object j (mutate i f s)); [discriminate|].
  apply H. reflexivity.
Qed.

Lemma socket_state_clients j s s' :
  clients s' = clients s -> socket_state j s' = socket_state j s.
Proof. unfold socket_state, object. intros ->. reflexivity. Qed.

Lemma socket_open_listed j s :
  socket_state j s = Some WsOpen -> object j s <> None.
Proof. unfold socket_state. destruct (object j s); discriminate. Qed.

Lemma is_open_state c : is_open c = true -> readyState c = WsOpen.
Proof. unfold is_open. destruct (readyState c); congruence. Qed.

(** What [send_if_open] appends. *)
Lemma send_if_open_sends i m s :
  clients (send_if_open i m s) = clients s
  /\ waitingClient (send_if_open i m s) = waitingClient s
  /\ exists l, sent (send_if_open i m s) = sent s ++ l
       /\ (l = [] \/ (l = [(i, m)] /\ socket_state i s = Some WsOpen)).
Proof.
  unfold send_if_open, socket_state.
  destruct (object i s) as [c|] eqn:Hc.
  - destruct (is_open c) eqn:Ho; simpl.
    + repeat split. exists [(i, m)]. split; [reflexivity|].
      right. split; [reflexivity|]. rewrite (is_open_state c Ho).
      reflexivity.
    + repeat split. exists []. rewrite app_nil_r. auto.
  - repeat split. exists []. rewrite app_nil_r. auto.
Qed.

(** A message the step wrote: its socket is open after the step, and it
    is the client-id greeting exactly for the socket just accepted. *)
Definition sound_write (e : Event) (s : Server)
    (p : ClientId * ServerMsg) : Prop :=
  socket_state (fst p) (step e s) = Some WsOpen
  /\ match e with
     | Connected k => p = (k, MsgClientId k)
     | _ => is_client_id (snd p) = false /\ object (fst p) s <> None
     end.

Lemma match_found_for_kind i s : is_client_id (match_found_for i s) = false.
Proof. unfold match_found_for. destruct (object i s); reflexivity. Qed.

Lemma handleFindMatch_writes i s :
  exists l, sent (handleFindMatch i s) = sent s ++ l
    /\ Forall (fun p => socket_state (fst p) (handleFindMatch i s)
                        = Some WsOpen
                        /\ is_client_id (snd p) = false
                        /\ object (fst p) s <> None) l.
Proof.
  assert (Hwait : forall w,
    exists l, sent (send_if_open i MsgWaiting (set_waiting w s))
              = sent s ++ l
      /\ Forall (fun p =>
           socket_state (fst p)
             (send_if_open i MsgWaiting (set_waiting w s)) = Some WsOpen
           /\ is_client_id (snd p) = false
           /\ object (fst p) s <> None) l).
  { intros w.
    destruct (send_if_open_sends i MsgWaiting (set_waiting w s))
      as (Hc & _ & l & Hl & Hcase).
    exists l. split; [exact Hl|].
    destruct Hcase as [->|[-> Ho]]; constructor; [|constructor].
    cbn [fst snd]. split; [|split; [reflexivity|]].
    - rewrite (socket_state_clients i _ _ Hc). exact Ho.
    - apply (socket_open_listed i (set_waiting w s)). exact Ho. }
  unfold handleFindMatch.
  destruct (waitingClient s) as [w|]; [|apply Hwait].
  destruct (negb (String.eqb w i)); [|apply Hwait].
  cbv zeta.
  set (s2 := mutate i (assign RoleB false w)
               (mutate w (assign RoleA true i) s)).
  assert (Hss : forall j, socket_state j s2 = socket_state j s).
  { intros j. unfold s2. rewrite !socket_state_mutate by reflexivity.
    reflexivity. }
  destruct (send_if_open_sends w (match_found_for w s2) s2)
    as (Hc3 & _ & l1 & Hl1 & Hcase1).
  set (s3 := send_if_open w (match_found_for w s2) s2) in *.
  destruct (send_if_open_sends i (match_found_for i s3) s3)
    as (Hc4 & _ & l2 & Hl2 & Hcase2).
  set (s4 := send_if_open i (match_found_for i s3) s3) in *.
  assert (Hfin : forall j, socket_state j (set_waiting None s4)
                           = socket_state j s).
  { intros j. rewrite <- Hss.
    rewrite (socket_state_clients j s2 (set_waiting None s4)); auto.
    cbn [set_waiting clients]. rewrite Hc4, Hc3. reflexivity. }
  exists (l1 ++ l2). split.
  { cbn [set_waiting sent]. rewrite Hl2, Hl1, <- app_assoc.
    reflexivity. }
  apply Forall_app. split.
  - destruct Hcase1 as [->|[-> Ho]]; constructor; [|constructor].
    cbn [fst snd]. rewrite Hfin.
    split; [rewrite <- Hss; exact Ho|].
    split; [apply match_found_for_kind|].
    apply socket_open_listed. rewrite <- Hss. exact Ho.
  - destruct Hcase2 as [->|[-> Ho]]; constructor; [|constructor].
    cbn [fst snd]. rewrite Hfin.
    rewrite (socket_state_clients i s2 s3 Hc3), Hss in Ho.
    split; [exact Ho|]. split; [apply match_found_for_kind|].
    apply socket_open_listed. exact Ho.
Qed.

Lemma clients_find_open (p : Client -> bool) s c :
  unique_ids s -> clients_find p s = Some c -> is_open c = true ->
  socket_state (id c) s = Some WsOpen.
Proof.
  intros Hu Hf Ho. unfold clients_find in Hf.
  apply find_some in Hf as [Hin _].
  unfold socket_state, object. rewrite (In_object _ _ Hu Hin). simpl.
  rewrite (is_open_state c Ho). reflexivity.
Qed.

Lemma handleSignal_writes i d s :
  unique_ids s ->
  exists l, sent (handleSignal i d s) = sent s ++ l
    /\ Forall (fun p => socket_state (fst p) (handleSignal i d s)
                        = Some WsOpen
                        /\ is_client_id (snd p) = false
                        /\ object (fst p) s <> None) l.
Proof.
  intros Hu.
  assert (Hnil : exists l, sent s = sent s ++ l
            /\ Forall (fun p => socket_state (fst p) s = Some WsOpen
                                /\ is_client_id (snd p) = false
                                /\ object (fst p) s <> None) l).
  { exists []. rewrite app_nil_r. split; [reflexivity|constructor]. }
  unfold handleSignal.
  destruct (clients_get i s) as [c|]; [|exact Hnil].
  destruct (opponentId c) as [[|a o]|]; try exact Hnil.
  destruct (clients_find _ s) as [oc|] eqn:Hf; [|exact Hnil].
  destruct (is_open oc) eqn:Ho; [|exact Hnil].
  exists [(id oc, MsgSignal i d)]. split; [reflexivity|].
  constructor; [|constructor]. cbn [fst snd].
  pose proof (clients_find_open _ s oc Hu Hf Ho) as Hst.
  split; [exact Hst|]. split; [reflexivity|].
  apply socket_open_listed. exact Hst.
Qed.

Lemma unique_ids_mutate i f s :
  (forall c, id (f c) = id c) -> unique_ids s -> unique_ids (mutate i f s).
Proof.
  intros Hf Hu. unfold unique_ids, mutate, set_clients. cbn [clients].
  rewrite update_ids by exact Hf. exact Hu.
Qed.

Lemma on_close_writes i s :
  unique_ids s ->
  exists l, sent (on_close i s) = sent s ++ l
    /\ Forall (fun p => socket_state (fst p) (on_close i s) = Some WsOpen
                        /\ is_client_id (snd p) = false
                        /\ object (fst p) s <> None) l.
Proof.
  intros Hu. unfold on_close. cbv zeta.
  set (s1 := match waitingClient s with
             | Some w => if String.eqb w i then set_waiting None s else s
             | None => s
             end).
  assert (Hc1 : clients s1 = clients s)
    by (unfold s1; destruct (waitingClient s) as [w|];
        [destruct (String.eqb w i)|]; reflexivity).
  assert (Hs1 : sent s1 = sent s)
    by (unfold s1; destruct (waitingClient s) as [w|];
        [destruct (String.eqb w i)|]; reflexivity).
  assert (Hu1 : unique_ids s1) by (unfold unique_ids; rewrite Hc1; exact Hu).
  assert (Hnil : exists l,
            sent (mutate i (set_inMap false) s1) = sent s ++ l
            /\ Forall (fun p =>
                 socket_state (fst p) (mutate i (set_inMap false) s1)
                 = Some WsOpen
                 /\ is_client_id (snd p) = false
                 /\ object (fst p) s <> None) l).
  { exists []. rewrite app_nil_r. split; [exact Hs1|constructor]. }
  destruct (clients_get i s1) as [c|]; [|exact Hnil].
  destruct (role c) as [r|]; [|exact Hnil].
  destruct (clients_find _ s1) as [oc|] eqn:Hf; [|exact Hnil].
  destruct (is_open oc) eqn:Ho; [|exact Hnil].
  exists [(id oc, MsgPeerDisconnected)]. split.
  { cbn [mutate set_clients ws_send sent]. rewrite Hs1. reflexivity. }
  constructor; [|constructor]. cbn [fst snd].
  pose proof (clients_find_open _ s1 oc Hu1 Hf Ho) as Hst.
  split; [|split; [reflexivity|]].
  - rewrite socket_state_mutate by reflexivity. exact Hst.
  - apply socket_open_listed.
    rewrite <- (socket_state_clients (id oc) s s1 Hc1). exact Hst.
Qed.

Lemma step_writes s e :
  reachable s -> enabled e s ->
  exists l, sent (step e s) = sent s ++ l /\ Forall (sound_write e s) l.
Proof.
  intros Hr He.
  destruct (reachable_well_formed s Hr) as (Hu & _ & _).
  assert (Hnil : forall s', sent s' = sent s ->
            exists l, sent s' = sent s ++ l /\ Forall (sound_write e s) l).
  { intros s' E. exists []. rewrite app_nil_r. split; [exact E|constructor]. }
  destruct e as [i|i m|i|i|i].
  - exists [(i, MsgClientId i)]. split; [reflexivity|].
    constructor; [|constructor]. split; [|reflexivity].
    cbn [fst step]. unfold socket_state, object, on_connection.
    cbn [ws_send set_clients clients]. rewrite find_app.
    simpl in He. unfold object in He. rewrite He. simpl.
    rewrite String.eqb_refl. reflexivity.
  - unfold sound_write. cbn [step]. unfold on_message.
    destruct m as [|data|ty|];
      try (exists []; rewrite app_nil_r; split; [reflexivity|constructor]);
      destruct (clients_get i s);
      try (exists []; rewrite app_nil_r; split; [reflexivity|constructor]).
    + destruct (handleFindMatch_writes i s) as (l & Hl & Hall).
      exists l. split; [exact Hl|].
      eapply Forall_impl; [|exact Hall]. cbv beta. tauto.
    + destruct (handleSignal_writes i data s Hu) as (l & Hl & Hall).
      exists l. split; [exact Hl|].
      eapply Forall_impl; [|exact Hall]. cbv beta. tauto.
  - apply Hnil. reflexivity.
  - unfold sound_write. cbn [step].
    set (s0 := mutate i (set_readyState WsClosed) s).
    destruct (on_close_writes i s0) as (l & Hl & Hall).
    { apply unique_ids_mutate; [reflexivity|exact Hu]. }
    exists l. split; [exact Hl|].
    eapply Forall_impl; [|exact Hall]. cbv beta.
    intros p (H1 & H2 & H3). repeat split; auto.
    apply (listed_mutate i (fst p) (set_readyState WsClosed) s);
      [reflexivity|exact H3].
  - apply Hnil. reflexivity.
Qed.

(** The server writes to open sockets only: whatever a step appends to
    the log of writes is addressed to a client whose socket is open
    when the step is over, and nothing written earlier is changed. *)
Theorem server_writes_to_open_sockets_only (s : Server) (e : Event) :
  reachable s -> enabled e s ->
  exists l, sent (step e s) = sent s ++ l
    /\ forall i m, In (i, m) l -> socket_state i (step e s) = Some WsOpen.
Proof.
  intros Hr He. destruct (step_writes s e Hr He) as (l & Hl & Hall).
  exists l. split; [exact Hl|]. intros i m Hin.
  rewrite Forall_forall in Hall. apply (Hall (i, m) Hin).
Qed.

(** *** The greeting *)

(** Nothing is written for an identity the server has not seen; a
    client it has seen was first sent its client-id and never another
    one. *)
Definition greeted (s : Server) : Prop :=
  forall i,
    match object i s with
    | None => received_by i s = []
    | Some _ => exists rest,
        received_by i s = MsgClientId i :: rest
        /\ Forall (fun m => is_client_id m = false) rest
    end.

Lemma received_by_app i s s' l :
  sent s' = sent s ++ l ->
  received_by i s'
  = received_by i s
    ++ map snd (filter (fun p => String.eqb (fst p) i) l).
Proof.
  unfold received_by. intros ->. rewrite filter_app, map_app. reflexivity.
Qed.

Lemma object_None_iff i s :
  object i s = None <-> ~ In i (map id (clients s)).
Proof.
  split; [apply object_None_fresh|].
  unfold object. induction (clients s) as [|x l IH]; simpl; [reflexivity|].
  intros Hn. destruct (String.eqb_spec (id x) i) as [E|E]; [tauto|].
  apply IH. tauto.
Qed.

Lemma object_None_ids i s s' :
  map id (clients s') = map id (clients s) ->
  (object i s' = None <-> object i s = None).
Proof. intros H. rewrite !object_None_iff, H. reflexivity. Qed.

Lemma ids_handleFindMatch i s :
  map id (clients (handleFindMatch i s)) = map id (clients s).
Proof.
  unfold handleFindMatch.
  destruct (waitingClient s) as [w|];
    [destruct (negb (String.eqb w i))|]; cbv zeta;
    cbn [set_waiting clients]; rewrite ?clients_send_if_open;
    cbn [set_waiting mutate set_clients clients];
    rewrite ?update_ids by reflexivity; reflexivity.
Qed.

(** Only an accepted socket adds an identity. *)
Lemma step_ids e s :
  (forall k, e <> Connected k) ->
  map id (clients (step e s)) = map id (clients s).
Proof.
  intros Hne. destruct e as [k|i m|i|i|i]; [destruct (Hne k eq_refl)| | | |].
  - unfold step, on_message. destruct m; try reflexivity;
      destruct (clients_get i s); try reflexivity.
    + apply ids_handleFindMatch.
    + rewrite clients_handleSignal. reflexivity.
  - unfold step, mutate, set_clients. cbn [clients].
    apply update_ids. reflexivity.
  - unfold step. rewrite clients_on_close.
    unfold mutate, set_clients. cbn [clients].
    rewrite !update_ids by reflexivity. reflexivity.
  - unfold step, on_error, mutate, set_clients. cbn [clients].
    rewrite !update_ids by reflexivity. reflexivity.
Qed.

Lemma greeted_connection k s :
  greeted s -> object k s = None -> greeted (on_connection k s).
Proof.
  intros IH Hk i. specialize (IH i).
  rewrite (received_by_app i s (on_connection k s)
             [(k, MsgClientId k)] eq_refl).
  cbn [filter fst snd map].
  unfold on_connection, object.
  cbn [ws_send set_clients clients]. rewrite find_app.
  fold (object i s).
  destruct (String.eqb_spec k i) as [->|Hki].
  - rewrite Hk in IH |- *. simpl.
    rewrite String.eqb_refl, IH. exists []. split; [reflexivity|].
    constructor.
  - destruct (object i s); simpl; [rewrite app_nil_r; exact IH|].
    rewrite (eqb_false _ _ Hki), app_nil_r. exact IH.
Qed.

Lemma greeted_step s s' l :
  greeted s -> sent s' = sent s ++ l ->
  map id (clients s') = map id (clients s) ->
  Forall (fun p => is_client_id (snd p) = false
                   /\ object (fst p) s <> None) l ->
  greeted s'.
Proof.
  intros IH Hl Hids Hk i. specialize (IH i).
  rewrite (received_by_app i s s' l Hl).
  pose proof (object_None_ids i s s' Hids) as Hiff.
  destruct (object i s) as [c|] eqn:Hobj.
  - destruct (object i s') as [c'|];
      [|discriminate (proj1 Hiff eq_refl)].
    destruct IH as (rest & -> & Hrest).
    eexists. split; [reflexivity|].
    apply Forall_app. split; [exact Hrest|].
    clear Hl. induction Hk as [|p l [Hp _] _ IHl]; simpl; [constructor|].
    match goal with
    | |- context [String.eqb ?a ?b] => destruct (String.eqb a b)
    end; simpl; [constructor|]; auto.
  - rewrite (proj2 Hiff eq_refl), IH. simpl.
    clear Hl. induction Hk as [|p l [_ Hp] _ IHl]; simpl; [reflexivity|].
    match goal with
    | |- context [String.eqb ?a ?b] =>
        destruct (String.eqb_spec a b) as [E|E]
    end; [|exact IHl].
    exfalso. apply Hp. rewrite <- Hobj. f_equal. exact E.
Qed.

Lemma reachable_greeted s : reachable s -> greeted s.
Proof.
  induction 1 as [|s e Hs IH He].
  - intros i. reflexivity.
  - destruct (step_writes s e Hs He) as (l & Hl & Hall).
    destruct e as [k|j m|j|j|j];
      [apply greeted_connection; assumption| | | |];
      (apply (greeted_step s _ l IH Hl);
       [apply step_ids; discriminate|];
       eapply Forall_impl; [|exact Hall]; intros p [_ H]; exact H).
Qed.

(** Every client the server has accepted was first sent its own
    client-id, and no client-id message was written to it after that;
    nothing at all is written for an identity the server has not
    accepted. *)
Theorem client_id_is_sent_first_and_once (s : Server) :
  reachable s ->
  (forall c, In c (clients s) ->
     exists rest,
       received_by (id c) s = MsgClientId (id c) :: rest
       /\ forall m, In m rest -> is_client_id m = false)
  /\ (forall i, object i s = None -> received_by i s = []).
Proof.
  intros Hr. pose proof (reachable_greeted s Hr) as Hg.
  destruct (reachable_well_formed s Hr) as (Hu & _ & _).
  split.
  - intros c Hin. specialize (Hg (id c)).
    unfold object in Hg. rewrite (In_object _ _ Hu Hin) in Hg.
    destruct Hg as (rest & E & Hrest). exists rest. split; [exact E|].
    rewrite Forall_forall in Hrest. exact Hrest.
  - intros i Hi. specialize (Hg i). rewrite Hi in Hg. exact Hg.
Qed.

(** *** A socket that fails *)

Lemma find_absent (q : Client -> bool) i l :
  ~ In i (map id l) ->
  find (fun c => String.eqb (id c) i && q c) l = None.
Proof.
  induction l as [|x l IH]; simpl; [reflexivity|].
  intros Hn. destruct (String.eqb_spec (id x) i) as [E|E]; [tauto|].
  simpl. apply IH. tauto.
Qed.

(** Once the object of [i] is flagged as deleted, [clients.get(i)]
    finds nothing. *)
Lemma clients_get_deleted i f s :
  unique_ids s ->
  (forall c, id (f c) = id c) -> (forall c, inMap (f c) = false) ->
  clients_get i (mutate i f s) = None.
Proof.
  unfold unique_ids, clients_get, mutate, set_clients. cbn [clients].
  intros Hu Hid Hdel.
  induction (clients s) as [|x l IH]; simpl; [reflexivity|].
  inversion Hu as [|? ? Hnotin Hu']; subst.
  destruct (String.eqb_spec (id x) i) as [E|E]; simpl.
  - rewrite Hid, Hdel, andb_false_r. apply find_absent.
    rewrite <- E. exact Hnotin.
  - destruct (String.eqb_spec (id x) i) as [E'|_]; [contradiction|].
    simpl. apply IH. exact Hu'.
Qed.

Lemma mutate_twice i f g s :
  (forall c, id (f c) = id c) ->
  mutate i g (mutate i f s) = mutate i (fun c => g (f c)) s.
Proof.
  intros Hf. unfold mutate, set_clients. cbn [clients waitingClient sent].
  rewrite update_twice by exact Hf. reflexivity.
Qed.

Lemma on_message_unlisted i m s :
  clients_get i s = None -> on_message i m s = s.
Proof. unfold on_message. intros ->. destruct m; reflexivity. Qed.

Lemma on_close_unlisted i s :
  clients_get i s = None ->
  on_close i s
  = mutate i (set_inMap false)
      (match waitingClient s with
       | Some w => if String.eqb w i then set_waiting None s else s
       | None => s
       end).
Proof.
  intros H. unfold on_close. cbv zeta.
  assert (E : clients_get i
                (match waitingClient s with
                 | Some w => if String.eqb w i then set_waiting None s
                             else s
                 | None => s
                 end) = None).
  { destruct (waitingClient s) as [w|];
      [destruct (String.eqb w i)|]; exact H. }
  rewrite E. reflexivity.
Qed.

(** When a socket fails, the error handler only deletes the client from
    the Map: nothing is written, and the waiting slot is left as it is
    even when the failed client holds it.  From then on a message of
    that client is ignored, and when its close event follows, the close
    handler finds no client and writes nothing either, so the opponent
    of a client whose socket failed is never told; the waiting slot is
    released at that point. *)
Theorem failed_socket_is_dropped_silently (s : Server) (i : ClientId) :
  reachable s -> enabled (Failed i) s ->
  let s1 := step (Failed i) s in
  let s2 := step (Closed i) s1 in
  (sent s1 = sent s /\ waitingClient s1 = waitingClient s
   /\ clients_get i s1 = None)
  /\ (forall m, on_message i m s1 = s1)
  /\ enabled (Closed i) s1
  /\ sent s2 = sent s
  /\ waitingClient s2
     = match waitingClient s with
       | Some w => if String.eqb w i then None else Some w
       | None => None
       end.
Proof.
  intros Hr He s1 s2.
  destruct (reachable_well_formed s Hr) as (Hu & _ & _).
  assert (E1 : s1 = mutate i (fun c => set_inMap false
                                         (set_readyState WsClosing c)) s).
  { unfold s1, step, on_error. apply mutate_twice. reflexivity. }
  assert (Hgone : clients_get i s1 = None).
  { rewrite E1. apply clients_get_deleted; [exact Hu| |]; reflexivity. }
  split; [repeat split; [exact Hgone]|].
  split; [intros m; apply on_message_unlisted; exact Hgone|].
  assert (Hen : enabled (Closed i) s1).
  { simpl in He |- *. unfold socket_state in *.
    destruct (object i s) as [c|] eqn:Hobj; [|discriminate].
    rewrite E1.
    rewrite (object_mutate_same i _ s c Hobj) by reflexivity.
    exists WsClosing. split; [reflexivity|discriminate]. }
  split; [exact Hen|].
  assert (E2 : mutate i (set_readyState WsClosed) s1
               = mutate i (fun c => set_readyState WsClosed
                                      (set_inMap false
                                         (set_readyState WsClosing c))) s).
  { rewrite E1. apply mutate_twice. reflexivity. }
  assert (Hgone2 : clients_get i (mutate i (set_readyState WsClosed) s1)
                   = None).
  { rewrite E2. apply clients_get_deleted; [exact Hu| |]; reflexivity. }
  unfold s2, step. fold (step (Failed i) s). fold s1.
  rewrite (on_close_unlisted i _ Hgone2).
  assert (Hw : waitingClient (mutate i (set_readyState WsClosed) s1)
               = waitingClient s) by reflexivity.
  rewrite Hw.
  destruct (waitingClient s) as [w|]; [destruct (String.eqb w i)|];
    (split; [reflexivity|first [reflexivity|exact Hw]]).
Qed.

(** *** The waiting client leaves *)

(** When the client that holds the waiting slot disconnects, the slot
    is cleared and the client is deleted from the Map, so it can no
    longer be matched: the next client that asks for a match is told to
    wait and takes the slot itself. *)
Theorem waiting_client_that_leaves_is_not_matched
    (s : Server) (w : ClientId) :
  reachable s -> waitingClient s = Some w -> enabled (Closed w) s ->
  let s1 := step (Closed w) s in
  waitingClient s1 = None
  /\ clients_get w s1 = None
  /\ forall z, enabled (Received z FindMatch) s1 ->
       let s2 := step (Received z FindMatch) s1 in
       waitingClient s2 = Some z
       /\ clients s2 = clients s1
       /\ sent s2 = sent s1 ++ [(z, MsgWaiting)].
Proof.
  intros Hr Hw He s1.
  destruct (reachable_well_formed s Hr) as (Hu & _ & _).
  assert (Hr1 : reachable s1) by (apply reach_step; assumption).
  assert (Hw1 : waitingClient s1 = None).
  { unfold s1, step, on_close. cbv zeta.
    cbn [mutate set_clients waitingClient]. rewrite Hw, String.eqb_refl.
    cbn [set_waiting waitingClient].
    match goal with
    | |- context [clients_get w ?t] =>
        destruct (clients_get w t) as [c|]; [|reflexivity];
        destruct (role c) as [r|]; [|reflexivity];
        destruct (clients_find _ t) as [o|]; [|reflexivity];
        destruct (is_open o); reflexivity
    end. }
  split; [exact Hw1|]. split.
  - unfold clients_get.
    replace (clients s1)
      with (clients (mutate w (fun c => set_inMap false
                                          (set_readyState WsClosed c)) s)).
    + apply clients_get_deleted; [exact Hu| |]; reflexivity.
    + unfold s1, step. rewrite clients_on_close.
      unfold mutate, set_clients. cbn [clients].
      rewrite update_twice by reflexivity. reflexivity.
  - intros z Hz s2.
    destruct (received_is_listed s1 z FindMatch Hr1 Hz)
      as (c & Hget & Hopen).
    destruct (reachable_well_formed s1 Hr1) as (Hu1 & _ & _).
    destruct (clients_get_object _ _ _ Hu1 Hget) as [Hobj _].
    unfold s2. cbn [step]. unfold on_message. rewrite Hget.
    rewrite (findMatch_waits s1 z c) by auto.
    unfold to_open. rewrite Hopen, (object_id _ _ _ Hobj).
    simpl. auto.
Qed.

(** *** Paired clients reach each other *)

Lemma listed_object i s c :
  object i s = Some c -> inMap c = true -> clients_get i s = Some c.
Proof. intros H Hm. unfold clients_get. apply find_strengthen; assumption. Qed.

(** Once the caller has been paired with the waiting client, a signal
    of either of the two is forwarded to the other one, and to nobody
    else. *)
Theorem paired_clients_exchange_signals
    (s : Server) (w caller : ClientId) (d : string) :
  reachable s ->
  waitingClient s = Some w -> w <> caller -> w <> "" -> caller <> "" ->
  enabled (Received caller FindMatch) s ->
  socket_state w s = Some WsOpen ->
  let s1 := step (Received caller FindMatch) s in
  step (Received caller (Signal d)) s1 = ws_send w (MsgSignal caller d) s1
  /\ step (Received w (Signal d)) s1 = ws_send caller (MsgSignal w d) s1.
Proof.
  intros Hr Hw Hne Hwne Hcne He Hopen s1.
  destruct (reachable_well_formed s Hr) as (Hu & _ & Hlisted).
  destruct (received_is_listed s caller FindMatch Hr He)
    as (cc & Hget & Hcopen).
  destruct (clients_get_object _ _ _ Hu Hget) as [Hcc Hcmap].
  unfold socket_state in Hopen.
  destruct (object w s) as [cw|] eqn:Hcw; [|discriminate].
  simpl in Hopen. injection Hopen as Hst.
  assert (Hwopen : is_open cw = true) by (unfold is_open; rewrite Hst; auto).
  assert (Hwmap : inMap cw = true).
  { rewrite Forall_forall in Hlisted.
    apply (Hlisted cw (object_In _ _ _ Hcw) Hwopen). }
  assert (E : s1 = handleFindMatch caller s)
    by (unfold s1, step, on_message; rewrite Hget; reflexivity).
  rewrite (findMatch_pairs s caller cc w cw Hu Hget Hw Hne Hcw) in E.
  assert (Hw1 : clients_get w s1 = Some (assign RoleA true caller cw)).
  { apply listed_object; [|exact Hwmap].
    rewrite E. unfold object. cbn [clients].
    rewrite update_other by (auto using assign_id).
    apply update_same; [exact Hcw|reflexivity]. }
  assert (Hc1 : clients_get caller s1 = Some (assign RoleB false w cc)).
  { apply listed_object; [|exact Hcmap].
    rewrite E. unfold object. cbn [clients].
    apply update_same; [|reflexivity].
    rewrite update_other by (auto using assign_id). exact Hcc. }
  split.
  - unfold step, on_message. rewrite Hc1.
    apply handleSignal_relays.
    exists (assign RoleB false w cc), (assign RoleA true caller cw).
    repeat split; auto.
  - unfold step, on_message. rewrite Hw1.
    apply handleSignal_relays.
    exists (assign RoleA true caller cw), (assign RoleB false w cc).
    repeat split; auto.
Qed.

(** *** Pairing follows the order of arrival *)

Definition fresh (i : ClientId) : Client :=
  {| id := i; inMap := true; readyState := WsOpen; role := None;
     isInitiator := None; opponentId := None |}.

Definition matched (r : Role) (initiator : bool) (i opp : ClientId)
  : Client :=
  {| id := i; inMap := true; readyState := WsOpen; role := Some r;
     isInitiator := Some initiator; opponentId := Some opp |}.

(** A client connects and asks for a match at once. *)
Definition arrival (i : ClientId) : list Event :=
  [Connected i; Received i FindMatch].

Definition arrivals (l : list ClientId) : list Event := flat_map arrival l.

Definition pair_ids (p : ClientId * ClientId) : list ClientId :=
  [fst p; snd p].

Definition pair_clients (p : ClientId * ClientId) : list Client :=
  [matched RoleA true (fst p) (snd p); matched RoleB false (snd p) (fst p)].

Definition pair_writes (p : ClientId * ClientId)
  : list (ClientId * ServerMsg) :=
  [(fst p, MsgClientId (fst p)); (fst p, MsgWaiting);
   (snd p, MsgClientId (snd p));
   (fst p, match_found RoleA (snd p) true);
   (snd p, match_found RoleB (fst p) false)].

Lemma update_absent i f l l' :
  ~ In i (map id l) -> update i f (l ++ l') = l ++ update i f l'.
Proof.
  induction l as [|x l IH]; simpl; [reflexivity|].
  intros Hn. destruct (String.eqb_spec (id x) i) as [E|E]; [tauto|].
  rewrite IH by tauto. reflexivity.
Qed.

Lemma object_absent i s : ~ In i (map id (clients s)) -> object i s = None.
Proof. apply object_None_iff. Qed.

Lemma run_app es es' s : run (es ++ es') s = run es' (run es s).
Proof. unfold run. apply fold_left_app. Qed.

Lemma deliverable_app es es' s :
  deliverable es s -> deliverable es' (run es s) ->
  deliverable (es ++ es') s.
Proof.
  revert s. induction es as [|e es IH]; intros s H H'; simpl in *;
    [exact H'|].
  destruct H as [He H]. split; [exact He|]. apply IH; assumption.
Qed.

(** The first of two: it connects, asks, and waits. *)
Lemma arrival_waits s i :
  ~ In i (map id (clients s)) -> waitingClient s = None ->
  run (arrival i) s
  = {| clients := clients s ++ [fresh i]; waitingClient := Some i;
       sent := sent s ++ [(i, MsgClientId i); (i, MsgWaiting)] |}
  /\ deliverable (arrival i) s.
Proof.
  intros Hi Hw.
  assert (Hget : find (fun c => String.eqb (id c) i && inMap c)
                   (clients s ++ [fresh i]) = Some (fresh i)).
  { rewrite find_app, (find_absent _ i _ Hi). simpl.
    rewrite String.eqb_refl. reflexivity. }
  assert (Hobj : find (fun c => String.eqb (id c) i)
                   (clients s ++ [fresh i]) = Some (fresh i)).
  { rewrite find_app. fold (object i s). rewrite (object_absent i s Hi).
    simpl. rewrite String.eqb_refl. reflexivity. }
  assert (E1 : on_connection i s
               = {| clients := clients s ++ [fresh i];
                    waitingClient := None;
                    sent := sent s ++ [(i, MsgClientId i)] |}).
  { unfold on_connection, ws_send, set_clients. simpl. rewrite Hw.
    reflexivity. }
  split.
  - unfold arrival, run. cbn [fold_left]. unfold step at 2. rewrite E1.
    unfold step, on_message, clients_get. cbn [clients]. rewrite Hget.
    unfold handleFindMatch. cbn [waitingClient].
    unfold send_if_open, object. cbn [set_waiting clients]. rewrite Hobj.
    unfold ws_send. simpl. rewrite <- app_assoc. reflexivity.
  - simpl. split; [apply object_absent; exact Hi|]. split; [|exact I].
    rewrite E1. unfold socket_state, object. cbn [clients].
    rewrite Hobj. reflexivity.
Qed.

Lemma update_present i f l l' :
  In i (map id l) -> update i f (l ++ l') = update i f l ++ l'.
Proof.
  induction l as [|x l IH]; simpl; [tauto|].
  intros Hin. destruct (String.eqb_spec (id x) i) as [E|E]; [reflexivity|].
  rewrite IH by tauto. reflexivity.
Qed.

Lemma object_listed i s c : object i s = Some c -> In i (map id (clients s)).
Proof.
  intros H. rewrite <- (object_id _ _ _ H). apply in_map.
  apply (object_In i s). exact H.
Qed.

(** The second of two: it connects, asks, and is paired with the one
    that waits. *)
Lemma arrival_pairs s w i cw :
  unique_ids s -> ~ In i (map id (clients s)) ->
  waitingClient s = Some w -> object w s = Some cw -> is_open cw = true ->
  run (arrival i) s
  = {| clients := update w (assign RoleA true i) (clients s)
                  ++ [matched RoleB false i w];
       waitingClient := None;
       sent := sent s ++ [(i, MsgClientId i);
                          (w, match_found RoleA i true);
                          (i, match_found RoleB w false)] |}
  /\ deliverable (arrival i) s.
Proof.
  intros Hu Hi Hw Hcw Hopen.
  pose proof (object_listed _ _ _ Hcw) as Hwin.
  assert (Hne : w <> i) by (intros ->; contradiction).
  assert (E1 : on_connection i s
               = {| clients := clients s ++ [fresh i];
                    waitingClient := Some w;
                    sent := sent s ++ [(i, MsgClientId i)] |}).
  { unfold on_connection, ws_send, set_clients. simpl. rewrite Hw.
    reflexivity. }
  set (s1 := {| clients := clients s ++ [fresh i];
                waitingClient := Some w;
                sent := sent s ++ [(i, MsgClientId i)] |}) in *.
  assert (Hu1 : unique_ids s1).
  { unfold unique_ids, s1. cbn [clients]. rewrite map_app. simpl.
    apply NoDup_app; [exact Hu|repeat constructor; intros []|].
    intros x Hx [<-|[]]. contradiction. }
  assert (Hget : clients_get i s1 = Some (fresh i)).
  { unfold clients_get, s1. cbn [clients].
    rewrite find_app, (find_absent _ i _ Hi). simpl.
    rewrite String.eqb_refl. reflexivity. }
  assert (Hobj : object i s1 = Some (fresh i)).
  { unfold object, s1. cbn [clients]. rewrite find_app.
    fold (object i s). rewrite (object_absent i s Hi). simpl.
    rewrite String.eqb_refl. reflexivity. }
  assert (Hcw1 : object w s1 = Some cw).
  { unfold object, s1. cbn [clients]. rewrite find_app.
    fold (object w s). rewrite Hcw. reflexivity. }
  split.
  - unfold arrival, run. cbn [fold_left]. unfold step at 2. rewrite E1.
    unfold step, on_message. rewrite Hget.
    rewrite (findMatch_pairs s1 i (fresh i) w cw Hu1 Hget eq_refl Hne Hcw1).
    unfold to_open. rewrite Hopen, (object_id _ _ _ Hcw).
    cbn [is_open fresh readyState id].
    unfold s1. cbn [clients sent].
    rewrite update_present by exact Hwin.
    rewrite update_absent
      by (rewrite update_ids by reflexivity; exact Hi).
    simpl. rewrite String.eqb_refl, <- app_assoc. reflexivity.
  - simpl. split; [apply object_absent; exact Hi|]. split; [|exact I].
    rewrite E1. unfold socket_state. rewrite Hobj. reflexivity.
Qed.

(** Two arrivals in a row on a server where nobody waits. *)
Lemma pair_arrives s p :
  unique_ids s -> waitingClient s = None ->
  ~ In (fst p) (map id (clients s)) -> ~ In (snd p) (map id (clients s)) ->
  fst p <> snd p ->
  run (arrivals (pair_ids p)) s
  = {| clients := clients s ++ pair_clients p; waitingClient := None;
       sent := sent s ++ pair_writes p |}
  /\ deliverable (arrivals (pair_ids p)) s.
Proof.
  destruct p as [a b]. cbn [fst snd]. intros Hu Hw Ha Hb Hab.
  destruct (arrival_waits s a Ha Hw) as [Ea Da].
  set (sa := {| clients := clients s ++ [fresh a]; waitingClient := Some a;
                sent := sent s ++ [(a, MsgClientId a); (a, MsgWaiting)] |})
    in *.
  assert (Hua : unique_ids sa).
  { unfold unique_ids, sa. cbn [clients]. rewrite map_app. simpl.
    apply NoDup_app; [exact Hu|repeat constructor; intros []|].
    intros x Hx [<-|[]]. contradiction. }
  assert (Hoa : object a sa = Some (fresh a)).
  { unfold object, sa. cbn [clients]. rewrite find_app.
    fold (object a s). rewrite (object_absent a s Ha). simpl.
    rewrite String.eqb_refl. reflexivity. }
  assert (Hb1 : ~ In b (map id (clients sa))).
  { unfold sa. cbn [clients]. rewrite map_app, in_app_iff. simpl.
    intros [H|[H|[]]]; [contradiction|]. apply Hab. exact H. }
  destruct (arrival_pairs sa a b (fresh a) Hua Hb1 eq_refl Hoa eq_refl)
    as [Eb Db].
  unfold arrivals, pair_ids. cbn [flat_map fst snd].
  rewrite app_nil_r. split.
  - rewrite run_app, Ea, Eb. unfold sa. cbn [clients sent].
    rewrite update_absent by exact Ha. simpl.
    rewrite String.eqb_refl, <- !app_assoc. reflexivity.
  - apply deliverable_app; [exact Da|]. rewrite Ea. exact Db.
Qed.

(** Clients that arrive one after the other on a server where nobody
    waits are paired in the order of arrival: the first with the
    second, the third with the fourth, and so on; the earlier of a pair
    becomes the initiator (role A), the later the responder (role B).
    The server ends with exactly these client records appended, the
    waiting slot empty, and exactly the greetings, waiting replies and
    match-found messages of the pairs written, pair after pair.  A
    last client without a partner is left waiting. *)
Theorem arrivals_are_paired_in_order
    (ps : list (ClientId * ClientId)) (s : Server) :
  waitingClient s = None ->
  NoDup (map id (clients s) ++ flat_map pair_ids ps) ->
  let s' := run (arrivals (flat_map pair_ids ps)) s in
  deliverable (arrivals (flat_map pair_ids ps)) s
  /\ s' = {| clients := clients s ++ flat_map pair_clients ps;
             waitingClient := None;
             sent := sent s ++ flat_map pair_writes ps |}
  /\ forall z,
       ~ In z (map id (clients s) ++ flat_map pair_ids ps) ->
       run (arrival z) s'
       = {| clients := clients s' ++ [fresh z]; waitingClient := Some z;
            sent := sent s' ++ [(z, MsgClientId z); (z, MsgWaiting)] |}.
Proof.
  intros Hw Hnd.
  assert (Hmain :
    deliverable (arrivals (flat_map pair_ids ps)) s
    /\ run (arrivals (flat_map pair_ids ps)) s
       = {| clients := clients s ++ flat_map pair_clients ps;
            waitingClient := None;
            sent := sent s ++ flat_map pair_writes ps |}).
  { revert s Hw Hnd. induction ps as [|p ps IH]; intros s Hw Hnd.
    - simpl. rewrite !app_nil_r. split; [exact I|].
      destruct s; simpl in *. subst. reflexivity.
    - cbn [flat_map] in *.
      assert (Hu : unique_ids s)
        by (apply NoDup_app_remove_r in Hnd; exact Hnd).
      assert (Ha : ~ In (fst p) (map id (clients s))).
      { intros H. apply NoDup_remove_2 with (l := map id (clients s))
                    (l' := snd p :: flat_map pair_ids ps) (a := fst p).
        - exact Hnd.
        - apply in_or_app. left. exact H. }
      assert (Hnd2 : NoDup (map id (clients s)
                            ++ snd p :: flat_map pair_ids ps))
        by (apply NoDup_remove_1 with (a := fst p); exact Hnd).
      assert (Hb : ~ In (snd p) (map id (clients s))).
      { intros H. apply NoDup_remove_2 with (l := map id (clients s))
                    (l' := flat_map pair_ids ps) (a := snd p).
        - exact Hnd2.
        - apply in_or_app. left. exact H. }
      assert (Hab : fst p <> snd p).
      { intros E. apply NoDup_remove_2 in Hnd. apply Hnd.
        apply in_or_app. right. left. symmetry. exact E. }
      destruct (pair_arrives s p Hu Hw Ha Hb Hab) as [Ep Dp].
      unfold arrivals in *. rewrite flat_map_app.
      set (sp := {| clients := clients s ++ pair_clients p;
                    waitingClient := None;
                    sent := sent s ++ pair_writes p |}) in *.
      destruct (IH sp eq_refl) as [Dps Eps].
      { unfold sp. cbn [clients]. rewrite map_app.
        cbn [pair_clients map id matched]. rewrite <- app_assoc.
        exact Hnd. }
      split.
      + apply deliverable_app; [exact Dp|]. rewrite Ep. exact Dps.
      + rewrite run_app, Ep, Eps.
        unfold sp. cbn [clients sent]. rewrite <- !app_assoc.
        reflexivity. }
  destruct Hmain as [Hd He]. cbv zeta. split; [exact Hd|].
  split; [exact He|].
  intros z Hz. rewrite He.
  match goal with
  | |- run (arrival z) ?t = _ =>
      refine (proj1 (arrival_waits t z _ eq_refl))
  end.
  cbn [clients]. rewrite map_app. intros H. apply Hz.
  apply in_app_or in H as [H|H]; apply in_or_app; [left; exact H|right].
  clear - H. induction ps as [|[a b] ps IH]; simpl in *; [exact H|].
  destruct H as [H|[H|H]]; auto.
Qed.

(** *** Runs *)

(** "a" and "b" arrived in this order and are matched. *)
Definition a_b_matched : Server := run (arrivals ["a"; "b"]) init.

Lemma a_waits_reachable : reachable a_waits.
Proof.
  apply reachable_run; [apply reach_init|].
  simpl. repeat split; reflexivity.
Defined.

Lemma a_b_matched_reachable : reachable a_b_matched.
Proof.
  apply reachable_run; [apply reach_init|].
  simpl. repeat split; reflexivity.
Defined.

Lemma server_writes_to_open_sockets_only_witness :
  reachable a_waits /\ enabled (Received "b" FindMatch) a_waits
  /\ exists l,
       sent (step (Received "b" FindMatch) a_waits) = sent a_waits ++ l
       /\ forall i m, In (i, m) l ->
            socket_state i (step (Received "b" FindMatch) a_waits)
            = Some WsOpen.
Proof.
  split; [exact a_waits_reachable|]. split; [reflexivity|].
  apply server_writes_to_open_sockets_only;
    [exact a_waits_reachable|reflexivity].
Defined.

Lemma client_id_is_sent_first_and_once_witness :
  reachable a_b_matched
  /\ (forall c, In c (clients a_b_matched) ->
        exists rest,
          received_by (id c) a_b_matched = MsgClientId (id c) :: rest
          /\ forall m, In m rest -> is_client_id m = false)
  /\ (forall i, object i a_b_matched = None ->
        received_by i a_b_matched = []).
Proof.
  split; [exact a_b_matched_reachable|].
  apply client_id_is_sent_first_and_once. exact a_b_matched_reachable.
Defined.

Lemma failed_socket_is_dropped_silently_witness :
  let s1 := step (Failed "a") a_b_matched in
  let s2 := step (Closed "a") s1 in
  reachable a_b_matched /\ enabled (Failed "a") a_b_matched
  /\ option_map opponentId (object "a" a_b_matched) = Some (Some "b")
  /\ socket_state "b" a_b_matched = Some WsOpen
  /\ (sent s1 = sent a_b_matched
      /\ waitingClient s1 = waitingClient a_b_matched
      /\ clients_get "a" s1 = None)
  /\ (forall m, on_message "a" m s1 = s1)
  /\ enabled (Closed "a") s1
  /\ sent s2 = sent a_b_matched
  /\ waitingClient s2 = None.
Proof.
  cbv zeta. split; [exact a_b_matched_reachable|].
  split; [reflexivity|]. split; [reflexivity|]. split; [reflexivity|].
  apply (failed_socket_is_dropped_silently a_b_matched "a");
    [exact a_b_matched_reachable|reflexivity].
Defined.

Lemma paired_clients_exchange_signals_witness :
  let s1 := step (Received "b" FindMatch) a_waits in
  reachable a_waits /\ waitingClient a_waits = Some "a"
  /\ step (Received "b" (Signal "offer")) s1
     = ws_send "a" (MsgSignal "b" "offer") s1
  /\ step (Received "a" (Signal "answer")) s1
     = ws_send "b" (MsgSignal "a" "answer") s1.
Proof.
  cbv zeta. split; [exact a_waits_reachable|]. split; [reflexivity|].
  split.
  - apply (paired_clients_exchange_signals a_waits "a" "b" "offer");
      try reflexivity; try discriminate. exact a_waits_reachable.
  - apply (paired_clients_exchange_signals a_waits "a" "b" "answer");
      try reflexivity; try discriminate. exact a_waits_reachable.
Defined.

Lemma arrivals_are_paired_in_order_witness :
  let s' := run (arrivals ["p1"; "p2"; "p3"; "p4"]) init in
  deliverable (arrivals ["p1"; "p2"; "p3"; "p4"]) init
  /\ s' = {| clients := [matched RoleA true "p1" "p2";
                         matched RoleB false "p2" "p1";
                         matched RoleA true "p3" "p4";
                         matched RoleB false "p4" "p3"];
             waitingClient := None;
             sent := pair_writes ("p1", "p2") ++ pair_writes ("p3", "p4") |}
  /\ waitingClient (run (arrival "p5") s') = Some "p5".
Proof.
  destruct (arrivals_are_paired_in_order
              [("p1", "p2"); ("p3", "p4")] init eq_refl)
    as (Hd & He & Hz).
  { simpl. repeat constructor; simpl; intuition discriminate. }
  cbv zeta. split; [exact Hd|]. split; [exact He|].
  assert (H5 : ~ In "p5" (map id (clients init)
                          ++ flat_map pair_ids [("p1", "p2"); ("p3", "p4")]))
    by (simpl; intuition discriminate).
  exact (f_equal waitingClient (Hz "p5" H5)).
Defined.

(** "a" waits. *)
Definition a_alone : Server := run (arrival "a") init.

Lemma a_alone_reachable : reachable a_alone.
Proof.
  apply reachable_run; [apply reach_init|].
  simpl. repeat split; reflexivity.
Defined.

Lemma waiting_client_that_leaves_is_not_matched_witness :
  let s1 := step (Closed "a") a_alone in
  reachable a_alone /\ waitingClient a_alone = Some "a"
  /\ waitingClient s1 = None
  /\ clients_get "a" s1 = None
  /\ forall z, enabled (Received z FindMatch) s1 ->
       let s2 := step (Received z FindMatch) s1 in
       waitingClient s2 = Some z
       /\ clients s2 = clients s1
       /\ sent s2 = sent s1 ++ [(z, MsgWaiting)].
Proof.
  cbv zeta. split; [exact a_alone_reachable|]. split; [reflexivity|].
  apply (waiting_client_that_leaves_is_not_matched a_alone "a");
    [exact a_alone_reachable|reflexivity|].
  exists WsOpen. split; [reflexivity|discriminate].
Defined.

End RelayProtocol.

(** ** Matchmaking over the shared registry: joining, the handshake,
    repeated calls, leaving *)

Module RegistryFacts.
Import Js Matchmaker.
Local Open Scope Z_scope.

(** *** The registry seen through its filters *)

(** No entry of the list belongs to [i]. *)
Definition unlisted (i : PeerId) (l : list Peer) : Prop :=
  forall p, In p l -> id p <> i.

(** No entry of the list is a host entry. *)
Definition hostless (l : list Peer) : Prop :=
  forall p, In p l -> is_host p = false.

Lemma activePeers_app now l l' :
  activePeers now (l ++ l') = activePeers now l ++ activePeers now l'.
Proof. apply filter_app. Qed.

Lemma activePeers_In now l p : In p (activePeers now l) -> In p l.
Proof. unfold activePeers. intros H. apply filter_In in H. tauto. Qed.

Lemma find_none_app {A} (q : A -> bool) l l' :
  (forall x, In x l -> q x = false) ->
  find q (l ++ l') = find q l'.
Proof.
  induction l as [|x l IH]; intros H; simpl; [reflexivity|].
  rewrite (H x (or_introl eq_refl)). apply IH.
  intros y Hy. apply H. right. exact Hy.
Qed.

Lemma filter_none {A} (q : A -> bool) l :
  (forall x, In x l -> q x = false) -> filter q l = [].
Proof.
  induction l as [|x l IH]; intros H; simpl; [reflexivity|].
  rewrite (H x (or_introl eq_refl)). apply IH.
  intros y Hy. apply H. right. exact Hy.
Qed.

Lemma looking_is_host p : is_looking_host p = true -> is_host p = true.
Proof. unfold is_looking_host, is_host. intros H. apply andb_prop in H. tauto. Qed.

Lemma hostless_not_looking l p :
  hostless l -> In p l -> is_looking_host p = false.
Proof.
  intros Hl Hp. destruct (is_looking_host p) eqn:E; [|reflexivity].
  rewrite <- (Hl p Hp). symmetry. apply looking_is_host. exact E.
Qed.

Lemma unlisted_eqb i l p :
  unlisted i l -> In p l -> String.eqb (id p) i = false.
Proof. intros H Hp. apply String.eqb_neq. apply H. exact Hp. Qed.

Lemma find_own_unlisted now i l l' :
  unlisted i l ->
  find (fun p => String.eqb (id p) i) (activePeers now (l ++ l'))
  = find (fun p => String.eqb (id p) i) (activePeers now l').
Proof.
  intros H. rewrite activePeers_app. apply find_none_app.
  intros p Hp. apply (unlisted_eqb i l); [exact H|].
  apply (activePeers_In now). exact Hp.
Qed.

Lemma find_host_hostless now l l' :
  hostless l ->
  find is_looking_host (activePeers now (l ++ l'))
  = find is_looking_host (activePeers now l').
Proof.
  intros H. rewrite activePeers_app. apply find_none_app.
  intros p Hp. apply (hostless_not_looking l); [exact H|].
  apply (activePeers_In now). exact Hp.
Qed.

Lemma looking_hosts_hostless now l l' :
  hostless l ->
  filter is_looking_host (activePeers now (l ++ l'))
  = filter is_looking_host (activePeers now l').
Proof.
  intros H. rewrite activePeers_app, filter_app.
  rewrite (filter_none is_looking_host (activePeers now l)); [reflexivity|].
  intros p Hp. apply (hostless_not_looking l); [exact H|].
  apply (activePeers_In now). exact Hp.
Qed.

Lemma hosts_hostless now l l' :
  hostless l ->
  filter is_host (activePeers now (l ++ l'))
  = filter is_host (activePeers now l').
Proof.
  intros H. rewrite activePeers_app, filter_app.
  rewrite (filter_none is_host (activePeers now l)); [reflexivity|].
  intros p Hp. apply H. apply (activePeers_In now). exact Hp.
Qed.

Lemma update_first_unlisted i f l l' :
  unlisted i l -> update_first i f (l ++ l') = l ++ update_first i f l'.
Proof.
  induction l as [|x l IH]; intros H; simpl; [reflexivity|].
  rewrite (unlisted_eqb i (x :: l) x H (or_introl eq_refl)).
  rewrite IH; [reflexivity|]. intros p Hp. apply H. right. exact Hp.
Qed.

Lemma without_unlisted i l : unlisted i l -> without i l = l.
Proof.
  induction l as [|x l IH]; intros H; simpl; [reflexivity|].
  rewrite (unlisted_eqb i (x :: l) x H (or_introl eq_refl)). simpl.
  rewrite IH; [reflexivity|]. intros p Hp. apply H. right. exact Hp.
Qed.

(** *** [findMatch] of a tab that is not registered *)

(** The manager of a guest that asked [host] to let it join. *)
Definition joined_manager (i host : PeerId) : Manager :=
  set_isSignalingConnected true
    (set_opponentId (Some host) (set_role PlayerB (new_manager i))).

Definition join_request (from to : PeerId) (now : Z) : Message :=
  {| body := JoinRequest; fromPeer := from; toPeer := Some to;
     targetPeer := Some to; sentAt := now |}.

Definition join_accept (from to : PeerId) (now : Z) : Message :=
  {| body := JoinAccept; fromPeer := from; toPeer := Some to;
     targetPeer := Some to; sentAt := now |}.

Lemma unlisted_active now i l :
  unlisted i l ->
  find (fun p => String.eqb (id p) i) (activePeers now l) = None.
Proof.
  intros H. rewrite <- (app_nil_r l), find_own_unlisted by exact H.
  reflexivity.
Qed.

Lemma findMatch_registers now i st :
  unlisted i (peers st) ->
  find is_looking_host (activePeers now (peers st)) = None ->
  findMatch now (new_manager i, st)
  = (ElectionFacts.registered_manager i,
     set_peers (peers st ++ [host_entry i now]) st).
Proof.
  intros Hi Hh. unfold findMatch, electLeader, tryRegisterAsHost.
  cbn [new_manager isSignalingConnected negb orb peerId].
  rewrite (unlisted_active now i _ Hi), Hh. reflexivity.
Qed.

Lemma findMatch_joins now i st hp :
  unlisted i (peers st) ->
  find is_looking_host (activePeers now (peers st)) = Some hp ->
  findMatch now (new_manager i, st)
  = (joined_manager i (id hp),
     {| peers := peers st ++ [guest_entry i now (id hp)];
        signaling := signaling st ++ [join_request i (id hp) now] |}).
Proof.
  intros Hi Hh. unfold findMatch, electLeader, tryRegisterAsHost.
  cbn [new_manager isSignalingConnected negb orb peerId].
  rewrite (unlisted_active now i _ Hi), Hh. reflexivity.
Qed.

(** A tab that is not in the registry and asks for a match registers
    itself as host (role A, initiator, looking for a match, verification
    pending) when no active host is looking for a match, and writes
    nothing to the signaling key.  Otherwise it joins the first such
    host in registry order: it registers as guest (role B) matched with
    that host, takes it as opponent, and writes one join-request
    addressed to it.  Either way exactly one registry entry is
    appended and the entries of the others are untouched. *)
Theorem unregistered_tab_registers_or_joins
    (now : Z) (i : PeerId) (st : Storage) :
  unlisted i (peers st) ->
  match find is_looking_host (activePeers now (peers st)) with
  | None =>
      findMatch now (new_manager i, st)
      = (ElectionFacts.registered_manager i,
         {| peers := peers st ++ [host_entry i now];
            signaling := signaling st |})
  | Some hp =>
      findMatch now (new_manager i, st)
      = (joined_manager i (id hp),
         {| peers := peers st ++ [guest_entry i now (id hp)];
            signaling := signaling st ++ [join_request i (id hp) now] |})
  end.
Proof.
  intros Hi.
  destruct (find is_looking_host (activePeers now (peers st))) as [hp|] eqn:E.
  - apply findMatch_joins; assumption.
  - apply findMatch_registers; assumption.
Qed.

(** *** Asking again *)

Lemma own_entry_found now i l e :
  unlisted i l -> id e = i -> active e = true ->
  now - timestamp e < 10000 ->
  find (fun p => String.eqb (id p) i) (activePeers now (l ++ [e]))
  = Some e.
Proof.
  intros Hi He Ha Hlive. rewrite find_own_unlisted by exact Hi.
  unfold activePeers. cbn [filter]. rewrite Ha.
  rewrite (proj2 (Z.ltb_lt _ _) Hlive). cbn [andb find].
  rewrite He, String.eqb_refl. reflexivity.
Qed.

(** A tab that asked for a match and asks again while its own
    registration is live changes nothing: no second registry entry, no
    second join-request, no change of role.  Once its registration as
    host is stale (10 s old) and no host is looking for a match, asking
    again registers the tab a second time, beside its stale entry. *)
Theorem asking_again_while_registered_changes_nothing
    (now1 now2 : Z) (i : PeerId) (st : Storage) :
  unlisted i (peers st) ->
  let t1 := findMatch now1 (new_manager i, st) in
  (now2 - now1 < 10000 -> findMatch now2 t1 = t1)
  /\ (10000 <= now2 - now1 ->
      find is_looking_host (activePeers now1 (peers st)) = None ->
      find is_looking_host (activePeers now2 (peers st)) = None ->
      peers (snd (findMatch now2 t1))
      = peers st ++ [host_entry i now1; host_entry i now2]).
Proof.
  intros Hi t1. split.
  - intros Hlive. unfold t1.
    destruct (find is_looking_host (activePeers now1 (peers st)))
      as [hp|] eqn:E.
    + rewrite (findMatch_joins now1 i st hp Hi E).
      unfold findMatch at 1.
      cbn [joined_manager isSignalingConnected matchmakingComplete
           set_isSignalingConnected set_opponentId set_role new_manager
           negb orb andb].
      destruct (has_opponent _) eqn:Ho; [reflexivity|].
      cbn [negb]. unfold electLeader.
      cbn [peers peerId joined_manager set_isSignalingConnected
           set_opponentId set_role new_manager].
      rewrite (own_entry_found now2 i (peers st)
                 (guest_entry i now1 (id hp)) Hi eq_refl eq_refl Hlive).
      reflexivity.
    + rewrite (findMatch_registers now1 i st Hi E).
      unfold findMatch, electLeader.
      cbn [ElectionFacts.registered_manager isSignalingConnected
           matchmakingComplete set_isSignalingConnected set_role
           set_verifyScheduled new_manager negb orb andb has_opponent
           opponentId Session.truthy peers set_peers peerId].
      rewrite (own_entry_found now2 i (peers st) (host_entry i now1)
                 Hi eq_refl eq_refl Hlive).
      reflexivity.
  - intros Hstale E1 E2. unfold t1.
    rewrite (findMatch_registers now1 i st Hi E1).
    unfold findMatch, electLeader, tryRegisterAsHost.
    cbn [ElectionFacts.registered_manager isSignalingConnected
         matchmakingComplete set_isSignalingConnected set_role
         set_verifyScheduled new_manager negb orb andb has_opponent
         opponentId Session.truthy peers set_peers peerId].
    rewrite !activePeers_app.
    assert (Hgone : activePeers now2 [host_entry i now1] = []).
    { unfold activePeers. cbn [filter host_entry active timestamp andb].
      rewrite (proj2 (Z.ltb_ge _ _) Hstale). reflexivity. }
    rewrite Hgone, app_nil_r, (unlisted_active now2 i _ Hi), E2.
    cbn [becomeHost snd peers set_peers]. rewrite <- app_assoc.
    reflexivity.
Qed.

(** *** The handshake of two tabs *)

Section WithBrowser.
Context {browser : Session.Browser}.

(** The host entry once its tab has accepted a guest. *)
Definition accepted_entry (i : PeerId) (now : Z) : Peer :=
  {| id := i; active := true; timestamp := now; role := PlayerA;
     lookingForMatch := Some false; matchedWith := None |}.

(** A manager that completed matchmaking and called [connectToGame],
    which waits for the import; [polling] tells whether it started its
    polling interval, which then still runs. *)
Definition matched_manager (i : PeerId) (r : Role) (opp : PeerId)
    (polling : bool) : Manager :=
  {| peerId := i; my_role := Some r; opponentId := Some opp;
     isInitiator := role_eqb r PlayerA; isSignalingConnected := true;
     matchmakingComplete := true; gameConnection := None;
     pendingOffer := None; pendingCandidates := [];
     verifyScheduled := false;
     hostPollingInterval := if polling then Some 1%nat else None;
     intervals := if polling then [1%nat] else [];
     importing := 1%nat;
     events := [match_found roomId (Some r) (Some opp) (Some opp)
                  (role_eqb r PlayerA) iceServers] |}.

(** A host that passed its verification and polls. *)
Definition confirmed_manager (i : PeerId) : Manager :=
  set_intervals [1%nat]
    (set_hostPollingInterval (Some 1%nat)
       (set_verifyScheduled false (ElectionFacts.registered_manager i))).

Lemma hostless_no_looking_host now l :
  hostless l -> find is_looking_host (activePeers now l) = None.
Proof.
  intros H. rewrite <- (app_nil_r l), find_host_hostless by exact H.
  reflexivity.
Qed.

Lemma lone_host_is_confirmed now now0 i st :
  hostless (peers st) ->
  fire_verify now
    (ElectionFacts.registered_manager i,
     set_peers (peers st ++ [host_entry i now0]) st)
  = (confirmed_manager i, set_peers (peers st ++ [host_entry i now0]) st).
Proof.
  intros Hl. unfold fire_verify.
  cbn [ElectionFacts.registered_manager verifyScheduled
       set_isSignalingConnected set_role set_verifyScheduled new_manager].
  unfold verifyHostStatus. cbn [peers set_peers].
  rewrite looking_hosts_hostless by exact Hl.
  unfold activePeers. cbn [filter host_entry active timestamp andb].
  destruct (now - now0 <? 10000); reflexivity.
Qed.

Lemma lone_host_polls_idly now now0 i st rest :
  hostless (peers st) -> hostless rest ->
  forall sg,
  fire_poll now
    (confirmed_manager i,
     {| peers := peers st ++ host_entry i now0 :: rest; signaling := sg |})
  = (confirmed_manager i,
     {| peers := peers st ++ host_entry i now0 :: rest; signaling := sg |}).
Proof.
  intros Hl Hr sg. unfold fire_poll.
  cbn [confirmed_manager ElectionFacts.registered_manager intervals
       set_intervals set_hostPollingInterval set_isSignalingConnected
       set_role set_verifyScheduled new_manager].
  unfold checkHostStatus. cbn [matchmakingComplete peers].
  rewrite hosts_hostless by exact Hl.
  change (host_entry i now0 :: rest) with ([host_entry i now0] ++ rest).
  rewrite activePeers_app, filter_app.
  rewrite (filter_none is_host (activePeers now rest))
    by (intros p Hp; apply Hr; apply (activePeers_In now); exact Hp).
  unfold activePeers. cbn [filter host_entry active timestamp andb].
  destruct (now - now0 <? 10000); reflexivity.
Qed.

Lemma nonempty_truthy (i : PeerId) : i <> "" -> Session.truthy (Some i) = true.
Proof. destruct i; [contradiction|reflexivity]. Qed.

Lemma on_storage_addressed now msg m st :
  targetPeer msg = Some (peerId m) ->
  on_storage now msg (m, st) = handleSignalingMessage now msg (m, st).
Proof.
  intros H. unfold on_storage. rewrite H. cbn [fst].
  rewrite String.eqb_refl. reflexivity.
Qed.

Lemma host_takes_the_guest now msg m st :
  body msg = JoinRequest -> my_role m = Some PlayerA ->
  opponentId m = None -> matchmakingComplete m = false ->
  handleSignalingMessage now msg (m, st)
  = connectToGame_enter now
      (emitMatchFound
         (emitSignalingMessage now JoinAccept (Some (fromPeer msg))
            (updatePeerStatus now false
               (set_matchmakingComplete true
                  (set_opponentId (Some (fromPeer msg)) m), st)))).
Proof.
  intros Hb Hr Ho Hc. unfold handleSignalingMessage, has_opponent.
  rewrite Hb, Hr, Ho, Hc. reflexivity.
Qed.

Lemma guest_is_taken now msg m st o :
  body msg = JoinAccept -> my_role m = Some PlayerB ->
  opponentId m = Some o -> fromPeer msg = o ->
  matchmakingComplete m = false ->
  handleSignalingMessage now msg (m, st)
  = connectToGame_enter now
      (emitMatchFound (set_matchmakingComplete true m, st)).
Proof.
  intros Hb Hr Ho Hf Hc. unfold handleSignalingMessage.
  rewrite Hb, Hr, Ho, Hf, Hc, String.eqb_refl. reflexivity.
Qed.

Lemma connectToGame_enter_first now m st o :
  opponentId m = Some o -> o <> "" -> gameConnection m = None ->
  connectToGame_enter now (m, st)
  = (set_importing (S (importing m)) m, st).
Proof.
  intros Ho Hne Hg. unfold connectToGame_enter, has_opponent.
  rewrite Ho, (nonempty_truthy o Hne), Hg. reflexivity.
Qed.

Lemma updatePeerStatus_own now b m ps p rest sg :
  unlisted (peerId m) ps -> id p = peerId m ->
  updatePeerStatus now b (m, {| peers := ps ++ p :: rest; signaling := sg |})
  = (m, {| peers := ps ++ {| id := id p; active := active p;
                             timestamp := now; role := role p;
                             lookingForMatch := Some b;
                             matchedWith := matchedWith p |} :: rest;
           signaling := sg |}).
Proof.
  intros Hu Hp. unfold updatePeerStatus, set_peers. cbn [peers signaling].
  rewrite update_first_unlisted by exact Hu.
  cbn [update_first]. rewrite Hp, String.eqb_refl. reflexivity.
Qed.

Lemma host_accepts (h g : PeerId) ps0 sg0 t0 t2 t3 :
  g <> "" -> unlisted h ps0 ->
    on_storage t3 (join_request g h t2)
      (confirmed_manager h,
       {| peers := (ps0 ++ [host_entry h t0]) ++ [guest_entry g t2 h];
          signaling := sg0 ++ [join_request g h t2] |})
    = (matched_manager h PlayerA g true,
       {| peers := ps0 ++ [accepted_entry h t3; guest_entry g t2 h];
          signaling := sg0 ++ [join_request g h t2;
                               join_accept h g t3] |}).
Proof.
  intros Hg Huh.
  rewrite on_storage_addressed by reflexivity.
  rewrite host_takes_the_guest by reflexivity.
  rewrite <- app_assoc. cbn [app].
  rewrite updatePeerStatus_own by (try exact Huh; reflexivity).
  unfold emitSignalingMessage, emitMatchFound.
  rewrite (connectToGame_enter_first _ _ _ g) by (try exact Hg; reflexivity).
  cbn [peers signaling]. rewrite <- app_assoc. reflexivity.
Qed.

Lemma guest_is_accepted (h g : PeerId) ps0 sg0 t2 t3 t4 :
  h <> "" ->
    on_storage t4 (join_accept h g t3)
      (joined_manager g h,
       {| peers := ps0 ++ [accepted_entry h t3; guest_entry g t2 h];
          signaling := sg0 ++ [join_request g h t2;
                               join_accept h g t3] |})
    = (matched_manager g PlayerB h false,
       {| peers := ps0 ++ [accepted_entry h t3; guest_entry g t2 h];
          signaling := sg0 ++ [join_request g h t2;
                               join_accept h g t3] |}).
Proof.
  intros Hh.
  rewrite on_storage_addressed by reflexivity.
  rewrite (guest_is_taken _ _ _ _ h) by reflexivity.
  unfold emitMatchFound.
  rewrite (connectToGame_enter_first _ _ _ h) by (try exact Hh; reflexivity).
  reflexivity.
Qed.

(** Two tabs find each other.  The registry holds no host entry and
    none of the two tabs.  Tab [h] asks for a match and passes its
    verification; tab [g] asks for a match while the registration of
    [h] is live, and its join-request reaches [h]; the join-accept of
    [h] reaches [g].  Then both have completed matchmaking with each
    other as opponent, [h] as initiator in role A and [g] as responder
    in role B; each has emitted exactly one match_found event that says
    so, and has called [connectToGame]; the registry holds the entry of
    [h], no longer looking for a match, and the guest entry of [g]; and
    the signaling key saw exactly the join-request and the join-accept.
    While [h] waits, its polling changes nothing. *)
Theorem two_tabs_complete_the_handshake
    (h g : PeerId) (st0 : Storage) (t0 t1 t2 t3 t4 : Z) :
  h <> g -> h <> "" -> g <> "" ->
  hostless (peers st0) ->
  unlisted h (peers st0) -> unlisted g (peers st0) ->
  t2 - t0 < 10000 ->
  let host1 := fire_verify t1 (findMatch t0 (new_manager h, st0)) in
  let guest1 := findMatch t2 (new_manager g, snd host1) in
  let host2 :=
    on_storage t3 (join_request g h t2) (fst host1, snd guest1) in
  let guest2 :=
    on_storage t4 (join_accept h g t3) (fst guest1, snd host2) in
  signaling (snd guest1) = signaling st0 ++ [join_request g h t2]
  /\ fst host2 = matched_manager h PlayerA g true
  /\ fst guest2 = matched_manager g PlayerB h false
  /\ snd guest2
     = {| peers := peers st0
                   ++ [accepted_entry h t3; guest_entry g t2 h];
          signaling := signaling st0
                       ++ [join_request g h t2; join_accept h g t3] |}
  /\ (forall now, fire_poll now host1 = host1)
  /\ (forall now,
        fire_poll now (fst host1, snd guest1) = (fst host1, snd guest1)).
Proof.
  intros Hhg Hh Hg Hl Huh Hug Hlive.
  destruct st0 as [ps0 sg0]. cbn [peers signaling] in *.
  cbv zeta.
  rewrite (findMatch_registers t0 h)
    by (cbn [peers]; auto using hostless_no_looking_host).
  rewrite lone_host_is_confirmed by exact Hl.
  cbn [fst snd set_peers peers signaling].
  assert (Hug' : unlisted g (ps0 ++ [host_entry h t0])).
  { intros p Hp. apply in_app_or in Hp as [Hp|[<-|[]]]; [auto|].
    exact Hhg. }
  assert (Hfind : find is_looking_host
                    (activePeers t2 (ps0 ++ [host_entry h t0]))
                  = Some (host_entry h t0)).
  { rewrite find_host_hostless by exact Hl.
    unfold activePeers. cbn [filter host_entry active timestamp andb].
    rewrite (proj2 (Z.ltb_lt _ _) Hlive). reflexivity. }
  rewrite (findMatch_joins t2 g _ (host_entry h t0))
    by (cbn [peers]; assumption).
  cbn [fst snd peers signaling set_peers host_entry id].
  split; [reflexivity|].
  rewrite (host_accepts h g ps0 sg0 t0 t2 t3 Hg Huh). cbn [fst snd].
  split; [reflexivity|].
  rewrite (guest_is_accepted h g ps0 sg0 t2 t3 t4 Hh). cbn [fst snd].
  split; [reflexivity|]. split; [reflexivity|].
  split; intros now.
  - apply (lone_host_polls_idly now t0 h
             {| peers := ps0; signaling := sg0 |} []); [exact Hl|].
    intros p [].
  - rewrite <- app_assoc.
    apply (lone_host_polls_idly now t0 h
             {| peers := ps0; signaling := sg0 |} [guest_entry g t2 h]);
      [exact Hl|].
    intros p [<-|[]]. reflexivity.
Qed.

(** *** Leaving, and the identities in the registry *)

Lemma close_effects c :
  Session.effects (snd (Session.close c)) = Session.effects c.
Proof.
  destruct c as [pc r u ic ii oi ou ri ice q ef].
  unfold Session.close, bind, modify, Session.pc_close. cbv zeta.
  destruct pc as [pc|]; [destruct (Session.signalingClosed pc) eqn:Hs|];
    cbn; rewrite ?Hs; reflexivity.
Qed.

Lemma emitSignalingMessage_peers now b to t :
  peers (snd (emitSignalingMessage now b to t)) = peers (snd t).
Proof. destruct t; reflexivity. Qed.

Lemma forward_emits_peers now seen t :
  peers (snd (forward_emits now seen t)) = peers (snd t).
Proof.
  unfold forward_emits.
  destruct (gameConnection (fst t)) as [c|]; [|reflexivity].
  generalize (skipn seen (Session.effects c)). intros l. revert t.
  induction l as [|e l IH]; intros t; simpl; [reflexivity|].
  rewrite IH. destruct e; try reflexivity.
  apply emitSignalingMessage_peers.
Qed.

Lemma on_gameConnection_peers now op t :
  peers (snd (on_gameConnection now op t)) = peers (snd t).
Proof.
  destruct t as [m st]. unfold on_gameConnection.
  destruct (gameConnection m); [|reflexivity].
  rewrite forward_emits_peers. reflexivity.
Qed.

Lemma on_gameConnection_close now m st :
  on_gameConnection now Session.close (m, st)
  = (match gameConnection m with
     | Some c => set_gameConnection (Some (snd (Session.close c))) m
     | None => m
     end, st).
Proof.
  unfold on_gameConnection. destruct (gameConnection m) as [c|] eqn:E;
    [|reflexivity].
  unfold forward_emits. cbn [fst set_gameConnection gameConnection].
  rewrite close_effects, skipn_all. reflexivity.
Qed.

Lemma connectToGame_enter_peers now t :
  peers (snd (connectToGame_enter now t)) = peers (snd t).
Proof.
  destruct t as [m st]. unfold connectToGame_enter.
  destruct (negb (has_opponent m)); [reflexivity|].
  destruct (gameConnection m) as [c|] eqn:E; [|reflexivity].
  destruct (Session.isConnected c); [reflexivity|].
  rewrite on_gameConnection_close, E. reflexivity.
Qed.

Lemma without_unlists i l : unlisted i (without i l).
Proof.
  intros p Hp. unfold without in Hp. apply filter_In in Hp as [_ Hp].
  apply negb_true_iff in Hp. apply String.eqb_neq. exact Hp.
Qed.

Lemma without_keeps i l p : In p l -> id p <> i -> In p (without i l).
Proof.
  intros Hp Hne. unfold without. apply filter_In. split; [exact Hp|].
  apply negb_true_iff. apply String.eqb_neq. exact Hne.
Qed.

Lemma NoDup_ids_filter (q : Peer -> bool) l :
  NoDup (map id l) -> NoDup (map id (filter q l)).
Proof.
  induction l as [|x l IH]; simpl; intros H; [constructor|].
  inversion H as [|? ? Hnotin H']; subst.
  destruct (q x); simpl; [|auto].
  constructor; [|auto]. intros Hin. apply Hnotin.
  apply in_map_iff in Hin as (y & Hy & Hin).
  apply filter_In in Hin as [Hin _]. rewrite <- Hy. apply in_map.
  exact Hin.
Qed.

Lemma NoDup_ids_replaced i l e :
  NoDup (map id l) -> id e = i -> NoDup (map id (without i l ++ [e])).
Proof.
  intros H He. rewrite map_app. apply NoDup_app.
  - apply NoDup_ids_filter. exact H.
  - repeat constructor. intros [].
  - intros x Hx [<-|[]]. apply in_map_iff in Hx as (p & Hp & Hin).
    apply (without_unlists i l p Hin). congruence.
Qed.

Lemma update_first_ids i f l :
  (forall p, id (f p) = id p) ->
  map id (update_first i f l) = map id l.
Proof.
  intros Hf. induction l as [|x l IH]; simpl; [reflexivity|].
  destruct (String.eqb (id x) i); simpl; rewrite ?Hf, ?IH; reflexivity.
Qed.

Lemma clearHostPolling_fields m :
  let m' := clearHostPolling m in
  peerId m' = peerId m /\ gameConnection m' = gameConnection m
  /\ verifyScheduled m' = verifyScheduled m
  /\ hostPollingInterval m' = hostPollingInterval m
  /\ isSignalingConnected m' = isSignalingConnected m.
Proof.
  unfold clearHostPolling. destruct (hostPollingInterval m) eqn:E;
    cbn; rewrite ?E; repeat split; reflexivity.
Qed.

(** The intervals that still run once the one of the stored handle has
    been cleared. *)
Definition other_intervals (m : Manager) : list nat :=
  match hostPollingInterval m with
  | Some h => filter (fun k => negb (Nat.eqb k h)) (intervals m)
  | None => intervals m
  end.

Lemma clearHostPolling_intervals m :
  intervals (clearHostPolling m) = other_intervals m.
Proof.
  unfold clearHostPolling, other_intervals.
  destruct (hostPollingInterval m); reflexivity.
Qed.

(** [disconnect] takes the tab out of the registry and resets the
    match: every entry of the tab is removed and every other entry is
    kept, in order; nothing is written to the signaling key, so the
    opponent is not told; the opponent and the completion flag are
    cleared, and the game connection, if there is one, is closed.  Of
    the timers only the polling interval of the stored handle is
    cleared: an interval whose handle a later [startHostPolling] has
    overwritten keeps running and goes on calling [checkHostStatus],
    and a verification timeout that is scheduled stays scheduled.  The
    tab can ask for a match again: the next [findMatch] registers it
    anew, with exactly one entry. *)
Theorem disconnect_leaves_the_registry
    (now : Z) (m : Manager) (st : Storage) :
  let t' := disconnect now (m, st) in
  snd t' = {| peers := without (peerId m) (peers st);
              signaling := signaling st |}
  /\ unlisted (peerId m) (peers (snd t'))
  /\ (forall p, In p (peers st) -> id p <> peerId m ->
                In p (peers (snd t')))
  /\ peerId (fst t') = peerId m
  /\ opponentId (fst t') = None
  /\ matchmakingComplete (fst t') = false
  /\ (hostPollingInterval (fst t') = hostPollingInterval m
      /\ intervals (fst t') = other_intervals m
      /\ verifyScheduled (fst t') = verifyScheduled m)
  /\ (forall h k, hostPollingInterval m = Some h ->
                  In k (intervals m) -> k <> h ->
                  forall now', fire_poll now' t' = checkHostStatus now' t')
  /\ gameConnection (fst t')
     = option_map (fun c => snd (Session.close c)) (gameConnection m)
  /\ forall now', exists e,
       id e = peerId m
       /\ peers (snd (findMatch now' t'))
          = without (peerId m) (peers st) ++ [e].
Proof.
  cbv zeta. unfold disconnect. rewrite on_gameConnection_close.
  destruct (clearHostPolling_fields m) as (Cid & Cgc & Cv & Ch & Cs).
  pose proof (clearHostPolling_intervals m) as Ci.
  cbv zeta in Cid, Cgc, Cv, Ch, Cs.
  rewrite Cgc.
  set (mc := clearHostPolling m) in *.
  cbn [fst snd set_peers peers signaling].
  assert (Hkeep :
    forall m1, m1 = match gameConnection m with
                    | Some c =>
                        set_gameConnection (Some (snd (Session.close c))) mc
                    | None => mc
                    end ->
      peerId m1 = peerId mc /\ hostPollingInterval m1 = hostPollingInterval mc
      /\ intervals m1 = intervals mc
      /\ verifyScheduled m1 = verifyScheduled mc
      /\ isSignalingConnected m1 = isSignalingConnected mc)
    by (intros m1 ->; destruct (gameConnection m); repeat split;
        reflexivity).
  destruct (Hkeep _ eq_refl) as (Kid & Kh & Ki & Kv & Ks).
  split; [reflexivity|]. split; [apply without_unlists|].
  split; [intros p; apply without_keeps|].
  split; [cbn [peerId set_opponentId set_matchmakingComplete];
          congruence|].
  split; [reflexivity|].
  split; [reflexivity|].
  split.
  { cbn [hostPollingInterval intervals verifyScheduled set_opponentId
         set_matchmakingComplete].
    repeat split; congruence. }
  split.
  { intros h k Hh Hk Hne now'. unfold fire_poll.
    cbn [intervals set_opponentId set_matchmakingComplete].
    rewrite Ki, Ci. unfold other_intervals. rewrite Hh.
    assert (Hin : In k (filter (fun k0 => negb (Nat.eqb k0 h))
                          (intervals m))).
    { apply filter_In. split; [exact Hk|].
      apply negb_true_iff, Nat.eqb_neq. exact Hne. }
    destruct (filter _ (intervals m)); [destruct Hin|reflexivity]. }
  split.
  { cbn [gameConnection set_opponentId set_matchmakingComplete].
    destruct (gameConnection m) as [c|] eqn:E; cbn [option_map];
      [reflexivity|exact Cgc]. }
  intros now'.
  set (m' := set_opponentId None (set_matchmakingComplete false _)).
  assert (Hid : peerId m' = peerId m)
    by (unfold m'; cbn [peerId set_opponentId set_matchmakingComplete];
        congruence).
  assert (Hguard : negb (isSignalingConnected m')
                   || negb (matchmakingComplete m')
                      && negb (has_opponent m') = true).
  { unfold m'. cbn. apply orb_true_r. }
  unfold findMatch. rewrite Hguard. unfold electLeader.
  cbn [peers set_peers]. rewrite Hid.
  rewrite (unlisted_active now' (peerId m) _ (without_unlists _ _)).
  unfold tryRegisterAsHost.
  destruct (find is_looking_host _) as [hp|].
  - exists (guest_entry (peerId m) now' (id hp)). split; [reflexivity|].
    unfold joinAsGuest. cbn [emitSignalingMessage snd peers set_peers].
    rewrite Hid. reflexivity.
  - exists (host_entry (peerId m) now'). split; [reflexivity|].
    unfold becomeHost. cbn [snd peers set_peers]. rewrite Hid.
    reflexivity.
Qed.

(** The timers, incoming messages and [disconnect] keep the identities
    in the registry unique: when no two entries carry the same peer id
    before the verification timeout, the polling interval, a storage
    message or [disconnect] runs in a tab, none do afterwards.  A tab
    that gives up the host role replaces its entry; it does not add a
    second one. *)
Theorem registry_ids_stay_unique
    (now : Z) (msg : Message) (m : Manager) (st : Storage) :
  NoDup (map id (peers st)) ->
  NoDup (map id (peers (snd (fire_verify now (m, st)))))
  /\ NoDup (map id (peers (snd (fire_poll now (m, st)))))
  /\ NoDup (map id (peers (snd (on_storage now msg (m, st)))))
  /\ NoDup (map id (peers (snd (disconnect now (m, st))))).
Proof.
  intros Hnd. split; [|split; [|split]].
  - unfold fire_verify. destruct (verifyScheduled m); [|exact Hnd].
    unfold verifyHostStatus, startHostPolling.
    cbn [peers peerId set_verifyScheduled].
    destruct (1 <? _)%nat; [|exact Hnd].
    destruct (sort_by_timestamp _) as [|e rest]; [exact Hnd|].
    destruct (negb _); [|exact Hnd].
    unfold switchToGuest. rewrite emitSignalingMessage_peers.
    cbn [snd peers set_peers peerId set_verifyScheduled].
    apply NoDup_ids_replaced; [exact Hnd|reflexivity].
  - unfold fire_poll. destruct (intervals m); [exact Hnd|].
    unfold checkHostStatus.
    destruct (matchmakingComplete m); [exact Hnd|].
    destruct (1 <? _)%nat; [|exact Hnd].
    destruct (sort_by_timestamp _) as [|e rest]; [exact Hnd|].
    destruct (negb _); [|exact Hnd].
    cbn [emitSignalingMessage snd peers set_peers].
    apply NoDup_ids_replaced; [exact Hnd|reflexivity].
  - unfold on_storage. cbn [fst].
    destruct (targetPeer msg) as [i|]; [|exact Hnd].
    destruct (String.eqb i (peerId m)); [|exact Hnd].
    unfold handleSignalingMessage.
    destruct (body msg) as [| |d|d|d|ty].
    + destruct (my_role m) as [[|]|]; try exact Hnd.
      destruct (_ && _); [|exact Hnd].
      rewrite connectToGame_enter_peers.
      unfold emitMatchFound, updatePeerStatus.
      cbn [emitSignalingMessage snd peers set_peers].
      rewrite update_first_ids by reflexivity. exact Hnd.
    + destruct (my_role m) as [[|]|]; try exact Hnd.
      destruct (_ && _); [|exact Hnd].
      rewrite connectToGame_enter_peers. exact Hnd.
    + destruct (gameConnection m); [|exact Hnd].
      rewrite on_gameConnection_peers. exact Hnd.
    + destruct (gameConnection m); [|exact Hnd].
      rewrite on_gameConnection_peers. exact Hnd.
    + destruct (gameConnection m); [|exact Hnd].
      rewrite on_gameConnection_peers. exact Hnd.
    + exact Hnd.
  - unfold disconnect. rewrite on_gameConnection_close.
    cbn [snd peers set_peers]. apply NoDup_ids_filter. exact Hnd.
Qed.

(** *** Negotiating through the signaling key *)

(** The signaling message a manager writes for a signal of its game
    connection. *)
Definition signal_message (from : PeerId) (target : option PeerId)
    (now : Z) (b : Body) : Message :=
  {| body := b; fromPeer := from; toPeer := None; targetPeer := target;
     sentAt := now |}.

(** The signals among the effects of a session, as the manager writes
    them to the signaling key. *)
Fixpoint written (from : PeerId) (target : option PeerId) (now : Z)
    (l : list Session.Effect) : list Message :=
  match l with
  | [] => []
  | Session.SocketEmit b _ _ :: l' =>
      signal_message from target now (body_of b)
      :: written from target now l'
  | _ :: l' => written from target now l'
  end.

Lemma forward_emits_writes now seen m st c :
  gameConnection m = Some c ->
  forward_emits now seen (m, st)
  = (m, {| peers := peers st;
           signaling := signaling st
                        ++ written (peerId m) (opponentId m) now
                             (skipn seen (Session.effects c)) |}).
Proof.
  intros Hc. unfold forward_emits. cbn [fst]. rewrite Hc. clear Hc.
  revert st.
  induction (skipn seen (Session.effects c)) as [|e l IH]; intros st;
    simpl.
  - rewrite app_nil_r. destruct st; reflexivity.
  - destruct e as [b to uid|ev|ch d]; try apply IH.
    cbn [emitSignalingMessage]. rewrite IH. cbn [peers signaling].
    rewrite <- app_assoc. reflexivity.
Qed.

Lemma skipn_grown {A} (l l' : list A) : skipn (List.length l) (l ++ l') = l'.
Proof. induction l as [|x l IH]; simpl; [reflexivity|exact IH]. Qed.

(** A call on the game connection: what the connection emits through
    its socket during the call is written to the signaling key, in
    order, addressed to the opponent. *)
Lemma on_gameConnection_writes now op m st c l :
  gameConnection m = Some c ->
  Session.effects (snd (op c)) = Session.effects c ++ l ->
  on_gameConnection now op (m, st)
  = (set_gameConnection (Some (snd (op c))) m,
     {| peers := peers st;
        signaling := signaling st
                     ++ written (peerId m) (opponentId m) now l |}).
Proof.
  intros Hc Hl. unfold on_gameConnection. rewrite Hc.
  rewrite (forward_emits_writes now _ _ st (snd (op c))) by reflexivity.
  rewrite Hl, skipn_grown. reflexivity.
Qed.

(** The session [connectToGame] creates for the manager. *)
Definition created (m : Manager) : Session.Conn :=
  snd (Session.initialize (game_config m) Session.new_LocalGameConnection).

(** [connectToGame] after the import, with nothing buffered. *)
Lemma resume_creates now m st n :
  importing m = S n -> pendingOffer m = None -> pendingCandidates m = [] ->
  connectToGame_resume now (m, st)
  = (set_gameConnection (Some (created m)) (set_importing n m),
     {| peers := peers st;
        signaling := signaling st
                     ++ written (peerId m) (opponentId m) now
                          (Session.effects (created m)) |}).
Proof.
  intros Himp Hpo Hpc. unfold connectToGame_resume. rewrite Himp.
  cbv zeta.
  rewrite (on_gameConnection_writes now _ _ st
             Session.new_LocalGameConnection
             (Session.effects (created (set_importing n m))))
    by reflexivity.
  cbn [fst pendingOffer pendingCandidates set_gameConnection
       set_importing].
  rewrite Hpo.
  cbn [fst pendingOffer pendingCandidates set_gameConnection
       set_importing].
  rewrite Hpc. reflexivity.
Qed.

(** After the handshake the two tabs negotiate through the signaling
    key.  With a browser that resolves the promises: the host's
    [connectToGame] writes one offer addressed to the guest; the
    guest's [connectToGame] writes nothing; the guest, given the offer,
    writes one answer addressed to the host; the host, given the
    answer, writes nothing.  The signaling key saw exactly the offer
    and the answer, the registry is untouched, and in the end the offer
    is the host's local and the guest's remote description, and the
    answer the other way round. *)
Theorem negotiation_through_the_signaling_key
    (h g : PeerId) (st : Storage) (t5 t6 t7 t8 : Z) :
  SessionLifecycle.resolving -> h <> "" -> g <> "" ->
  exists d ans,
    let offer_msg :=
      signal_message h (Some g) t5
        (Offer (Some {| Session.offer := d |})) in
    let answer_msg :=
      signal_message g (Some h) t7
        (Answer (Some {| Session.answer := ans |})) in
    let host3 :=
      connectToGame_resume t5 (matched_manager h PlayerA g true, st) in
    let guest3 :=
      connectToGame_resume t6
        (matched_manager g PlayerB h false, snd host3) in
    let guest4 := on_storage t7 offer_msg guest3 in
    let host4 := on_storage t8 answer_msg (fst host3, snd guest4) in
    snd host3 = {| peers := peers st;
                   signaling := signaling st ++ [offer_msg] |}
    /\ snd guest3 = snd host3
    /\ snd guest4 = {| peers := peers st;
                       signaling := signaling st
                                    ++ [offer_msg; answer_msg] |}
    /\ snd host4 = snd guest4
    /\ option_map SessionLifecycle.descriptions
         (gameConnection (fst host4)) = Some (Some (Some d, Some ans))
    /\ option_map SessionLifecycle.descriptions
         (gameConnection (fst guest4)) = Some (Some (Some ans, Some d)).
Proof.
  intros Hres Hh Hg.
  destruct (SessionLifecycle.resolving_offers Hres) as [d Hd].
  destruct (SessionLifecycle.resolving_answers d Hres) as [ans Ha].
  exists d, ans. cbv zeta.
  set (mH := matched_manager h PlayerA g true).
  set (mG := matched_manager g PlayerB h false).
  pose proof (SessionLifecycle.fresh_session_effects (game_config mH))
    as EH.
  pose proof (SessionLifecycle.fresh_session_effects (game_config mG))
    as EG.
  fold (created mH) in EH. fold (created mG) in EG.
  cbn [mH mG matched_manager game_config Session.cfg_isInitiator
       Session.cfg_opponentId Session.cfg_opponentUid isInitiator
       opponentId role_eqb] in EH, EG.
  rewrite Hd in EH. unfold SessionLifecycle.target_uid in EH.
  rewrite (nonempty_truthy g Hg) in EH.
  destruct (SessionLifecycle.responder_answers (game_config mG) d ans
              Hres eq_refl Ha) as [Hb1 Hb2].
  destruct (SessionLifecycle.initiator_accepts (game_config mH) d ans
              Hres eq_refl Hd) as [Ha1 Ha2].
  cbv zeta in Hb1, Hb2, Ha1, Ha2.
  fold (created mH) in Ha1, Ha2. fold (created mG) in Hb1, Hb2.
  rewrite (resume_creates t5 mH st 0) by reflexivity.
  rewrite EH. cbn [written body_of fst snd peers signaling].
  change (peerId mH) with h. change (opponentId mH) with (Some g).
  rewrite (resume_creates t6 mG _ 0) by reflexivity.
  rewrite EG. cbn [written fst snd peers signaling]. rewrite app_nil_r.
  split; [reflexivity|]. split; [reflexivity|].
  assert (E4 :
    on_storage t7
      (signal_message h (Some g) t5 (Offer (Some {| Session.offer := d |})))
      (set_gameConnection (Some (created mG)) (set_importing 0 mG),
       {| peers := peers st;
          signaling := signaling st
                       ++ [signal_message h (Some g) t5
                             (Offer (Some {| Session.offer := d |}))] |})
    = (set_gameConnection
         (Some (snd (Session.handleOffer (Some {| Session.offer := d |})
                       (created mG))))
         (set_importing 0 mG),
       {| peers := peers st;
          signaling := signaling st
                       ++ [signal_message h (Some g) t5
                             (Offer (Some {| Session.offer := d |}));
                           signal_message g (Some h) t7
                             (Answer (Some {| Session.answer := ans |}))]
       |})).
  { unfold on_storage.
    cbn [signal_message targetPeer fst peerId set_gameConnection
         set_importing mG matched_manager].
    rewrite String.eqb_refl. unfold handleSignalingMessage.
    cbn [body signal_message gameConnection set_gameConnection].
    erewrite on_gameConnection_writes; [|reflexivity|exact Hb1].
    cbn [written body_of peers signaling peerId opponentId
         set_gameConnection set_importing mG matched_manager].
    rewrite <- app_assoc. reflexivity. }
  rewrite E4. cbn [fst snd].
  split; [reflexivity|].
  assert (E5 :
    on_storage t8
      (signal_message g (Some h) t7
         (Answer (Some {| Session.answer := ans |})))
      (set_gameConnection (Some (created mH)) (set_importing 0 mH),
       {| peers := peers st;
          signaling := signaling st
                       ++ [signal_message h (Some g) t5
                             (Offer (Some {| Session.offer := d |}));
                           signal_message g (Some h) t7
                             (Answer (Some {| Session.answer := ans |}))]
       |})
    = (set_gameConnection
         (Some (snd (Session.handleAnswer
                       (Some {| Session.answer := ans |}) (created mH))))
         (set_importing 0 mH),
       {| peers := peers st;
          signaling := signaling st
                       ++ [signal_message h (Some g) t5
                             (Offer (Some {| Session.offer := d |}));
                           signal_message g (Some h) t7
                             (Answer (Some {| Session.answer := ans |}))]
       |})).
  { unfold on_storage.
    cbn [signal_message targetPeer fst peerId set_gameConnection
         set_importing mH matched_manager].
    rewrite String.eqb_refl. unfold handleSignalingMessage.
    cbn [body signal_message gameConnection set_gameConnection].
    erewrite on_gameConnection_writes; [|reflexivity|exact Ha1].
    cbn [written peers signaling]. rewrite app_nil_r. reflexivity. }
  rewrite E5. cbn [fst snd gameConnection set_gameConnection option_map].
  rewrite Ha2, Hb2. repeat split; reflexivity.
Qed.

End WithBrowser.

(** *** Runs *)

Definition empty_storage : Storage := {| peers := []; signaling := [] |}.

(** The registry with the host "h" registered at time 0. *)
Definition h_registered : Storage :=
  {| peers := [host_entry "h" 0]; signaling := [] |}.

Lemma unregistered_tab_registers_or_joins_witness :
  unlisted "g" (peers h_registered)
  /\ findMatch 120 (new_manager "g", h_registered)
     = (joined_manager "g" "h",
        {| peers := [host_entry "h" 0; guest_entry "g" 120 "h"];
           signaling := [join_request "g" "h" 120] |}).
Proof.
  assert (H : unlisted "g" (peers h_registered))
    by (intros p [<-|[]]; discriminate).
  split; [exact H|].
  exact (unregistered_tab_registers_or_joins 120 "g" h_registered H).
Defined.

Lemma asking_again_while_registered_changes_nothing_witness :
  let t1 := findMatch 0 (new_manager "h", empty_storage) in
  unlisted "h" (peers empty_storage)
  /\ findMatch 500 t1 = t1
  /\ peers (snd (findMatch 20000 t1))
     = [host_entry "h" 0; host_entry "h" 20000].
Proof.
  assert (H : unlisted "h" (peers empty_storage)) by (intros p []).
  destruct (asking_again_while_registered_changes_nothing
              0 500 "h" empty_storage H) as [Hsame _].
  destruct (asking_again_while_registered_changes_nothing
              0 20000 "h" empty_storage H) as [_ Hstale].
  cbv zeta. split; [exact H|]. split.
  - apply Hsame. lia.
  - apply Hstale; [lia|reflexivity|reflexivity].
Defined.

Lemma two_tabs_complete_the_handshake_witness :
  let host1 := fire_verify 100 (findMatch 0 (new_manager "h", empty_storage))
  in
  let guest1 := findMatch 120 (new_manager "g", snd host1) in
  let host2 :=
    @on_storage SessionFacts.cooperative 150 (join_request "g" "h" 120)
      (fst host1, snd guest1) in
  let guest2 :=
    @on_storage SessionFacts.cooperative 160 (join_accept "h" "g" 150)
      (fst guest1, snd host2) in
  signaling (snd guest1) = [join_request "g" "h" 120]
  /\ fst host2 = matched_manager "h" PlayerA "g" true
  /\ fst guest2 = matched_manager "g" PlayerB "h" false
  /\ snd guest2
     = {| peers := [accepted_entry "h" 150; guest_entry "g" 120 "h"];
          signaling := [join_request "g" "h" 120;
                        join_accept "h" "g" 150] |}.
Proof.
  assert (Hnone : forall P : Peer -> Prop,
            forall p, In p (peers empty_storage) -> P p)
    by (intros P p []).
  destruct (@two_tabs_complete_the_handshake SessionFacts.cooperative
              "h" "g" empty_storage 0 100 120 150 160
              ltac:(discriminate) ltac:(discriminate) ltac:(discriminate)
              (Hnone _) (Hnone _) (Hnone _) ltac:(lia))
    as (H1 & H2 & H3 & H4 & _).
  cbv zeta. split; [exact H1|]. split; [exact H2|].
  split; [exact H3|exact H4].
Defined.

(** A host whose registration went stale asks for a match again: it
    registers and is confirmed a second time, and two polling
    intervals run. *)
Definition host_twice : Tab :=
  fire_verify 20100
    (findMatch 20000
       (fire_verify 100 (findMatch 0 (new_manager "h", empty_storage)))).

Lemma disconnect_leaves_the_registry_witness :
  let t' := disconnect 20200 host_twice in
  hostPollingInterval (fst host_twice) = Some 2%nat
  /\ intervals (fst host_twice) = [1%nat; 2%nat]
  /\ intervals (fst t') = [1%nat]
  /\ forall now', fire_poll now' t' = checkHostStatus now' t'.
Proof.
  remember host_twice as t eqn:Et. vm_compute in Et. subst t.
  match goal with
  | |- context [disconnect 20200 (?m, ?st)] =>
      destruct (disconnect_leaves_the_registry 20200 m st)
        as (_ & _ & _ & _ & _ & _ & _ & Hpoll & _)
  end.
  cbv zeta.
  split; [reflexivity|]. split; [reflexivity|].
  split; [vm_compute; reflexivity|].
  apply (Hpoll 2%nat 1%nat); [reflexivity | left; reflexivity | discriminate].
Defined.

(** Two hosts registered; the later one is about to verify. *)
Definition two_hosts : Storage :=
  {| peers := [host_entry "h" 0; host_entry "k" 5]; signaling := [] |}.

Lemma registry_ids_stay_unique_witness :
  let m := ElectionFacts.registered_manager "k" in
  NoDup (map id (peers two_hosts))
  /\ map id (peers (snd (fire_verify 105 (m, two_hosts)))) = ["h"; "k"]
  /\ NoDup (map id (peers (snd (fire_verify 105 (m, two_hosts)))))
  /\ NoDup (map id (peers (snd (fire_poll 105 (m, two_hosts)))))
  /\ NoDup (map id (peers (snd (@on_storage SessionFacts.cooperative 105
                                   (join_request "g" "k" 100)
                                   (m, two_hosts)))))
  /\ NoDup (map id (peers (snd (disconnect 105 (m, two_hosts))))).
Proof.
  assert (H : NoDup (map id (peers two_hosts))).
  { simpl. repeat constructor; simpl; intuition discriminate. }
  cbv zeta. split; [exact H|]. split; [reflexivity|].
  exact (@registry_ids_stay_unique SessionFacts.cooperative 105
           (join_request "g" "k" 100)
           (ElectionFacts.registered_manager "k") two_hosts H).
Defined.

Lemma negotiation_through_the_signaling_key_witness :
  @SessionLifecycle.resolving SessionFacts.cooperative
  /\ exists d ans,
       let offer_msg :=
         signal_message "h" (Some "g") 200
           (Offer (Some {| Session.offer := d |})) in
       let answer_msg :=
         signal_message "g" (Some "h") 220
           (Answer (Some {| Session.answer := ans |})) in
       let host3 :=
         @connectToGame_resume SessionFacts.cooperative 200
           (matched_manager "h" PlayerA "g" true, empty_storage) in
       let guest3 :=
         @connectToGame_resume SessionFacts.cooperative 210
           (matched_manager "g" PlayerB "h" false, snd host3) in
       let guest4 :=
         @on_storage SessionFacts.cooperative 220 offer_msg guest3 in
       let host4 :=
         @on_storage SessionFacts.cooperative 230 answer_msg
           (fst host3, snd guest4) in
       snd host3 = {| peers := []; signaling := [offer_msg] |}
       /\ snd guest3 = snd host3
       /\ snd guest4 = {| peers := [];
                          signaling := [offer_msg; answer_msg] |}
       /\ snd host4 = snd guest4
       /\ option_map SessionLifecycle.descriptions
            (gameConnection (fst host4)) = Some (Some (Some d, Some ans))
       /\ option_map SessionLifecycle.descriptions
            (gameConnection (fst guest4)) = Some (Some (Some ans, Some d)).
Proof.
  split; [exact SessionLifecycle.cooperative_resolving|].
  apply (@negotiation_through_the_signaling_key SessionFacts.cooperative
           "h" "g" empty_storage 200 210 220 230
           SessionLifecycle.cooperative_resolving);
    discriminate.
Defined.

End RegistryFacts.

(** ** The manager on the relay server: what reaches the socket *)

Module SocketFacts.
Import Js WsMatchmaker.

(** The signals among the effects of a session, as the manager writes
    them to its socket. *)
Fixpoint to_server (l : list Session.Effect) : list ToServer :=
  match l with
  | [] => []
  | Session.SocketEmit b to uid :: l' => SignalReq b to uid :: to_server l'
  | _ :: l' => to_server l'
  end.

Lemma to_server_app l l' : to_server (l ++ l') = to_server l ++ to_server l'.
Proof.
  induction l as [|e l IH]; simpl; [reflexivity|].
  destruct e; simpl; rewrite IH; reflexivity.
Qed.

(** The manager after it wrote [xs] to its open socket. *)
Definition wrote (xs : list ToServer) (m : Manager) : Manager :=
  {| peerId := peerId m; role := role m; opponentId := opponentId m;
     isInitiator := isInitiator m;
     isSignalingConnected := isSignalingConnected m;
     matchmakingComplete := matchmakingComplete m;
     gameConnection := gameConnection m; pendingOffer := pendingOffer m;
     pendingCandidates := pendingCandidates m; wsOpen := wsOpen m;
     importing := importing m; outbox := outbox m ++ xs;
     events := events m |}.

Lemma wrote_nothing m : wrote [] m = m.
Proof. destruct m; unfold wrote; simpl. rewrite app_nil_r. reflexivity. Qed.

Lemma wrote_wrote xs ys m : wrote ys (wrote xs m) = wrote (xs ++ ys) m.
Proof. unfold wrote; simpl. rewrite app_assoc. reflexivity. Qed.

Section WithBrowser.
Context {browser : Session.Browser}.

(** *** A socket that is not open *)

Lemma sendToServer_closed x m : wsOpen m = false -> sendToServer x m = m.
Proof. unfold sendToServer. intros ->. reflexivity. Qed.

Lemma forward_emits_closed seen m :
  wsOpen m = false -> forward_emits seen m = m.
Proof.
  intros Hw. unfold forward_emits.
  destruct (gameConnection m) as [c|]; [|reflexivity].
  induction (skipn seen (Session.effects c)) as [|e l IH]; simpl;
    [reflexivity|].
  destruct e; rewrite ?sendToServer_closed by exact Hw; exact IH.
Qed.

Lemma on_gameConnection_closed op m :
  wsOpen m = false ->
  outbox (on_gameConnection op m) = outbox m
  /\ wsOpen (on_gameConnection op m) = false.
Proof.
  intros Hw. unfold on_gameConnection.
  destruct (gameConnection m) as [c|]; [|auto].
  rewrite forward_emits_closed by exact Hw. auto.
Qed.

(** The manager wrote nothing and its socket is still not open. *)
Definition silent (m m' : Manager) : Prop :=
  outbox m' = outbox m /\ wsOpen m' = false.

Lemma silent_refl m : wsOpen m = false -> silent m m.
Proof. split; auto. Qed.

Lemma silent_trans m1 m2 m3 : silent m1 m2 -> silent m2 m3 -> silent m1 m3.
Proof. intros [H1 H2] [H3 H4]. split; congruence. Qed.

Lemma silent_on_gameConnection op m :
  wsOpen m = false -> silent m (on_gameConnection op m).
Proof. apply on_gameConnection_closed. Qed.

Lemma silent_connectToGame_enter m :
  wsOpen m = false -> silent m (connectToGame_enter m).
Proof.
  intros Hw. unfold connectToGame_enter.
  destruct (negb _); [apply silent_refl; exact Hw|].
  destruct (gameConnection m) as [c|]; [|split; [reflexivity|exact Hw]].
  destruct (Session.isConnected c); [apply silent_refl; exact Hw|].
  destruct (on_gameConnection_closed Session.close m Hw) as [H1 H2].
  split; [exact H1|exact H2].
Qed.

Lemma silent_replay l : forall m,
  wsOpen m = false -> silent m (replay_candidates l m).
Proof.
  unfold replay_candidates.
  induction l as [|d l IH]; intros m Hw; simpl;
    [apply silent_refl; exact Hw|].
  destruct (on_gameConnection_closed
              (Session.handleCandidate (Some d)) m Hw) as [H1 H2].
  eapply silent_trans; [split; [exact H1|exact H2]|].
  apply IH. exact H2.
Qed.

Lemma silent_connectToGame_resume m :
  wsOpen m = false -> silent m (connectToGame_resume m).
Proof.
  intros Hw. unfold connectToGame_resume.
  destruct (importing m) as [|n]; [apply silent_refl; exact Hw|].
  cbv zeta.
  set (m1 := on_gameConnection _ _).
  assert (S1 : silent m m1).
  { destruct (on_gameConnection_closed
                (Session.initialize (game_config (set_importing n m)))
                (set_gameConnection (Some Session.new_LocalGameConnection)
                   (set_importing n m)) Hw) as [H1 H2].
    split; [exact H1|exact H2]. }
  set (m2 := match pendingOffer m1 with
             | Some data =>
                 if negb (isInitiator m1)
                 then set_pendingOffer None
                        (on_gameConnection
                           (Session.handleOffer (Some data)) m1)
                 else m1
             | None => m1
             end).
  assert (S2 : silent m m2).
  { unfold m2. destruct (pendingOffer m1) as [d|]; [|exact S1].
    destruct (negb (isInitiator m1)); [|exact S1].
    destruct (on_gameConnection_closed
                (Session.handleOffer (Some d)) m1 (proj2 S1)) as [H1 H2].
    eapply silent_trans; [exact S1|]. split; [exact H1|exact H2]. }
  destruct (pendingCandidates m2) as [|x l] eqn:E; [exact S2|].
  destruct (silent_replay (x :: l) m2 (proj2 S2)) as [H1 H2].
  eapply silent_trans; [exact S2|]. split; [exact H1|exact H2].
Qed.

(** While the socket is not open nothing reaches the server and nothing
    is kept for later: [findMatch] and every other call of
    [sendToServer] leave the manager exactly as it is, and whatever a
    server message, [connectToGame] or the game connection makes the
    manager emit (an offer, an answer, a candidate) is dropped. *)
Theorem nothing_is_written_to_a_socket_that_is_not_open (m : Manager) :
  wsOpen m = false ->
  findMatch m = m
  /\ (forall x, sendToServer x m = m)
  /\ (forall op, silent m (on_gameConnection op m))
  /\ (forall msg, silent m (handleServerMessage msg m))
  /\ silent m (connectToGame_resume m).
Proof.
  intros Hw.
  split; [apply sendToServer_closed; exact Hw|].
  split; [intros x; apply sendToServer_closed; exact Hw|].
  split; [intros op; apply silent_on_gameConnection; exact Hw|].
  split; [|apply silent_connectToGame_resume; exact Hw].
  intros [i| |r o i ice|data| |ty]; cbn [handleServerMessage];
    try (split; [reflexivity|exact Hw]).
  - unfold handleMatchFound.
    match goal with
    | |- silent m (connectToGame_enter ?x) =>
        eapply (silent_trans m x);
        [split; [reflexivity|exact Hw]
        |apply silent_connectToGame_enter; exact Hw]
    end.
  - unfold handleSignalingMessage.
    destruct data as [[d|d|d|ty]|];
      try (split; [reflexivity|exact Hw]);
      (destruct (gameConnection m);
       [apply silent_on_gameConnection; exact Hw
       |split; [reflexivity|exact Hw]]).
Qed.

(** *** An open socket *)

Lemma forward_emits_open seen m c :
  wsOpen m = true -> gameConnection m = Some c ->
  forward_emits seen m = wrote (to_server (skipn seen (Session.effects c))) m.
Proof.
  intros Hw Hc. unfold forward_emits. rewrite Hc. clear Hc.
  revert m Hw.
  induction (skipn seen (Session.effects c)) as [|e l IH]; intros m Hw;
    simpl; [symmetry; apply wrote_nothing|].
  destruct e as [b to uid|ev|ch d]; try (apply IH; exact Hw).
  assert (E : sendToServer (SignalReq b to uid) m
              = wrote [SignalReq b to uid] m)
    by (unfold sendToServer, wrote; destruct (wsOpen m);
        [reflexivity|discriminate]).
  rewrite E, IH by exact Hw. apply wrote_wrote.
Qed.

(** A call on the game connection: what the connection emits through
    its socket during the call is written to the server, in order. *)
Lemma on_gameConnection_open op m c l :
  wsOpen m = true -> gameConnection m = Some c ->
  Session.effects (snd (op c)) = Session.effects c ++ l ->
  on_gameConnection op m
  = wrote (to_server l) (set_gameConnection (Some (snd (op c))) m).
Proof.
  intros Hw Hc Hl. unfold on_gameConnection. rewrite Hc.
  rewrite (forward_emits_open _ _ (snd (op c))) by (auto; reflexivity).
  rewrite Hl, RegistryFacts.skipn_grown. reflexivity.
Qed.

(** The offer of a new initiator, as it is written to the server. *)
Definition offer_request (o : PeerId) : list ToServer :=
  match SessionLifecycle.first_offer with
  | Some d => [SignalReq (Session.BOffer d) (Some o) (Some o)]
  | None => []
  end.

Lemma opponent_truthy (x : option PeerId) (o : PeerId) :
  x = Some o -> o <> "" -> Session.truthy x = true.
Proof. intros ->. destruct o; [contradiction|reflexivity]. Qed.

(** [connectToGame] on a manager that has an opponent and no game
    connection, from the call to the end: the session is created and
    initialized, and an initiator's offer is written to the server. *)
Lemma connectToGame_creates m o :
  o <> "" -> opponentId m = Some o -> wsOpen m = true ->
  gameConnection m = None -> importing m = 0%nat ->
  pendingOffer m = None -> pendingCandidates m = [] ->
  connectToGame_resume (connectToGame_enter m)
  = wrote (if isInitiator m then offer_request o else [])
      (set_gameConnection
         (Some (snd (Session.initialize (game_config m)
                       Session.new_LocalGameConnection))) m).
Proof.
  intros Ho Hopp Hw Hgc Himp Hpo Hpc.
  unfold connectToGame_enter.
  rewrite (opponent_truthy _ o Hopp Ho), Hgc. cbn [negb]. rewrite Himp.
  unfold connectToGame_resume. cbn [importing set_importing]. cbv zeta.
  set (m0 := set_importing 0 (set_importing 1 m)).
  assert (E0 : m0 = m).
  { unfold m0. destruct m; cbn in *. subst. reflexivity. }
  rewrite E0.
  rewrite (on_gameConnection_open _ _ Session.new_LocalGameConnection
             (Session.effects
                (snd (Session.initialize (game_config m)
                        Session.new_LocalGameConnection))))
    by (auto; reflexivity).
  cbn [pendingOffer pendingCandidates wrote set_gameConnection].
  rewrite Hpo. cbn [pendingCandidates wrote set_gameConnection].
  rewrite Hpc.
  rewrite SessionLifecycle.fresh_session_effects.
  cbn [game_config Session.cfg_isInitiator Session.cfg_opponentId
       Session.cfg_opponentUid].
  unfold SessionLifecycle.target_uid, offer_request.
  rewrite (opponent_truthy _ o Hopp Ho), Hopp.
  destruct (isInitiator m); [|reflexivity].
  destruct SessionLifecycle.first_offer; reflexivity.
Qed.

(** A match-found message makes the manager take the role, the
    opponent and the initiator flag from the message, emit one
    match_found event that carries them, and start the game connection
    itself.  Once the connection is created, an initiator has written
    exactly one offer, addressed to the opponent, to the server (none
    if the browser failed to produce or install it); a responder has
    written nothing.  A message that names no opponent emits the event
    but starts no connection. *)
Theorem match_found_starts_the_game_connection
    (m : Manager) (r : string) (o : PeerId) (init : bool)
    (ice : option (list string)) :
  o <> "" -> wsOpen m = true ->
  gameConnection m = None -> importing m = 0%nat ->
  pendingOffer m = None -> pendingCandidates m = [] ->
  let announced :=
    match_found roomId (Some r) (Some o) (Some o) init
      (match ice with Some l => l | None => iceServers end) in
  let m1 := handleServerMessage (MatchFoundMsg r (Some o) init ice) m in
  let m2 := connectToGame_resume m1 in
  (events m1 = events m ++ [announced] /\ outbox m1 = outbox m
   /\ gameConnection m1 = None)
  /\ (role m2 = Some r /\ opponentId m2 = Some o /\ isInitiator m2 = init
      /\ matchmakingComplete m2 = true)
  /\ events m2 = events m ++ [announced]
  /\ gameConnection m2
     = Some (snd (Session.initialize
                    {| Session.cfg_isInitiator := init;
                       Session.cfg_opponentId := Some o;
                       Session.cfg_opponentUid := Some o;
                       Session.cfg_roomId := Some roomId;
                       Session.cfg_iceServers := iceServers |}
                    Session.new_LocalGameConnection))
  /\ outbox m2 = outbox m ++ (if init then offer_request o else [])
  /\ (let m' := handleServerMessage (MatchFoundMsg r None init ice) m in
      importing m' = 0%nat /\ gameConnection m' = None
      /\ connectToGame_resume m' = m').
Proof.
  intros Ho Hw Hgc Himp Hpo Hpc announced m1 m2.
  set (x := emit_event announced (set_match r (Some o) init m)).
  assert (E1 : m1 = connectToGame_enter x) by reflexivity.
  assert (E2 : m2 = wrote (if init then offer_request o else [])
                      (set_gameConnection
                         (Some (snd (Session.initialize (game_config x)
                                       Session.new_LocalGameConnection)))
                         x)).
  { unfold m2. rewrite E1.
    apply (connectToGame_creates x o Ho); try assumption; reflexivity. }
  split.
  { rewrite E1. unfold connectToGame_enter.
    rewrite (opponent_truthy (opponentId x) o eq_refl Ho). cbn [negb].
    change (gameConnection x) with (gameConnection m). rewrite Hgc.
    repeat split. exact Hgc. }
  rewrite E2.
  split; [repeat split|]. split; [reflexivity|]. split; [reflexivity|].
  split; [reflexivity|].
  cbv zeta.
  set (y := handleServerMessage (MatchFoundMsg r None init ice) m).
  assert (Hy : importing y = 0%nat) by exact Himp.
  split; [exact Hy|]. split; [exact Hgc|].
  unfold connectToGame_resume. rewrite Hy. reflexivity.
Qed.

(** [connectToGame] is not idempotent before the connection is up.
    Called on a manager whose game connection has been established it
    does nothing.  Called while the game connection exists but is not
    connected, it closes that connection and replaces it by a newly
    initialized one, whatever the old one had negotiated, and an
    initiator writes a new offer to the server. *)
Theorem connectToGame_restarts_unless_connected
    (m : Manager) (c : Session.Conn) (o : PeerId) :
  o <> "" -> opponentId m = Some o -> gameConnection m = Some c ->
  importing m = 0%nat ->
  (Session.isConnected c = true ->
   connectToGame_resume (connectToGame_enter m) = m)
  /\ (Session.isConnected c = false ->
      wsOpen m = true -> pendingOffer m = None ->
      pendingCandidates m = [] ->
      let m' := connectToGame_resume (connectToGame_enter m) in
      gameConnection m'
      = Some (snd (Session.initialize (game_config m)
                     Session.new_LocalGameConnection))
      /\ outbox m'
         = outbox m ++ (if isInitiator m then offer_request o else [])
      /\ events m' = events m).
Proof.
  intros Ho Hopp Hgc Himp. split.
  - intros Hc. unfold connectToGame_enter.
    rewrite (opponent_truthy _ o Hopp Ho), Hgc, Hc. cbn [negb].
    unfold connectToGame_resume. rewrite Himp. reflexivity.
  - intros Hc Hw Hpo Hpc m'.
    assert (Hclose : Session.effects (snd (Session.close c))
                     = Session.effects c ++ []).
    { rewrite app_nil_r.
      destruct c as [pc r u ic ii oi ou ri ice q ef].
      unfold Session.close, bind, modify, Session.pc_close. cbv zeta.
      destruct pc as [pc|];
        [destruct (Session.signalingClosed pc) eqn:Hs|];
        cbn; rewrite ?Hs; reflexivity. }
    assert (E : connectToGame_enter m
                = set_importing 1 (set_gameConnection None m)).
    { unfold connectToGame_enter.
      rewrite (opponent_truthy _ o Hopp Ho), Hgc, Hc. cbn [negb].
      rewrite (on_gameConnection_open Session.close m c [] Hw Hgc Hclose).
      cbn [to_server]. rewrite wrote_nothing.
      cbn [importing set_gameConnection set_importing]. rewrite Himp.
      reflexivity. }
    unfold m'. rewrite E.
    unfold connectToGame_resume. cbn [importing set_importing]. cbv zeta.
    cbn [set_gameConnection set_importing gameConnection].
    match goal with
    | |- context [on_gameConnection ?op ?x] =>
        rewrite (on_gameConnection_open op x Session.new_LocalGameConnection
                   (Session.effects
                      (snd (op Session.new_LocalGameConnection))))
          by (auto; reflexivity)
    end.
    cbn [pendingOffer pendingCandidates wrote set_gameConnection
         set_importing].
    rewrite Hpo. cbn [pendingCandidates wrote set_gameConnection
                      set_importing].
    rewrite Hpc.
    cbn [gameConnection outbox events].
    rewrite SessionLifecycle.fresh_session_effects.
    cbn [game_config Session.cfg_isInitiator Session.cfg_opponentId
         Session.cfg_opponentUid isInitiator opponentId set_importing
         set_gameConnection].
    unfold SessionLifecycle.target_uid, offer_request.
    rewrite (opponent_truthy _ o Hopp Ho), Hopp.
    repeat split.
    destruct (isInitiator m); [|reflexivity].
    destruct SessionLifecycle.first_offer; reflexivity.
Qed.

End WithBrowser.

(** *** Runs against the cooperative browser *)

(** A manager whose socket is open. *)
Definition connected_manager : Manager := set_socket true true new_manager.

Lemma nothing_is_written_to_a_socket_that_is_not_open_witness :
  wsOpen new_manager = false
  /\ findMatch new_manager = new_manager
  /\ (forall x, sendToServer x new_manager = new_manager)
  /\ (forall op, silent new_manager (on_gameConnection op new_manager))
  /\ (forall msg,
        silent new_manager
          (@handleServerMessage SessionFacts.cooperative msg new_manager))
  /\ silent new_manager
       (@connectToGame_resume SessionFacts.cooperative new_manager).
Proof.
  split; [reflexivity|].
  exact (@nothing_is_written_to_a_socket_that_is_not_open
           SessionFacts.cooperative new_manager eq_refl).
Defined.

Lemma match_found_starts_the_game_connection_witness :
  let m1 := @handleServerMessage SessionFacts.cooperative
              (MatchFoundMsg "A" (Some "b") true None) connected_manager in
  let m2 := @connectToGame_resume SessionFacts.cooperative m1 in
  wsOpen connected_manager = true
  /\ (role m2 = Some "A" /\ opponentId m2 = Some "b"
      /\ isInitiator m2 = true /\ matchmakingComplete m2 = true)
  /\ events m2 = [match_found roomId (Some "A") (Some "b") (Some "b") true
                    iceServers]
  /\ outbox m2 = [SignalReq (Session.BOffer SessionFacts.offer0)
                    (Some "b") (Some "b")].
Proof.
  destruct (@match_found_starts_the_game_connection
              SessionFacts.cooperative connected_manager "A" "b" true None
              ltac:(discriminate) eq_refl eq_refl eq_refl eq_refl eq_refl)
    as (_ & H2 & H3 & _ & H5 & _).
  cbv zeta. split; [reflexivity|]. split; [exact H2|].
  split; [exact H3|exact H5].
Defined.

(** An initiator matched with "peer-b": its game connection is
    created, its offer is out, and the connection is not yet up. *)
Definition offering_manager : Manager :=
  {| peerId := Some "peer-a"; role := Some "A";
     opponentId := Some "peer-b"; isInitiator := true;
     isSignalingConnected := true; matchmakingComplete := true;
     gameConnection :=
       Some (snd (@Session.initialize SessionFacts.cooperative
                    SessionLifecycle.initiator_config
                    Session.new_LocalGameConnection));
     pendingOffer := None; pendingCandidates := [];
     wsOpen := true; importing := 0;
     outbox := [SignalReq (Session.BOffer SessionFacts.offer0)
                  (Some "peer-b") (Some "peer-b")];
     events := [match_found roomId (Some "A") (Some "peer-b")
                  (Some "peer-b") true iceServers] |}.

Lemma connectToGame_restarts_unless_connected_witness :
  let m' := @connectToGame_resume SessionFacts.cooperative
              (connectToGame_enter offering_manager) in
  option_map Session.isConnected (gameConnection offering_manager)
  = Some false
  /\ outbox m'
     = [SignalReq (Session.BOffer SessionFacts.offer0)
          (Some "peer-b") (Some "peer-b");
        SignalReq (Session.BOffer SessionFacts.offer0)
          (Some "peer-b") (Some "peer-b")]
  /\ events m' = events offering_manager.
Proof.
  destruct (@connectToGame_restarts_unless_connected
              SessionFacts.cooperative offering_manager
              (snd (@Session.initialize SessionFacts.cooperative
                      SessionLifecycle.initiator_config
                      Session.new_LocalGameConnection))
              "peer-b" ltac:(discriminate) eq_refl eq_refl eq_refl)
    as [_ Hre].
  destruct (Hre ltac:(vm_compute; reflexivity) eq_refl eq_refl eq_refl)
    as (_ & H2 & H3).
  cbv zeta. split; [vm_compute; reflexivity|].
  split; [exact H2|exact H3].
Defined.

End SocketFacts.

(** ** The game's manager: forwarding of received data *)

Module GameClientFacts.
Import GameClient.

Lemma call_each_nothing {A} k : call_each (Some (@nil A)) k = Some [].
Proof. induction k as [|k IH]; simpl; [reflexivity|]. rewrite IH. reflexivity. Qed.

Lemma call_each_one {A} (x : A) k :
  call_each (Some [x]) k = Some (repeat x k).
Proof. induction k as [|k IH]; simpl; [reflexivity|]. rewrite IH. reflexivity. Qed.

Lemma forwarded_copy_marked a : is_forwarded (forwarded_copy a) = true.
Proof. destruct a; reflexivity. Qed.

Lemma emit_marked fuel k a :
  is_forwarded a = true -> emit (S fuel) k a = Some [a].
Proof. intros H. simpl. rewrite H, call_each_nothing. reflexivity. Qed.

Lemma listeners_connect n m :
  listeners (Nat.iter n connect m) = (n + listeners m)%nat.
Proof. induction n as [|n IH]; simpl; [reflexivity|]. rewrite IH. reflexivity. Qed.

(** The forwarding of received data ends after one round, however many
    listeners are registered: an emission that is not marked as
    forwarded makes every registered listener emit one marked copy of
    it, and a marked emission makes no listener emit anything.  Each
    call of [connect] registers one more listener; so after [n] calls a
    message received on a channel is emitted [n + 1] times on the
    scene, once as received and [n] times as a marked copy. *)
Theorem received_data_is_forwarded_once_per_listener
    (fuel k : nat) (a : Arg) :
  emit (S (S fuel)) k a
  = Some (a :: if is_forwarded a then [] else repeat (forwarded_copy a) k)
  /\ (forall n d lbl,
        emit (S (S fuel)) (listeners (Nat.iter n connect new_manager))
          (received d lbl)
        = Some (received d lbl
                :: repeat (forwarded_copy (received d lbl)) n)).
Proof.
  assert (H : forall k a,
            emit (S (S fuel)) k a
            = Some (a :: if is_forwarded a then []
                         else repeat (forwarded_copy a) k)).
  { intros k0 a0. destruct (is_forwarded a0) eqn:E.
    - apply emit_marked. exact E.
    - change (emit (S (S fuel)) k0 a0)
        with (match call_each
                      (if is_forwarded a0 then Some []
                       else emit (S fuel) k0 (forwarded_copy a0)) k0
              with
              | Some nested => Some (a0 :: nested)
              | None => None
              end).
      rewrite E, emit_marked by apply forwarded_copy_marked.
      rewrite call_each_one. reflexivity. }
  split; [apply H|].
  intros n d lbl. rewrite H, listeners_connect.
  cbn [is_forwarded received __forwarded new_manager listeners].
  rewrite Nat.add_0_r. reflexivity.
Qed.

End GameClientFacts.
